(** * A file-backed to-do store (package [db]) and its properties

    The development embeds the Go package [db] of the to-do application:
    the item record, the in-memory map, the store bound to one JSON file,
    and every method of the store, and the command line of package [cmd]
    that drives it.  The file comes in this order:
    - the environment of the package: files, the console, system calls
      that may fail, the JSON codec and the order of map iteration;
    - the package itself, method by method, and the command line;
    - a reading of [encoding/json] at the types of the package;
    - the vocabulary of the properties and a disk to run the store on;
    - the properties. *)

From Stdlib Require Import ZArith Strings.String Strings.Ascii Strings.Byte.
From Stdlib Require Import DecimalString DecimalPos DecimalFacts.
From stdpp Require Import gmap strings list fin_maps.
From Equations Require Import Equations.

Set Warnings "-register-all".

Open Scope Z_scope.

(** ** Data model *)

(** [type ToDoItem struct { Id int; Title string; IsDone bool }] *)
Record ToDoItem := mkItem {
  Id : Z;
  Title : string;
  IsDone : bool
}.

(** The zero value [ToDoItem{}]. *)
Definition zeroItem : ToDoItem := mkItem 0 "" false.

#[global] Instance ToDoItem_eq_dec : EqDecision ToDoItem.
Proof. solve_decision. Defined.

(** [type DbMap map[int]ToDoItem] *)
Abbreviation DbMap := (gmap Z ToDoItem).

(** [type ToDo struct { toDoMap DbMap; dbFileName string }] *)
Record ToDo := mkToDo {
  toDoMap : DbMap;
  dbFileName : string
}.

(** ** Errors *)

(** Go's [error] values that the package can meet: the ones it makes
    itself with [errors.New], the sentinel [io.EOF], the path errors of
    package [os], each with the operation, the path and the text of the
    system error behind it, and the errors of [encoding/json]. *)
Inductive error :=
| errorString (msg : string)
| io_EOF
| PathError (op path cause : string)
| JsonError (msg : string).

#[global] Instance error_eq_dec : EqDecision error.
Proof. solve_decision. Defined.

Definition errors_New (msg : string) : error := errorString msg.

(** [err.Error()] *)
Definition Error (e : error) : string :=
  match e with
  | errorString msg => msg
  | io_EOF => "EOF"
  | PathError op path cause => op +:+ " " +:+ path +:+ ": " +:+ cause
  | JsonError msg => msg
  end.

(** The texts of the two system errors of the model: the one of a file
    that is not there, and the one that stands for every call that the
    world makes fail. *)
Definition ENOENT : string := "no such file or directory".
Definition EIO : string := "input/output error".

(** A Go result pair [(value, err)] of which exactly one side is used. *)
Inductive Result (A : Type) :=
| Ok (a : A)
| Err (e : error).
Arguments Ok {A} a.
Arguments Err {A} e.

(** [%d] of [fmt.Sprintf] on an [int]. *)
Definition itoa (z : Z) : string := NilZero.string_of_int (Z.to_int z).

(** ** The environment: files, console, failing system calls *)

(** What the next system call of a kind does: it completes, or it fails;
    a failing write has put [partial] bytes on the disk before failing. *)
Inductive Outcome :=
| Done
| Fails (partial : nat).

#[global] Instance Outcome_eq_dec : EqDecision Outcome.
Proof. solve_decision. Defined.

Record World := mkWorld {
  files : gmap string (list byte);
  stdout : string;
  openFaults : list Outcome;
  readFaults : list Outcome;
  writeFaults : list Outcome
}.

(** The script of a kind of call is consumed from its head; an exhausted
    script means that the calls complete. *)
Definition next (script : list Outcome) : Outcome * list Outcome :=
  match script with
  | [] => (Done, [])
  | o :: rest => (o, rest)
  end.

Definition IO (A : Type) : Type := World -> A * World.

Definition ret {A} (a : A) : IO A := fun w => (a, w).

Definition bind {A B} (c : IO A) (k : A -> IO B) : IO B :=
  fun w => let (a, w') := c w in k a w'.

Notation "'do' x <- c ; k" := (bind c (fun x => k))
  (at level 10, x pattern, c at level 100, k at level 200, only parsing).

Definition nextOpen : IO Outcome := fun w =>
  let (o, rest) := next (openFaults w) in
  (o, mkWorld (files w) (stdout w) rest (readFaults w) (writeFaults w)).

Definition nextRead : IO Outcome := fun w =>
  let (o, rest) := next (readFaults w) in
  (o, mkWorld (files w) (stdout w) (openFaults w) rest (writeFaults w)).

Definition nextWrite : IO Outcome := fun w =>
  let (o, rest) := next (writeFaults w) in
  (o, mkWorld (files w) (stdout w) (openFaults w) (readFaults w) rest).

Definition getFile (path : string) : IO (option (list byte)) := fun w =>
  (files w !! path, w).

Definition putFile (path : string) (data : list byte) : IO unit := fun w =>
  (tt, mkWorld (<[path := data]> (files w)) (stdout w)
               (openFaults w) (readFaults w) (writeFaults w)).

Definition putStdout (s : string) : IO unit := fun w =>
  (tt, mkWorld (files w) (stdout w +:+ s)
               (openFaults w) (readFaults w) (writeFaults w)).

(** An open file, [*os.File]: its name and, for a file opened for
    reading, the bytes that have not been read yet. *)
Record File := mkFile {
  fname : string;
  unread : list byte
}.

(** [os.Stat(path)], of which only the error is looked at. *)
Definition os_Stat (path : string) : IO (option error) :=
  do o <- nextOpen ;
  match o with
  | Fails _ => ret (Some (PathError "stat" path EIO))
  | Done =>
      do c <- getFile path ;
      match c with
      | None => ret (Some (PathError "stat" path ENOENT))
      | Some _ => ret None
      end
  end.

(** [os.OpenFile(path, os.O_WRONLY|os.O_TRUNC|os.O_CREATE, 0644)]: the
    file exists and is empty once the call has succeeded. *)
Definition os_OpenFile_trunc (path : string) : IO (Result File) :=
  do o <- nextOpen ;
  match o with
  | Fails _ => ret (Err (PathError "open" path EIO))
  | Done => do _ <- putFile path [] ; ret (Ok (mkFile path []))
  end.

(** [os.Create(path)] is [OpenFile] with [O_RDWR|O_CREATE|O_TRUNC]. *)
Definition os_Create (path : string) : IO (Result File) :=
  os_OpenFile_trunc path.

(** [os.Open(path)]: read-only, the file has to exist. *)
Definition os_Open (path : string) : IO (Result File) :=
  do o <- nextOpen ;
  match o with
  | Fails _ => ret (Err (PathError "open" path EIO))
  | Done =>
      do c <- getFile path ;
      match c with
      | None => ret (Err (PathError "open" path ENOENT))
      | Some data => ret (Ok (mkFile path data))
      end
  end.

(** [f.Read(buffer)] with a buffer of [n] bytes: the bytes read, the
    file advanced past them and the error; at the end of the file the
    call reads nothing and returns [io.EOF]. *)
Definition File_Read (f : File) (n : nat) : IO (list byte * File * option error) :=
  do o <- nextRead ;
  match o with
  | Fails _ => ret ([], f, Some (PathError "read" (fname f) EIO))
  | Done =>
      match unread f with
      | [] => ret ([], f, Some io_EOF)
      | _ => ret (take n (unread f), mkFile (fname f) (drop n (unread f)), None)
      end
  end.

(** [f.Write(b)] on a file opened for writing by this package: the bytes
    go to the end of the file. *)
Definition File_Write (f : File) (b : list byte) : IO (nat * option error) :=
  do o <- nextWrite ;
  do c <- getFile (fname f) ;
  let old := default [] c in
  match o with
  | Done => do _ <- putFile (fname f) (old ++ b) ; ret (length b, None)
  | Fails k =>
      do _ <- putFile (fname f) (old ++ take k b) ;
      ret (length (take k b), Some (PathError "write" (fname f) EIO))
  end.

(** [os.ReadFile(path)] *)
Definition os_ReadFile (path : string) : IO (Result (list byte)) :=
  do r <- os_Open path ;
  match r with
  | Err e => ret (Err e)
  | Ok f =>
      do o <- nextRead ;
      match o with
      | Fails _ => ret (Err (PathError "read" path EIO))
      | Done => ret (Ok (unread f))
      end
  end.

(** [os.WriteFile(path, data, 0644)]: truncate, then write everything. *)
Definition os_WriteFile (path : string) (data : list byte) : IO (option error) :=
  do r <- os_OpenFile_trunc path ;
  match r with
  | Err e => ret (Some e)
  | Ok f => do (_, err) <- File_Write f data ; ret err
  end.

Definition newline : string := String (ascii_of_nat 10) EmptyString.

Fixpoint joinWith (sep : string) (args : list string) : string :=
  match args with
  | [] => ""
  | [a] => a
  | a :: rest => a +:+ sep +:+ joinWith sep rest
  end.

(** [fmt.Println] of strings: operands separated by a space, then a
    newline. *)
Definition fmt_Println (args : list string) : IO unit :=
  putStdout (joinWith " " args +:+ newline).

(** [fmt.Print] of strings: the operands one after the other. *)
Definition fmt_Print (args : list string) : IO unit :=
  putStdout (joinWith "" args).

(** ** What the package takes from the Go runtime *)

(** [encoding/json] at the two types the package uses it at:
    [json.MarshalIndent(v, "", "  ")] on a [[]ToDoItem] and on a
    [ToDoItem], and [json.Unmarshal] into a [[]ToDoItem] and into a
    [ToDoItem]. *)
Class JsonCodec := {
  json_MarshalIndent : list ToDoItem -> Result (list byte);
  json_MarshalIndent_item : ToDoItem -> Result (list byte);
  json_Unmarshal_list : list byte -> Result (list ToDoItem);
  json_Unmarshal_item : list byte -> Result ToDoItem
}.

(** [for _, item := range m]: every value of the map once, in an order
    that Go leaves unspecified. *)
Class MapOrder := {
  mapRange : DbMap -> list ToDoItem;
  mapRange_perm : forall m : DbMap, mapRange m ≡ₚ (map_to_list m).*2
}.

(** The loop of [RestoreDB] decides on the error of a read with
    [err != nil && err != io.EOF]. *)
Definition readFailed (err : option error) : bool :=
  match err with
  | None => false
  | Some e => bool_decide (e ≠ io_EOF)
  end.

Definition inspect {A} (a : A) : {b : A | a = b} := exist _ a eq_refl.

(** The [for] loop of [RestoreDB].  [Some err] is a [return err] from
    inside the loop, [None] is the [break]. *)
Equations? copyLoop (dbFile : File) (dbFileName backupFileName : string)
    (backupFile : File) (w : World) : option error * World
    by wf (length (unread backupFile)) lt :=
  copyLoop dbFile dbFileName backupFileName backupFile w
    with inspect (File_Read backupFile 1024 w) => {
    | exist _ (buffer, backupFile', err, w1) Hread
        with inspect (readFailed err) => {
        | exist _ true _ =>
            (Some (errors_New ("failed to read from " +:+ backupFileName)), w1)
        | exist _ false _ with inspect buffer => {
            | exist _ [] _ =>
                let (_, w2) :=
                  fmt_Println ["finished copying from "; backupFileName;
                               " to "; dbFileName] w1 in
                (None, w2)
            | exist _ (b :: bs) Hbuf =>
                let '(_, werr, w2) := File_Write dbFile (b :: bs) w1 in
                let (_, w3) :=
                  match werr with
                  | Some _ => fmt_Print ["failed to write to "; dbFileName] w2
                  | None => (tt, w2)
                  end in
                copyLoop dbFile dbFileName backupFileName backupFile' w3 } } }.
Proof.
  revert Hread. unfold File_Read, bind, nextRead, ret.
  destruct (next (readFaults w)) as [[|k] rest]; simpl; [|done].
  destruct (unread backupFile) as [|c l]; [done|].
  intros [= _ _ <- _ _]. simpl. rewrite length_drop. lia.
Qed.

Section Package.
Context `{JsonCodec} `{MapOrder}.

(** [initDB] *)
Definition initDB (dbFileName : string) : IO (option error) :=
  do r <- os_Create dbFileName ;
  match r with
  | Err err => ret (Some err)
  | Ok f =>
      do (_, err) <- File_Write f (list_byte_of_string "[]") ;
      match err with
      | Some err => ret (Some err)
      | None => ret None
      end
  end.

(** [New] *)
Definition New (dbFile : string) : IO (Result ToDo) :=
  let toDo := mkToDo ∅ dbFile in
  do err <- os_Stat dbFile ;
  match err with
  | Some _ =>
      do err <- initDB dbFile ;
      match err with
      | Some err => ret (Err err)
      | None => ret (Ok toDo)
      end
  | None => ret (Ok toDo)
  end.

(** [RestoreDB] *)
Definition RestoreDB (t : ToDo) : IO (option error) :=
  let dbFileName := dbFileName t in
  let backupFileName := dbFileName +:+ ".bak" in
  do r <- os_OpenFile_trunc dbFileName ;
  match r with
  | Err _ => ret (Some (errors_New ("failed to open " +:+ dbFileName)))
  | Ok dbFile =>
      do r <- os_Open backupFileName ;
      match r with
      | Err _ => ret (Some (errors_New ("failed to open " +:+ backupFileName)))
      | Ok backupFile =>
          do r <- copyLoop dbFile dbFileName backupFileName backupFile ;
          match r with
          | Some err => ret (Some err)
          | None => ret None
          end
      end
  end.

(** The body of the loop of [loadDB]: [t.toDoMap[item.Id] = item]. *)
Definition putItem (m : DbMap) (item : ToDoItem) : DbMap :=
  <[Id item := item]> m.

(** [loadDB] *)
Definition loadDB (t : ToDo) : IO (option error * ToDo) :=
  do r <- os_ReadFile (dbFileName t) ;
  match r with
  | Err err => ret (Some err, t)
  | Ok data =>
      match json_Unmarshal_list data with
      | Err err => ret (Some err, t)
      | Ok toDoList =>
          ret (None, mkToDo (foldl putItem (toDoMap t) toDoList) (dbFileName t))
      end
  end.

(** [saveDB] *)
Definition saveDB (t : ToDo) : IO (option error) :=
  let toDoList := mapRange (toDoMap t) in
  match json_MarshalIndent toDoList with
  | Err err => ret (Some err)
  | Ok data =>
      do err <- os_WriteFile (dbFileName t) data ;
      match err with
      | Some err => ret (Some err)
      | None => ret None
      end
  end.

(** [AddItem] *)
Definition AddItem (t : ToDo) (item : ToDoItem) : IO (option error * ToDo) :=
  do (err, t) <- loadDB t ;
  match err with
  | Some _ => ret (Some (errors_New "Failed to load the database."), t)
  | None =>
      match toDoMap t !! Id item with
      | Some _ =>
          ret (Some (errors_New
                 "The item provided already exists in the database."), t)
      | None =>
          let t := mkToDo (<[Id item := item]> (toDoMap t)) (dbFileName t) in
          do err <- saveDB t ;
          match err with
          | Some _ => ret (Some (errors_New "Failed to save to the database."), t)
          | None => ret (None, t)
          end
      end
  end.

(** [DeleteItem] *)
Definition DeleteItem (t : ToDo) (id : Z) : IO (option error * ToDo) :=
  do (err, t) <- loadDB t ;
  match err with
  | Some _ => ret (Some (errors_New "Failed to load the database."), t)
  | None =>
      match toDoMap t !! id with
      | Some _ =>
          let t := mkToDo (delete id (toDoMap t)) (dbFileName t) in
          do err <- saveDB t ;
          match err with
          | Some _ => ret (Some (errors_New "Failed to save to the database."), t)
          | None => ret (None, t)
          end
      | None =>
          ret (Some (errors_New
                 ("Couldn't delete item because the id " +:+ itoa id
                  +:+ " doesn't exist")), t)
      end
  end.

(** [UpdateItem] *)
Definition UpdateItem (t : ToDo) (item : ToDoItem) : IO (option error * ToDo) :=
  do (err, t) <- loadDB t ;
  match err with
  | Some _ => ret (Some (errors_New "Failed to load the database."), t)
  | None =>
      match toDoMap t !! Id item with
      | Some _ =>
          let t := mkToDo (<[Id item := item]> (toDoMap t)) (dbFileName t) in
          do err <- saveDB t ;
          match err with
          | Some _ => ret (Some (errors_New "Failed to save to the database."), t)
          | None => ret (None, t)
          end
      | None =>
          ret (Some (errors_New
                 ("Couldn't update item because the id " +:+ itoa (Id item)
                  +:+ " doesn't exist")), t)
      end
  end.

(** [GetItem] *)
Definition GetItem (t : ToDo) (id : Z) : IO (ToDoItem * option error * ToDo) :=
  do (err, t) <- loadDB t ;
  match err with
  | Some _ => ret (zeroItem, Some (errors_New "Failed to load the database."), t)
  | None =>
      match toDoMap t !! id with
      | Some item => ret (item, None, t)
      | None =>
          ret (zeroItem,
               Some (errors_New
                 ("Couldn't get item because the id " +:+ itoa id
                  +:+ " doesn't exist")), t)
      end
  end.

(** [GetAllItems] *)
Definition GetAllItems (t : ToDo) : IO (list ToDoItem * option error * ToDo) :=
  do (err, t) <- loadDB t ;
  match err with
  | Some _ => ret ([], Some (errors_New "Failed to load the database."), t)
  | None => ret (mapRange (toDoMap t), None, t)
  end.

(** [PrintItem]; the error of the encoder is dropped, as in the source. *)
Definition PrintItem (t : ToDo) (item : ToDoItem) : IO unit :=
  let jsonBytes :=
    match json_MarshalIndent_item item with
    | Ok data => data
    | Err _ => []
    end in
  fmt_Println [string_of_list_byte jsonBytes].

(** [PrintAllItems] *)
Fixpoint PrintAllItems (t : ToDo) (itemList : list ToDoItem) : IO unit :=
  match itemList with
  | [] => ret tt
  | item :: rest => do _ <- PrintItem t item ; PrintAllItems t rest
  end.

(** [JsonToItem] *)
Definition JsonToItem (jsonString : string) : ToDoItem * option error :=
  match json_Unmarshal_item (list_byte_of_string jsonString) with
  | Err err => (zeroItem, Some err)
  | Ok item => (item, None)
  end.

(** [ChangeItemDoneStatus] *)
Definition ChangeItemDoneStatus (t : ToDo) (id : Z) (value : bool)
  : IO (option error * ToDo) :=
  do (toDoItem, err, t) <- GetItem t id ;
  match err with
  | Some err => ret (Some err, t)
  | None =>
      let updatedItem := mkItem (Id toDoItem) (Title toDoItem) value in
      do (err, t) <- UpdateItem t updatedItem ;
      match err with
      | Some err => ret (Some err, t)
      | None => ret (None, t)
      end
  end.

End Package.

(** ** The command line (package [cmd]) *)

(** [type AppOptType int] and its constants. *)
Inductive AppOptType :=
| LIST_DB_ITEM
| RESTORE_DB_ITEM
| QUERY_DB_ITEM
| ADD_DB_ITEM
| UPDATE_DB_ITEM
| DELETE_DB_ITEM
| CHANGE_ITEM_STATUS
| NOT_IMPLEMENTED
| INVALID_APP_OPT.

#[global] Instance AppOptType_eq_dec : EqDecision AppOptType.
Proof. solve_decision. Defined.

(** The variables of the package that the flags are bound to. *)
Record Flags := mkFlags {
  dbFileNameFlag : string;
  restoreDbFlag : bool;
  listFlag : bool;
  itemStatusFlag : bool;
  queryFlag : Z;
  addFlag : string;
  updateFlag : string;
  deleteFlag : Z
}.

(** What the package uses of a [*cobra.Command] once the line has been
    parsed: the names of the flags that were set, in the order in which
    [cmd.Flags().Visit] goes through them, and the text that
    [cmd.Help()] prints. *)
Record Command := mkCommand {
  visited : list string;
  helpText : string
}.

(** [cmd.Help()] *)
Definition cmd_Help (cmd : Command) : IO unit := putStdout (helpText cmd).

(** The function that [processCmdLineFlags] gives to [Visit]: the
    [switch] on the name of the flag, which assigns to [appOpt]. *)
Definition visitFlag (appOpt : AppOptType) (name : string) : AppOptType :=
  if String.eqb name "list" then LIST_DB_ITEM
  else if String.eqb name "restore" then RESTORE_DB_ITEM
  else if String.eqb name "query" then QUERY_DB_ITEM
  else if String.eqb name "add" then ADD_DB_ITEM
  else if String.eqb name "update" then UPDATE_DB_ITEM
  else if String.eqb name "delete" then DELETE_DB_ITEM
  else if String.eqb name "status" then CHANGE_ITEM_STATUS
  else INVALID_APP_OPT.

(** [processCmdLineFlags]; [osArgs] is [os.Args]. *)
Definition processCmdLineFlags (osArgs : list string) (cmd : Command)
  : IO (AppOptType * option error) :=
  let appOpt := INVALID_APP_OPT in
  if (length osArgs =? 1)%nat then
    do _ <- cmd_Help cmd ;
    ret (appOpt, Some (errors_New "no flags were set"))
  else
    let appOpt := foldl visitFlag appOpt (visited cmd) in
    if bool_decide (appOpt = INVALID_APP_OPT)
       || bool_decide (appOpt = NOT_IMPLEMENTED)
    then
      do _ <- fmt_Println
                ["Invalid option set or the desired option is not currently implemented"] ;
      do _ <- cmd_Help cmd ;
      ret (appOpt, Some (errors_New "no flags or unimplemented were set"))
    else ret (appOpt, None).

(** A [for ... range] loop over a slice. *)
Fixpoint forEach {A} (l : list A) (body : A -> IO unit) : IO unit :=
  match l with
  | [] => ret tt
  | a :: rest => do _ <- body a ; forEach rest body
  end.

Definition zeroIdWarning : string :=
  "Warning, a zero value for id was detected. this can happen if you forget to define the -q flag. The usage for CHANGE_ITEM_STATUS is -q <targetId:int> -s=<isDone:bool>. if your intent was to target an item with an id of 0, please ignore this message".

Section Cmd.
Context `{JsonCodec} `{MapOrder}.

(** The function [Run] of [rootCmd].  The result is [Some code] when the
    function has ended the process with [os.Exit(code)] and [None] when
    it has returned. *)
Definition Run (osArgs : list string) (cmd : Command) (flags : Flags)
  : IO (option Z) :=
  do (opts, err) <- processCmdLineFlags osArgs cmd ;
  match err with
  | Some err => do _ <- fmt_Println [Error err] ; ret (Some 1)
  | None =>
  do r <- New (dbFileNameFlag flags) ;
  match r with
  | Err err => do _ <- fmt_Println [Error err] ; ret (Some 1)
  | Ok todo =>
      match opts with
      | RESTORE_DB_ITEM =>
          do _ <- fmt_Println ["Running RESTORE_DB_ITEM..."] ;
          do err <- RestoreDB todo ;
          match err with
          | Some err => do _ <- fmt_Println ["Error: "; Error err] ; ret None
          | None =>
              do _ <- fmt_Println ["Database restored from backup file"] ;
              ret None
          end
      | LIST_DB_ITEM =>
          do _ <- fmt_Println ["Running QUERY_DB_ITEM..."] ;
          do (todoList, err, todo) <- GetAllItems todo ;
          match err with
          | Some err => do _ <- fmt_Println ["Error: "; Error err] ; ret None
          | None =>
              do _ <- forEach todoList (PrintItem todo) ;
              do _ <- fmt_Println ["THERE ARE";
                                   itoa (Z.of_nat (length todoList));
                                   "ITEMS IN THE DB"] ;
              do _ <- fmt_Println ["Ok"] ;
              ret None
          end
      | QUERY_DB_ITEM =>
          do _ <- fmt_Println ["Running QUERY_DB_ITEM..."] ;
          do (item, err, todo) <- GetItem todo (queryFlag flags) ;
          match err with
          | Some err => do _ <- fmt_Println ["Error: "; Error err] ; ret None
          | None =>
              do _ <- PrintItem todo item ;
              do _ <- fmt_Println ["Ok"] ;
              ret None
          end
      | ADD_DB_ITEM =>
          do _ <- fmt_Println ["Running ADD_DB_ITEM..."] ;
          let (item, err) := JsonToItem (addFlag flags) in
          match err with
          | Some err =>
              do _ <- fmt_Println
                        ["Add option requires a valid JSON todo item string"] ;
              do _ <- fmt_Println ["Error: "; Error err] ;
              ret None
          | None =>
              do (err, todo) <- AddItem todo item ;
              match err with
              | Some err => do _ <- fmt_Println ["Error: "; Error err] ; ret None
              | None => do _ <- fmt_Println ["Ok"] ; ret None
              end
          end
      | UPDATE_DB_ITEM =>
          do _ <- fmt_Println ["Running UPDATE_DB_ITEM..."] ;
          let (item, err) := JsonToItem (updateFlag flags) in
          match err with
          | Some err =>
              do _ <- fmt_Println
                        ["Update option requires a valid JSON todo item string"] ;
              do _ <- fmt_Println ["Error: "; Error err] ;
              ret None
          | None =>
              do (err, todo) <- UpdateItem todo item ;
              match err with
              | Some err => do _ <- fmt_Println ["Error: "; Error err] ; ret None
              | None => do _ <- fmt_Println ["Ok"] ; ret None
              end
          end
      | DELETE_DB_ITEM =>
          do _ <- fmt_Println ["Running DELETE_DB_ITEM..."] ;
          do (err, todo) <- DeleteItem todo (deleteFlag flags) ;
          match err with
          | Some err => do _ <- fmt_Println ["Error: "; Error err] ; ret None
          | None => do _ <- fmt_Println ["Ok"] ; ret None
          end
      | CHANGE_ITEM_STATUS =>
          do _ <- fmt_Println ["Running CHANGE_ITEM_STATUS..."] ;
          do _ <- (if (queryFlag flags =? 0) then fmt_Println [zeroIdWarning]
                   else ret tt) ;
          do (err, todo) <-
            ChangeItemDoneStatus todo (queryFlag flags) (itemStatusFlag flags) ;
          match err with
          | Some err => do _ <- fmt_Println ["Error: "; Error err] ; ret None
          | None => do _ <- fmt_Println ["Ok"] ; ret None
          end
      | _ => do _ <- fmt_Println ["INVALID_APP_OPT"] ; ret None
      end
  end
  end.

End Cmd.

(** ** A model of [encoding/json] for the two types of the package

    The text is read in two passes, as the library does: the first
    checks the syntax of the whole text and builds the value, the second
    stores the value into a [ToDoItem] or a [[]ToDoItem]. *)
Module GoJson.

Definition code (b : byte) : N := Byte.to_N b.
Definition byteOf (n : N) : byte := default x00 (Byte.of_N n).
Definition isChar (c : string) (b : byte) : bool :=
  match list_byte_of_string c with
  | [a] => Byte.eqb a b
  | _ => false
  end.
Definition quote : byte := x22.
Definition backslash : byte := x5c.

Definition isSpace (b : byte) : bool :=
  (code b =? 32)%N || (code b =? 9)%N || (code b =? 10)%N || (code b =? 13)%N.
Definition isDigit (b : byte) : bool := (48 <=? code b)%N && (code b <=? 57)%N.

Fixpoint skipSpace (s : list byte) : list byte :=
  match s with
  | b :: r => if isSpace b then skipSpace r else s
  | [] => []
  end.

Fixpoint spanDigits (s : list byte) : list byte * list byte :=
  match s with
  | b :: r =>
      if isDigit b then let (ds, r') := spanDigits r in (b :: ds, r') else ([], s)
  | [] => ([], [])
  end.

(** JSON values; a number keeps its literal, a string is unquoted. *)
Inductive value :=
| Null
| Bool (b : bool)
| Number (lit : list byte)
| Str (s : string)
| Array (elems : list value)
| Object (members : list (string * value)).

(** *** Numbers: an optional minus sign, then 0 or a digit string not
    starting with 0, then an optional fraction and an optional exponent *)

Definition scanInt (s : list byte) : option (list byte * list byte) :=
  match s with
  | b :: r =>
      if isChar "0" b then Some ([b], r)
      else if isDigit b then let (ds, r') := spanDigits r in Some (b :: ds, r')
      else None
  | [] => None
  end.

Definition scanFrac (s : list byte) : option (list byte * list byte) :=
  match s with
  | b :: r =>
      if isChar "." b then
        match spanDigits r with
        | ([], _) => None
        | (ds, r') => Some (b :: ds, r')
        end
      else Some ([], s)
  | [] => Some ([], [])
  end.

Definition scanExp (s : list byte) : option (list byte * list byte) :=
  match s with
  | b :: r =>
      if isChar "e" b || isChar "E" b then
        let (sign, r1) :=
          match r with
          | c :: r' => if isChar "+" c || isChar "-" c then ([c], r') else ([], r)
          | [] => ([], r)
          end in
        match spanDigits r1 with
        | ([], _) => None
        | (ds, r') => Some (b :: sign ++ ds, r')
        end
      else Some ([], s)
  | [] => Some ([], [])
  end.

Definition scanNumber (s : list byte) : option (list byte * list byte) :=
  let (sign, s1) :=
    match s with
    | b :: r => if isChar "-" b then ([b], r) else ([], s)
    | [] => ([], s)
    end in
  match scanInt s1 with
  | None => None
  | Some (i, s2) =>
      match scanFrac s2 with
      | None => None
      | Some (f, s3) =>
          match scanExp s3 with
          | None => None
          | Some (e, s4) => Some (sign ++ i ++ f ++ e, s4)
          end
      end
  end.

(** *** UTF-8, as [unicode/utf8] decodes and encodes it *)

Definition RuneError : N := 65533.

Definition isCont (b : byte) : bool := (128 <=? code b)%N && (code b <=? 191)%N.
Definition low6 (b : byte) : N := N.land (code b) 63.

(** [utf8.DecodeRune]: the rune at the head of [s] and its width; an
    ill-formed head is [RuneError] of width 1. *)
Definition decodeRune (s : list byte) : N * nat :=
  match s with
  | [] => (RuneError, 0%nat)
  | b0 :: r =>
      let c0 := code b0 in
      if (c0 <? 128)%N then (c0, 1%nat)
      else if (c0 <? 194)%N then (RuneError, 1%nat)
      else if (c0 <? 224)%N then
        match r with
        | b1 :: _ =>
            if isCont b1
            then (N.lor (N.shiftl (N.land c0 31) 6) (low6 b1), 2%nat)
            else (RuneError, 1%nat)
        | _ => (RuneError, 1%nat)
        end
      else if (c0 <? 240)%N then
        let lo := if (c0 =? 224)%N then 160%N else 128%N in
        let hi := if (c0 =? 237)%N then 159%N else 191%N in
        match r with
        | b1 :: b2 :: _ =>
            if (lo <=? code b1)%N && (code b1 <=? hi)%N && isCont b2
            then (N.lor (N.shiftl (N.land c0 15) 12)
                    (N.lor (N.shiftl (low6 b1) 6) (low6 b2)), 3%nat)
            else (RuneError, 1%nat)
        | _ => (RuneError, 1%nat)
        end
      else if (c0 <? 245)%N then
        let lo := if (c0 =? 240)%N then 144%N else 128%N in
        let hi := if (c0 =? 244)%N then 143%N else 191%N in
        match r with
        | b1 :: b2 :: b3 :: _ =>
            if (lo <=? code b1)%N && (code b1 <=? hi)%N && isCont b2 && isCont b3
            then (N.lor (N.shiftl (N.land c0 7) 18)
                    (N.lor (N.shiftl (low6 b1) 12)
                       (N.lor (N.shiftl (low6 b2) 6) (low6 b3))), 4%nat)
            else (RuneError, 1%nat)
        | _ => (RuneError, 1%nat)
        end
      else (RuneError, 1%nat)
  end.

Definition contByte (r : N) (shift : N) : byte :=
  byteOf (N.lor 128 (N.land (N.shiftr r shift) 63)).

(** [utf8.AppendRune] *)
Definition encodeRune (r : N) : list byte :=
  if (r <? 128)%N then [byteOf r]
  else if (r <? 2048)%N then [byteOf (N.lor 192 (N.shiftr r 6)); contByte r 0]
  else if ((55296 <=? r)%N && (r <? 57344)%N) || (1114111 <? r)%N
  then [byteOf 239; byteOf 191; byteOf 189]
  else if (r <? 65536)%N
  then [byteOf (N.lor 224 (N.shiftr r 12)); contByte r 6; contByte r 0]
  else [byteOf (N.lor 240 (N.shiftr r 18)); contByte r 12; contByte r 6;
        contByte r 0].

(** *** Strings *)

Definition hexVal (b : byte) : option N :=
  let c := code b in
  if isDigit b then Some (c - 48)%N
  else if (97 <=? c)%N && (c <=? 102)%N then Some (c - 87)%N
  else if (65 <=? c)%N && (c <=? 70)%N then Some (c - 55)%N
  else None.

(** The four hexadecimal digits of a [\u] escape. *)
Definition hex4 (s : list byte) : option (N * list byte) :=
  match s with
  | a :: b :: c :: d :: r =>
      match hexVal a, hexVal b, hexVal c, hexVal d with
      | Some x, Some y, Some z, Some t =>
          Some ((((x * 16 + y) * 16 + z) * 16 + t)%N, r)
      | _, _, _, _ => None
      end
  | _ => None
  end.

(** [getu4]: the rune of a [\uXXXX] at the head of [s], if there is one. *)
Definition getu4 (s : list byte) : option N :=
  match s with
  | b :: u :: r =>
      if Byte.eqb b backslash && isChar "u" u then fst <$> hex4 r else None
  | _ => None
  end.

Definition isSurrogate (r : N) : bool := (55296 <=? r)%N && (r <? 57344)%N.

(** [utf16.DecodeRune] *)
Definition decodeSurrogates (r1 r2 : N) : N :=
  if (55296 <=? r1)%N && (r1 <? 56320)%N && (56320 <=? r2)%N && (r2 <? 57344)%N
  then (N.lor (N.shiftl (r1 - 55296) 10) (r2 - 56320) + 65536)%N
  else RuneError.

Definition simpleEscape (e : byte) : option byte :=
  if Byte.eqb e quote then Some quote
  else if Byte.eqb e backslash then Some backslash
  else if isChar "/" e then Some e
  else if isChar "b" e then Some (byteOf 8)
  else if isChar "f" e then Some (byteOf 12)
  else if isChar "n" e then Some (byteOf 10)
  else if isChar "r" e then Some (byteOf 13)
  else if isChar "t" e then Some (byteOf 9)
  else None.

(** The text after an opening quote, up to the closing one: the unquoted
    bytes and what follows the string.  Every step takes at least one
    byte, so [length s] steps are always enough. *)
Fixpoint scanString (fuel : nat) (s : list byte) : option (list byte * list byte) :=
  match fuel with
  | O => None
  | S fuel =>
      match s with
      | [] => None
      | c :: r =>
          if Byte.eqb c quote then Some ([], r)
          else if Byte.eqb c backslash then
            match r with
            | [] => None
            | e :: r1 =>
                if isChar "u" e then
                  match hex4 r1 with
                  | None => None
                  | Some (rr, r2) =>
                      let (out, r3) :=
                        if isSurrogate rr then
                          match getu4 r2 with
                          | Some rr1 =>
                              let dec := decodeSurrogates rr rr1 in
                              if (dec =? RuneError)%N
                              then (encodeRune RuneError, r2)
                              else (encodeRune dec, drop 6 r2)
                          | None => (encodeRune RuneError, r2)
                          end
                        else (encodeRune rr, r2) in
                      match scanString fuel r3 with
                      | None => None
                      | Some (bs, rest) => Some (out ++ bs, rest)
                      end
                  end
                else
                  match simpleEscape e with
                  | None => None
                  | Some b =>
                      match scanString fuel r1 with
                      | None => None
                      | Some (bs, rest) => Some (b :: bs, rest)
                      end
                  end
            end
          else if (code c <? 32)%N then None
          else if (code c <? 128)%N then
            match scanString fuel r with
            | None => None
            | Some (bs, rest) => Some (c :: bs, rest)
            end
          else
            let (rune, size) := decodeRune s in
            match scanString fuel (drop size s) with
            | None => None
            | Some (bs, rest) => Some (encodeRune rune ++ bs, rest)
            end
      end
  end.

Definition scanQuoted (s : list byte) : option (string * list byte) :=
  match scanString (length s) s with
  | None => None
  | Some (bs, rest) => Some (string_of_list_byte bs, rest)
  end.

(** *** Values *)

Fixpoint stripPrefix (p s : list byte) : option (list byte) :=
  match p, s with
  | [], _ => Some s
  | a :: p', b :: s' => if Byte.eqb a b then stripPrefix p' s' else None
  | _ :: _, [] => None
  end.

Definition literal (word : string) (v : value) (s : list byte)
  : option (value * list byte) :=
  match stripPrefix (list_byte_of_string word) s with
  | Some rest => Some (v, rest)
  | None => None
  end.

(** The scanner refuses texts nested deeper than this. *)
Definition maxNestingDepth : N := 10000.

Fixpoint parseValue (fuel : nat) (depth : N) (s : list byte)
  : option (value * list byte) :=
  match fuel with
  | O => None
  | S fuel =>
      match skipSpace s with
      | [] => None
      | c :: r =>
          if isChar "n" c then literal "null" Null (c :: r)
          else if isChar "t" c then literal "true" (Bool true) (c :: r)
          else if isChar "f" c then literal "false" (Bool false) (c :: r)
          else if Byte.eqb c quote then
            match scanQuoted r with
            | Some (str, rest) => Some (Str str, rest)
            | None => None
            end
          else if isChar "[" c then
            if (maxNestingDepth <=? depth)%N then None
            else
              match skipSpace r with
              | d :: r' =>
                  if isChar "]" d then Some (Array [], r')
                  else
                    match parseElements fuel (depth + 1) r with
                    | Some (vs, rest) => Some (Array vs, rest)
                    | None => None
                    end
              | [] => None
              end
          else if isChar "{" c then
            if (maxNestingDepth <=? depth)%N then None
            else
              match skipSpace r with
              | d :: r' =>
                  if isChar "}" d then Some (Object [], r')
                  else
                    match parseMembers fuel (depth + 1) r with
                    | Some (ms, rest) => Some (Object ms, rest)
                    | None => None
                    end
              | [] => None
              end
          else if isChar "-" c || isDigit c then
            match scanNumber (c :: r) with
            | Some (lit, rest) => Some (Number lit, rest)
            | None => None
            end
          else None
      end
  end

with parseElements (fuel : nat) (depth : N) (s : list byte)
  : option (list value * list byte) :=
  match fuel with
  | O => None
  | S fuel =>
      match parseValue fuel depth s with
      | None => None
      | Some (v, r) =>
          match skipSpace r with
          | d :: r' =>
              if isChar "," d then
                match parseElements fuel depth r' with
                | Some (vs, rest) => Some (v :: vs, rest)
                | None => None
                end
              else if isChar "]" d then Some ([v], r')
              else None
          | [] => None
          end
      end
  end

with parseMembers (fuel : nat) (depth : N) (s : list byte)
  : option (list (string * value) * list byte) :=
  match fuel with
  | O => None
  | S fuel =>
      match skipSpace s with
      | q :: r =>
          if Byte.eqb q quote then
            match scanQuoted r with
            | None => None
            | Some (key, r1) =>
                match skipSpace r1 with
                | colon :: r2 =>
                    if isChar ":" colon then
                      match parseValue fuel depth r2 with
                      | None => None
                      | Some (v, r3) =>
                          match skipSpace r3 with
                          | d :: r4 =>
                              if isChar "," d then
                                match parseMembers fuel depth r4 with
                                | Some (ms, rest) => Some ((key, v) :: ms, rest)
                                | None => None
                                end
                              else if isChar "}" d then Some ([(key, v)], r4)
                              else None
                          | [] => None
                          end
                      end
                    else None
                | [] => None
                end
            end
          else None
      | [] => None
      end
  end.

(** The whole text is one value between optional blanks. *)
Definition parseJSON (data : list byte) : option value :=
  match parseValue (2 * length data + 2) 0 data with
  | Some (v, rest) =>
      match skipSpace rest with
      | [] => Some v
      | _ => None
      end
  | None => None
  end.

(** *** Storing a value into a [ToDoItem] *)

Definition int64_min : Z := -9223372036854775808.
Definition int64_max : Z := 9223372036854775807.

Definition digitsToZ (ds : list byte) : Z :=
  foldl (fun acc b => acc * 10 + Z.of_N (code b - 48)) 0 ds.

(** [strconv.ParseInt(lit, 10, 64)] *)
Definition parseInt (lit : list byte) : option Z :=
  let (neg, ds) :=
    match lit with
    | b :: r => if isChar "-" b then (true, r) else (false, lit)
    | [] => (false, lit)
    end in
  match ds with
  | [] => None
  | _ =>
      if forallb isDigit ds then
        let z := if neg then - digitsToZ ds else digitsToZ ds in
        if (int64_min <=? z) && (z <=? int64_max) then Some z else None
      else None
  end.

(** The fields of the struct, by their [json] tags. *)
Inductive field := FieldId | FieldTitle | FieldDone.

Definition lowerAscii (a : ascii) : ascii :=
  let n := N_of_ascii a in
  if (65 <=? n)%N && (n <=? 90)%N then ascii_of_N (n + 32) else a.

Fixpoint toLower (s : string) : string :=
  match s with
  | EmptyString => EmptyString
  | String a r => String (lowerAscii a) (toLower r)
  end.

(** A key names a field when it is the tag up to the case of its
    letters. *)
Definition fieldOf (key : string) : option field :=
  let k := toLower key in
  if String.eqb k "id" then Some FieldId
  else if String.eqb k "title" then Some FieldTitle
  else if String.eqb k "done" then Some FieldDone
  else None.

(** The kind of a value, as an [UnmarshalTypeError] names it. *)
Definition describe (v : value) : string :=
  match v with
  | Null => "null"
  | Bool _ => "bool"
  | Number _ => "number"
  | Str _ => "string"
  | Array _ => "array"
  | Object _ => "object"
  end.

(** [*json.UnmarshalTypeError] *)
Definition typeError (v : value) (target : string) : error :=
  JsonError ("json: cannot unmarshal " +:+ describe v +:+ " into Go " +:+ target).

(** The [UnmarshalTypeError] of a number that is no [int]: this one
    names the number. *)
Definition numberError (lit : list byte) (target : string) : error :=
  JsonError ("json: cannot unmarshal number " +:+ string_of_list_byte lit
             +:+ " into Go " +:+ target).

(** [*json.SyntaxError].  The library words its message after the place
    and the byte of the fault; the package never looks at the message,
    and one text stands here for all of them. *)
Definition syntaxError : error := JsonError "json: invalid JSON text".

(** The decoder keeps the first type error and goes on. *)
Definition saveError (saved : option error) (e : error) : option error :=
  match saved with
  | Some kept => Some kept
  | None => Some e
  end.

(** One member of an object: a [null] leaves the field as it is, a value
    of the field's type is stored, any other value is a type error, and
    a key that names no field is skipped. *)
Definition storeMember (st : ToDoItem * option error) (m : string * value)
  : ToDoItem * option error :=
  let (item, saved) := st in
  let (key, v) := m in
  match fieldOf key, v with
  | None, _ => st
  | Some _, Null => st
  | Some FieldId, Number lit =>
      match parseInt lit with
      | Some z => (mkItem z (Title item) (IsDone item), saved)
      | None =>
          (item, saveError saved
                   (numberError lit "struct field ToDoItem.id of type int"))
      end
  | Some FieldId, _ =>
      (item, saveError saved (typeError v "struct field ToDoItem.id of type int"))
  | Some FieldTitle, Str str => (mkItem (Id item) str (IsDone item), saved)
  | Some FieldTitle, _ =>
      (item, saveError saved
               (typeError v "struct field ToDoItem.title of type string"))
  | Some FieldDone, Bool b => (mkItem (Id item) (Title item) b, saved)
  | Some FieldDone, _ =>
      (item, saveError saved (typeError v "struct field ToDoItem.done of type bool"))
  end.

Definition storeItem (st : ToDoItem * option error) (v : value)
  : ToDoItem * option error :=
  match v with
  | Null => st
  | Object members => foldl storeMember st members
  | _ => (fst st, saveError (snd st) (typeError v "value of type db.ToDoItem"))
  end.

(** An element of the array is stored into a fresh zero item. *)
Definition storeElement (st : list ToDoItem * option error) (v : value)
  : list ToDoItem * option error :=
  let (items, saved) := st in
  let (item, saved') := storeItem (zeroItem, saved) v in
  (items ++ [item], saved').

Definition storeList (v : value) : list ToDoItem * option error :=
  match v with
  | Null => ([], None)
  | Array elems => foldl storeElement ([], None) elems
  | _ => ([], Some (typeError v "value of type []db.ToDoItem"))
  end.

(** [json.Unmarshal(data, &item)] with [item] the zero item. *)
Definition Unmarshal_item (data : list byte) : Result ToDoItem :=
  match parseJSON data with
  | None => Err syntaxError
  | Some v =>
      match storeItem (zeroItem, None) v with
      | (item, None) => Ok item
      | (_, Some e) => Err e
      end
  end.

(** [json.Unmarshal(data, &toDoList)] with [toDoList] a nil slice. *)
Definition Unmarshal_list (data : list byte) : Result (list ToDoItem) :=
  match parseJSON data with
  | None => Err syntaxError
  | Some v =>
      match storeList v with
      | (items, None) => Ok items
      | (_, Some e) => Err e
      end
  end.

(** *** Writing *)

Definition bytes (s : string) : list byte := list_byte_of_string s.

Definition hexDigit (n : N) : byte :=
  byteOf (if (n <? 10)%N then 48 + n else 87 + n)%N.

(** A byte below 128 that a string literal holds as it is. *)
Definition htmlSafe (c : byte) : bool :=
  (32 <=? code c)%N
  && negb (Byte.eqb c quote || Byte.eqb c backslash
           || isChar "<" c || isChar ">" c || isChar "&" c).

Definition escapeByte (c : byte) : list byte :=
  if Byte.eqb c quote || Byte.eqb c backslash then [backslash; c]
  else if (code c =? 8)%N then bytes "\b"
  else if (code c =? 12)%N then bytes "\f"
  else if (code c =? 10)%N then bytes "\n"
  else if (code c =? 13)%N then bytes "\r"
  else if (code c =? 9)%N then bytes "\t"
  else bytes "\u00" ++ [hexDigit (N.shiftr (code c) 4); hexDigit (N.land (code c) 15)].

(** The inside of a string literal, as the encoder writes it. *)
Fixpoint escapeString (fuel : nat) (s : list byte) : list byte :=
  match fuel with
  | O => []
  | S fuel =>
      match s with
      | [] => []
      | c :: r =>
          if (code c <? 128)%N then
            (if htmlSafe c then [c] else escapeByte c) ++ escapeString fuel r
          else
            let (rune, size) := decodeRune s in
            if (rune =? RuneError)%N && (size =? 1)%nat
            then bytes "\ufffd" ++ escapeString fuel r
            else if (rune =? 8232)%N || (rune =? 8233)%N
            then bytes "\u202" ++ [hexDigit (N.land rune 15)]
                 ++ escapeString fuel (drop size s)
            else take size s ++ escapeString fuel (drop size s)
      end
  end.

Definition quoted (s : string) : list byte :=
  [quote] ++ escapeString (String.length s) (bytes s) ++ [quote].

Definition lf : list byte := [byteOf 10].

Definition encodeBool (b : bool) : list byte :=
  if b then bytes "true" else bytes "false".

(** One item behind an indentation. *)
Definition encodeItemAt (indent : list byte) (item : ToDoItem) : list byte :=
  indent ++ bytes "{" ++ lf
  ++ indent ++ bytes "  " ++ quoted "id" ++ bytes ": " ++ bytes (itoa (Id item))
  ++ bytes "," ++ lf
  ++ indent ++ bytes "  " ++ quoted "title" ++ bytes ": " ++ quoted (Title item)
  ++ bytes "," ++ lf
  ++ indent ++ bytes "  " ++ quoted "done" ++ bytes ": "
  ++ encodeBool (IsDone item)
  ++ lf ++ indent ++ bytes "}".

(** One item at the depth it has in the array. *)
Definition encodeItem (item : ToDoItem) : list byte :=
  encodeItemAt (bytes "  ") item.

Fixpoint encodeItems (items : list ToDoItem) : list byte :=
  match items with
  | [] => []
  | [item] => encodeItem item
  | item :: rest => encodeItem item ++ bytes "," ++ lf ++ encodeItems rest
  end.

(** [json.MarshalIndent(toDoList, "", "  ")]; the list without items is
    the nil slice that [saveDB] and [GetAllItems] build, and a nil slice
    is written as [null]. *)
Definition MarshalIndent (toDoList : list ToDoItem) : Result (list byte) :=
  match toDoList with
  | [] => Ok (bytes "null")
  | _ => Ok (bytes "[" ++ lf ++ encodeItems toDoList ++ lf ++ bytes "]")
  end.

(** *** What fits a [ToDoItem] *)

(** A member of an object that [json.Unmarshal] can store into a
    [ToDoItem]: its key names no field, or its value is [null] or has
    the type of the field it names. *)
Definition fitsField (m : string * value) : bool :=
  match fieldOf m.1, m.2 with
  | None, _ => true
  | Some _, Null => true
  | Some FieldId, Number lit =>
      match parseInt lit with
      | Some _ => true
      | None => false
      end
  | Some FieldTitle, Str _ => true
  | Some FieldDone, Bool _ => true
  | Some _, _ => false
  end.

(** Two items agree on a field. *)
Definition sameField (f : field) (a b : ToDoItem) : Prop :=
  match f with
  | FieldId => Id a = Id b
  | FieldTitle => Title a = Title b
  | FieldDone => IsDone a = IsDone b
  end.

(** No member of the object names the field. *)
Definition omits (f : field) (members : list (string * value)) : Prop :=
  forall m, m ∈ members -> fieldOf m.1 ≠ Some f.

(** [json.MarshalIndent(item, "", "  ")] *)
Definition MarshalIndent_item (item : ToDoItem) : Result (list byte) :=
  Ok (encodeItemAt [] item).

#[global] Instance codec : JsonCodec := {
  json_MarshalIndent := MarshalIndent;
  json_MarshalIndent_item := MarshalIndent_item;
  json_Unmarshal_list := Unmarshal_list;
  json_Unmarshal_item := Unmarshal_item
}.

End GoJson.

(** The order in which [gmap] lists its entries is one of the orders a
    [range] may take. *)
#[global] Program Instance keyOrder : MapOrder := {
  mapRange m := (map_to_list m).*2
}.

(** * The vocabulary of the properties *)

(** ** Strings *)

(** [strings.HasPrefix(s, p)] and [strings.Contains(s, sub)] *)
Fixpoint hasPrefix (s p : string) {struct p} : bool :=
  match p, s with
  | EmptyString, _ => true
  | String a p', String b s' => Ascii.eqb a b && hasPrefix s' p'
  | String _ _, EmptyString => false
  end.

Fixpoint contains (s sub : string) : bool :=
  hasPrefix s sub ||
  match s with
  | EmptyString => false
  | String _ s' => contains s' sub
  end.

(** ** Worlds in which the system calls complete *)

Definition calm (script : list Outcome) : Prop := Forall (eq Done) script.

Definition quiet (w : World) : Prop :=
  calm (openFaults w) ∧ calm (readFaults w) ∧ calm (writeFaults w).

(** ** Maps and computations *)

(** Every key of the map is the [Id] of its item. *)
Definition keyed (m : DbMap) : Prop :=
  forall id item, m !! id = Some item -> Id item = id.

(** A computation that writes nothing to the console. *)
Definition silent {A} (c : IO A) : Prop := forall w, stdout (c w).2 = stdout w.

(** A computation that changes no file. *)
Definition readonly {A} (c : IO A) : Prop := forall w, files (c w).2 = files w.

(** A computation that uses up no outcome of a write. *)
Definition writeless {A} (c : IO A) : Prop :=
  forall w, writeFaults (c w).2 = writeFaults w.

(** A computation after which the system calls still complete. *)
Definition steady {A} (c : IO A) : Prop := forall w, quiet w -> quiet (c w).2.

(** The text that [RestoreDB] prints when the copy is over. *)
Definition finishedLine (dbFileName backupFileName : string) : string :=
  joinWith " " ["finished copying from "; backupFileName; " to "; dbFileName]
  +:+ newline.

(** The line that [Run] prints for the error of an operation, with
    [fmt.Println("Error: ", err)]. *)
Definition errorLine (err : error) : string :=
  joinWith " " ["Error: "; Error err] +:+ newline.

(** The run [r] has printed the line of the error, after what had been
    printed in the world [w'], has changed no file of [w'], and has
    returned. *)
Definition reported (r : option Z * World) (w' : World) (err : error) : Prop :=
  r.1 = None
  ∧ stdout r.2 = stdout w' +:+ errorLine err
  ∧ files r.2 = files w'.

(** ** Saving and reading back *)

Section Codec.
Context `{JsonCodec} `{MapOrder}.

(** The codec gives back a list that it has written. *)
Definition roundTrips (toDoList : list ToDoItem) : Prop :=
  exists data,
    json_MarshalIndent toDoList = Ok data
    ∧ json_Unmarshal_list data = Ok toDoList.

(** The file of the store holds the items of its map. *)
Definition synced (t : ToDo) (w : World) : Prop :=
  exists data,
    files w !! dbFileName t = Some data
    ∧ json_Unmarshal_list data = Ok (mapRange (toDoMap t)).

(** The line that [PrintItem] prints for an item. *)
Definition printedLine (item : ToDoItem) : string :=
  string_of_list_byte
    match json_MarshalIndent_item item with
    | Ok data => data
    | Err _ => []
    end
  +:+ newline.

End Codec.

(** ** A store on a disk with a backup *)

Module Scenario.

Definition path : string := "todo.json".
Definition backupPath : string := "todo.json.bak".

Definition learn : ToDoItem := mkItem 1 "Learn" false.
Definition relearn : ToDoItem := mkItem 1 "Learn again" true.
Definition stale : ToDoItem := mkItem 5 "Stale" true.
Definition original : ToDoItem := mkItem 12345 "First" false.
Definition rival : ToDoItem := mkItem 12345 "Second" true.

(** The text that the codec of the model writes for a list. *)
Definition textOf (toDoList : list ToDoItem) : list byte :=
  match GoJson.MarshalIndent toDoList with
  | Ok data => data
  | Err _ => []
  end.

Definition backup : list byte := textOf [learn].

(** A disk with the backup only, and no failing call. *)
Definition world0 : World := mkWorld {[ backupPath := backup ]} "" [] [] [].

(** The same disk when the first write fails after no byte. *)
Definition diskFull : World :=
  mkWorld {[ backupPath := backup ]} "" [] [] [Fails 0].

(** A disk on which the file of the store lists two items of id 1. *)
Definition duplicates : World :=
  mkWorld {[ path := textOf [learn; relearn] ]} "" [] [] [].

Definition fresh : ToDo := mkToDo ∅ path.

(** The store that holds [stale] in memory only. *)
Definition holdingStale : ToDo := mkToDo {[ 5 := stale ]} path.

(** [New], then [AddItem] of [stale], then [RestoreDB], then [loadDB]. *)
Definition afterNew : Result ToDo * World := New path world0.
Definition afterAdd : option error * ToDo * World :=
  AddItem fresh stale afterNew.2.
Definition afterRestore : option error * World :=
  RestoreDB afterAdd.1.2 afterAdd.2.
Definition afterLoad : option error * ToDo * World :=
  loadDB afterAdd.1.2 afterRestore.2.

(** [New], then [AddItem] of [original], then [AddItem] of [rival]. *)
Definition afterFirst : option error * ToDo * World :=
  AddItem fresh original afterNew.2.
Definition afterSecond : option error * ToDo * World :=
  AddItem afterFirst.1.2 rival afterFirst.2.

(** The text of an object that has the field [done] only. *)
Definition doneOnly : string :=
  string_of_list_byte
    (GoJson.bytes "{" ++ GoJson.quoted "done" ++ GoJson.bytes ": true}").

End Scenario.

(** ** Disks and command lines to run the store on *)

Module Cases.
Import Scenario.

(** A disk with a database of one item on which the next call that
    opens or looks at a file fails. *)
Definition statFails : World :=
  mkWorld {[ path := textOf [learn] ]} "" [Fails 0] [] [].

(** A disk with an empty database on which the next write fails after
    three bytes. *)
Definition shortWrite : World :=
  mkWorld {[ path := list_byte_of_string "[]" ]} "" [] [] [Fails 3].

(** A disk with the backup only, on which the next read fails. *)
Definition unreadable : World :=
  mkWorld {[ backupPath := backup ]} "" [] [Fails 0] [].

(** A disk with a database and no backup. *)
Definition noBackup : World :=
  mkWorld {[ path := textOf [learn] ]} "" [] [] [].

(** A disk with a database of two items. *)
Definition twoItems : World :=
  mkWorld {[ path := textOf [learn; stale] ]} "" [] [] [].

(** The text of [original], as [PrintItem] prints it. *)
Definition originalText : string :=
  string_of_list_byte (GoJson.encodeItemAt [] original).

(** [todo --db todo.json -a <text>]: [Visit] goes through [add], then
    [db]. *)
Definition addWithDb : Command := mkCommand ["add"; "db"] "usage".
Definition addLine : list string := ["todo"; "--db"; "todo.json"; "-a"; originalText].

(** [todo -a <text>], [todo -q 12345] and [todo -l] with the flag of
    the database at its default. *)
Definition addOnly : Command := mkCommand ["add"] "usage".
Definition queryOnly : Command := mkCommand ["query"] "usage".
Definition listOnly : Command := mkCommand ["list"] "usage".
Definition addFlags : Flags :=
  mkFlags path false false false 0 originalText "" 0.
Definition queryFlags : Flags :=
  mkFlags path false false false 12345 "" "" 0.
Definition listFlags : Flags :=
  mkFlags path false true false 0 "" "" 0.

(** A disk with a database of two items on which the file opens once
    and then does not open. *)
Definition opensOnce : World :=
  mkWorld {[ path := textOf [learn; stale] ]} "" [Done; Fails 0] [] [].

(** [todo -r] *)
Definition restoreOnly : Command := mkCommand ["restore"] "usage".
Definition restoreFlags : Flags :=
  mkFlags path true false false 0 "" "" 0.

(** [todo -d 9] *)
Definition deleteOnly : Command := mkCommand ["delete"] "usage".
Definition deleteFlags : Flags :=
  mkFlags path false false false 0 "" "" 9.

End Cases.

(** ** A title that is not valid UTF-8 *)

Module Mangled.
Import Scenario.

(** An item whose title is the one byte 0xFF, which is not valid UTF-8. *)
Definition bad : ToDoItem := mkItem 7 (String (ascii_of_nat 255) "") false.

(** The item that [encoding/json] gives back for it: the title is the
    three bytes of U+FFFD. *)
Definition replaced : ToDoItem :=
  mkItem 7 (String (ascii_of_nat 239)
              (String (ascii_of_nat 191) (String (ascii_of_nat 189) ""))) false.

Definition good : ToDoItem := mkItem 7 "ok" false.

(** [New], then [AddItem] of [bad], then [GetItem] of its id. *)
Definition afterBad : option error * ToDo * World :=
  AddItem fresh bad afterNew.2.
Definition readBad : ToDoItem * option error * ToDo * World :=
  GetItem afterBad.1.2 7 afterBad.2.

(** [New], then [AddItem] of [good], then [UpdateItem] with [bad], then
    [GetItem]. *)
Definition afterGood : option error * ToDo * World :=
  AddItem fresh good afterNew.2.
Definition afterUpdate : option error * ToDo * World :=
  UpdateItem afterGood.1.2 bad afterGood.2.
Definition readUpdated : ToDoItem * option error * ToDo * World :=
  GetItem afterUpdate.1.2 7 afterUpdate.2.

(** [AddItem] of [bad], then [RestoreDB] of a backup without the id, so
    that the item is in the map only; then [GetItem],
    [ChangeItemDoneStatus] and [GetItem] again. *)
Definition restored : option error * World :=
  RestoreDB afterBad.1.2 afterBad.2.
Definition readBefore : ToDoItem * option error * ToDo * World :=
  GetItem afterBad.1.2 7 restored.2.
Definition afterChange : option error * ToDo * World :=
  ChangeItemDoneStatus readBefore.1.2 7 true readBefore.2.
Definition readAfter : ToDoItem * option error * ToDo * World :=
  GetItem afterChange.1.2 7 afterChange.2.

End Mangled.

(** The codec of the model gives back the list, checked by running it. *)
Definition roundTripsb (toDoList : list ToDoItem) : bool :=
  match GoJson.MarshalIndent toDoList with
  | Ok data =>
      match GoJson.Unmarshal_list data with
      | Ok back => bool_decide (back = toDoList)
      | Err _ => false
      end
  | Err _ => false
  end.

(** ** Items that the codec gives back *)

(** Bytes below 128: the texts that are their own UTF-8. *)
Definition asciiBytes (s : list byte) : Prop :=
  Forall (λ c, (GoJson.code c <? 128)%N = true) s.

(** An item whose id is an [int] of 64 bits and whose title is ASCII. *)
Definition plainItem (item : ToDoItem) : Prop :=
  GoJson.int64_min <= Id item <= GoJson.int64_max
  ∧ asciiBytes (GoJson.bytes (Title item)).

(** The members that the reader finds in the text of an item. *)
Definition membersOf (item : ToDoItem) : list (string * GoJson.value) :=
  [("id"%string, GoJson.Number (GoJson.bytes (itoa (Id item))));
   ("title"%string, GoJson.Str (Title item));
   ("done"%string, GoJson.Bool (IsDone item))].

(** The digits of a decimal numeral, as bytes. *)
Definition digitsOf (d : Decimal.uint) : list byte :=
  GoJson.bytes (NilEmpty.string_of_uint d).

(** One step of [GoJson.digitsToZ]. *)
Definition digitStep (acc : Z) (b : byte) : Z :=
  acc * 10 + Z.of_N (GoJson.code b - 48).

(** What follows a number that has neither fraction nor exponent. *)
Definition endsNumber (rest : list byte) : bool :=
  match rest with
  | [] => true
  | c :: _ =>
      negb (GoJson.isDigit c || GoJson.isChar "." c
            || GoJson.isChar "e" c || GoJson.isChar "E" c)
  end.

(** * Properties *)

(** ** Strings *)

Lemma hasPrefix_app p s : hasPrefix (p +:+ s) p = true.
Proof.
  induction p as [|a p IH]; simpl; [done|].
  by rewrite Ascii.eqb_refl, IH.
Qed.

Lemma contains_prefix s sub : hasPrefix s sub = true -> contains s sub = true.
Proof. destruct s; simpl; intros ->; done. Qed.

Lemma contains_app pre sub post : contains (pre +:+ sub +:+ post) sub = true.
Proof.
  induction pre as [|a pre IH].
  - change (contains (sub +:+ post) sub = true).
    apply contains_prefix, hasPrefix_app.
  - simpl. rewrite IH. apply orb_true_r.
Qed.

Lemma string_length_app (s1 s2 : string) :
  String.length (s1 +:+ s2) = (String.length s1 + String.length s2)%nat.
Proof. induction s1 as [|a s1 IH]; simpl; [done | by rewrite IH]. Qed.

Lemma backup_name_fresh (path : string) : path ≠ path +:+ ".bak".
Proof.
  intros E. apply (f_equal String.length) in E.
  rewrite string_length_app in E. simpl in E. lia.
Qed.

(** ** Worlds in which the system calls complete *)

Lemma next_calm script :
  calm script -> exists rest, next script = (Done, rest) ∧ calm rest.
Proof.
  intros Hc. destruct Hc as [|o rest <- Hrest]; simpl.
  - exists []. split; [done | constructor].
  - exists rest. done.
Qed.

Lemma next_calm_rest script : calm script -> calm (next script).2.
Proof. intros Hc. destruct (next_calm _ Hc) as (rest & -> & ?). done. Qed.

(** The tail of any script is as calm as the script. *)
Lemma calm_next script o rest : calm script -> next script = (o, rest) -> calm rest.
Proof. intros Hc E. pose proof (next_calm_rest _ Hc) as Hr. by rewrite E in Hr. Qed.

(** ** The loop of [loadDB] *)

Lemma foldl_putItem_lookup (toDoList : list ToDoItem) (m : DbMap) (id : Z) :
  foldl putItem m toDoList !! id =
    match last (filter (λ item, Id item = id) toDoList) with
    | Some item => Some item
    | None => m !! id
    end.
Proof.
  induction toDoList as [|item l IH] using rev_ind; [done|].
  rewrite foldl_snoc, filter_app. unfold putItem at 1.
  destruct (decide (Id item = id)) as [E|NE].
  - rewrite filter_cons_True by done. rewrite filter_nil, last_snoc.
    subst id. apply lookup_insert_eq.
  - rewrite filter_cons_False by done. rewrite filter_nil, app_nil_r.
    rewrite lookup_insert_ne by done. apply IH.
Qed.

(** Loading the same list a second time changes nothing. *)
Lemma foldl_putItem_twice (toDoList : list ToDoItem) (m : DbMap) :
  foldl putItem (foldl putItem m toDoList) toDoList = foldl putItem m toDoList.
Proof.
  apply map_eq. intros id. rewrite !foldl_putItem_lookup.
  by destruct (last _).
Qed.

Lemma keyed_empty : keyed ∅.
Proof. intros id item. by rewrite lookup_empty. Qed.

Lemma keyed_putItem m item : keyed m -> keyed (putItem m item).
Proof.
  intros Hk id item'. unfold putItem. rewrite lookup_insert.
  case_decide; [by intros [= <-] | apply Hk].
Qed.

Lemma keyed_foldl m toDoList : keyed m -> keyed (foldl putItem m toDoList).
Proof.
  revert m. induction toDoList as [|item l IH]; simpl; [done|].
  intros m Hk. apply IH, keyed_putItem, Hk.
Qed.

Lemma keyed_delete m id : keyed m -> keyed (delete id m).
Proof.
  intros Hk id' item. rewrite lookup_delete. case_decide; [done | apply Hk].
Qed.

Lemma foldl_putItem_fresh (l : list ToDoItem) (m : DbMap) (id : Z) :
  (forall item, item ∈ l -> Id item ≠ id) ->
  foldl putItem m l !! id = m !! id.
Proof.
  intros Hfresh. rewrite foldl_putItem_lookup.
  destruct (last _) as [item|] eqn:E; [|done].
  apply last_Some_elem_of, list_elem_of_filter in E as [E Hin].
  by destruct (Hfresh item Hin).
Qed.

Lemma foldl_putItem_member (l : list ToDoItem) (m : DbMap) (item : ToDoItem) :
  NoDup (Id <$> l) -> item ∈ l ->
  foldl putItem m l !! Id item = Some item.
Proof.
  revert m. induction l as [|x l IH]; intros m Hnd Hin; [by inversion Hin|].
  rewrite fmap_cons in Hnd. apply NoDup_cons in Hnd as [Hx Hnd]. simpl.
  apply elem_of_cons in Hin as [->|Hin]; [|by apply IH].
  rewrite foldl_putItem_fresh.
  - apply lookup_insert_eq.
  - intros y Hy E. apply Hx. rewrite <- E. apply list_elem_of_fmap. eauto.
Qed.

Section Order.
Context `{MapOrder}.

Lemma elem_of_mapRange (m : DbMap) (item : ToDoItem) :
  item ∈ mapRange m <-> exists id, m !! id = Some item.
Proof.
  rewrite (mapRange_perm m), list_elem_of_fmap. split.
  - intros ([id x] & -> & Hin). exists id. by apply elem_of_map_to_list.
  - intros (id & Hid). exists (id, item). split; [done|].
    by apply elem_of_map_to_list.
Qed.

Lemma NoDup_mapRange (m : DbMap) : keyed m -> NoDup (Id <$> mapRange m).
Proof.
  intros Hk. rewrite (mapRange_perm m).
  replace (Id <$> (map_to_list m).*2) with ((map_to_list m).*1).
  - apply NoDup_fst_map_to_list.
  - rewrite <- list_fmap_compose. apply list_fmap_ext.
    intros i [id item] Hin%list_elem_of_lookup_2%elem_of_map_to_list. simpl.
    symmetry. by apply Hk.
Qed.

(** Reading back what was written from a map gives the map, laid over
    whatever the store held. *)
Lemma foldl_putItem_mapRange (m m0 : DbMap) :
  keyed m -> foldl putItem m0 (mapRange m) = m ∪ m0.
Proof.
  intros Hk. apply map_eq. intros id. rewrite lookup_union.
  destruct (m !! id) as [item|] eqn:E.
  - rewrite <- (Hk _ _ E), foldl_putItem_member.
    + by destruct (m0 !! Id item).
    + by apply NoDup_mapRange.
    + apply elem_of_mapRange. eauto.
  - rewrite foldl_putItem_fresh; [by destruct (m0 !! id)|].
    intros item (id' & Hin)%elem_of_mapRange <-.
    pose proof (Hk _ _ Hin) as <-. congruence.
Qed.

Lemma foldl_putItem_mapRange_same (m : DbMap) :
  keyed m -> foldl putItem m (mapRange m) = m.
Proof. intros Hk. rewrite foldl_putItem_mapRange by done. apply map_union_idemp. Qed.

End Order.

(** ** What a computation leaves alone *)

Lemma silent_ret {A} (a : A) : silent (ret a).
Proof. done. Qed.

Lemma silent_bind {A B} (c : IO A) (k : A -> IO B) :
  silent c -> (forall a, silent (k a)) -> silent (bind c k).
Proof.
  intros Hc Hk w. unfold bind. specialize (Hc w).
  destruct (c w) as [a w1]. simpl in Hc. by rewrite Hk.
Qed.

Lemma readonly_ret {A} (a : A) : readonly (ret a).
Proof. done. Qed.

Lemma readonly_bind {A B} (c : IO A) (k : A -> IO B) :
  readonly c -> (forall a, readonly (k a)) -> readonly (bind c k).
Proof.
  intros Hc Hk w. unfold bind. specialize (Hc w).
  destruct (c w) as [a w1]. simpl in Hc. by rewrite Hk.
Qed.

Lemma writeless_ret {A} (a : A) : writeless (ret a).
Proof. done. Qed.

Lemma writeless_bind {A B} (c : IO A) (k : A -> IO B) :
  writeless c -> (forall a, writeless (k a)) -> writeless (bind c k).
Proof.
  intros Hc Hk w. unfold bind. specialize (Hc w).
  destruct (c w) as [a w1]. simpl in Hc. by rewrite Hk.
Qed.

Lemma nextOpen_silent : silent nextOpen.
Proof. intros w. unfold nextOpen. by destruct (next _). Qed.
Lemma nextRead_silent : silent nextRead.
Proof. intros w. unfold nextRead. by destruct (next _). Qed.
Lemma nextWrite_silent : silent nextWrite.
Proof. intros w. unfold nextWrite. by destruct (next _). Qed.
Lemma getFile_silent path : silent (getFile path).
Proof. done. Qed.
Lemma putFile_silent path data : silent (putFile path data).
Proof. done. Qed.

Lemma nextOpen_readonly : readonly nextOpen.
Proof. intros w. unfold nextOpen. by destruct (next _). Qed.
Lemma nextRead_readonly : readonly nextRead.
Proof. intros w. unfold nextRead. by destruct (next _). Qed.
Lemma getFile_readonly path : readonly (getFile path).
Proof. done. Qed.

Lemma nextOpen_writeless : writeless nextOpen.
Proof. intros w. unfold nextOpen. by destruct (next _). Qed.
Lemma nextRead_writeless : writeless nextRead.
Proof. intros w. unfold nextRead. by destruct (next _). Qed.
Lemma getFile_writeless path : writeless (getFile path).
Proof. done. Qed.
Lemma putFile_writeless path data : writeless (putFile path data).
Proof. done. Qed.

Create HintDb frame discriminated.
#[export] Hint Resolve silent_ret nextOpen_silent nextRead_silent
  nextWrite_silent getFile_silent putFile_silent
  readonly_ret nextOpen_readonly nextRead_readonly getFile_readonly
  writeless_ret nextOpen_writeless nextRead_writeless getFile_writeless
  putFile_writeless : frame.

(** Splits a computation along its binds and case distinctions. *)
Ltac frame :=
  repeat first
    [ progress eauto with frame
    | apply silent_bind | apply readonly_bind | apply writeless_bind
    | intros ?
    | match goal with
      | |- context [match ?x with _ => _ end] => destruct x
      end ].

Lemma os_Stat_silent path : silent (os_Stat path).
Proof. unfold os_Stat. frame. Qed.
Lemma os_OpenFile_trunc_silent path : silent (os_OpenFile_trunc path).
Proof. unfold os_OpenFile_trunc. frame. Qed.
Lemma os_Open_silent path : silent (os_Open path).
Proof. unfold os_Open. frame. Qed.
Lemma File_Read_silent f n : silent (File_Read f n).
Proof. unfold File_Read. frame. Qed.
Lemma File_Write_silent f b : silent (File_Write f b).
Proof. unfold File_Write. frame. Qed.
#[export] Hint Resolve os_Stat_silent os_OpenFile_trunc_silent os_Open_silent
  File_Read_silent File_Write_silent : frame.

Lemma os_ReadFile_silent path : silent (os_ReadFile path).
Proof. unfold os_ReadFile. frame. Qed.
Lemma os_WriteFile_silent path data : silent (os_WriteFile path data).
Proof. unfold os_WriteFile. frame. Qed.
Lemma os_Create_silent path : silent (os_Create path).
Proof. unfold os_Create. frame. Qed.

Lemma os_Open_readonly path : readonly (os_Open path).
Proof. unfold os_Open. frame. Qed.
Lemma os_Open_writeless path : writeless (os_Open path).
Proof. unfold os_Open. frame. Qed.
Lemma os_OpenFile_trunc_writeless path : writeless (os_OpenFile_trunc path).
Proof. unfold os_OpenFile_trunc. frame. Qed.
Lemma File_Read_readonly f n : readonly (File_Read f n).
Proof. unfold File_Read. frame. Qed.
Lemma File_Read_writeless f n : writeless (File_Read f n).
Proof. unfold File_Read. frame. Qed.
#[export] Hint Resolve os_ReadFile_silent os_WriteFile_silent os_Create_silent
  os_Open_readonly os_Open_writeless os_OpenFile_trunc_writeless
  File_Read_readonly File_Read_writeless : frame.

Lemma os_ReadFile_readonly path : readonly (os_ReadFile path).
Proof. unfold os_ReadFile. frame. Qed.
Lemma os_ReadFile_writeless path : writeless (os_ReadFile path).
Proof. unfold os_ReadFile. frame. Qed.
#[export] Hint Resolve os_ReadFile_readonly os_ReadFile_writeless : frame.

Lemma steady_ret {A} (a : A) : steady (ret a).
Proof. intros w Hq. exact Hq. Qed.

Lemma steady_bind {A B} (c : IO A) (k : A -> IO B) :
  steady c -> (forall a, steady (k a)) -> steady (bind c k).
Proof.
  intros Hc Hk w Hq. unfold bind. specialize (Hc w Hq).
  destruct (c w) as [a w1]. simpl in Hc. by apply Hk.
Qed.

Lemma nextOpen_steady : steady nextOpen.
Proof.
  intros w (Ho & Hr & Hw). unfold nextOpen.
  destruct (next (openFaults w)) as [o rest] eqn:E.
  repeat split; simpl; eauto using calm_next.
Qed.
Lemma nextRead_steady : steady nextRead.
Proof.
  intros w (Ho & Hr & Hw). unfold nextRead.
  destruct (next (readFaults w)) as [o rest] eqn:E.
  repeat split; simpl; eauto using calm_next.
Qed.
Lemma nextWrite_steady : steady nextWrite.
Proof.
  intros w (Ho & Hr & Hw). unfold nextWrite.
  destruct (next (writeFaults w)) as [o rest] eqn:E.
  repeat split; simpl; eauto using calm_next.
Qed.
Lemma getFile_steady path : steady (getFile path).
Proof. intros w Hq. exact Hq. Qed.
Lemma putFile_steady path data : steady (putFile path data).
Proof. intros w Hq. exact Hq. Qed.
Lemma putStdout_steady s : steady (putStdout s).
Proof. intros w Hq. exact Hq. Qed.

#[export] Hint Resolve steady_ret nextOpen_steady nextRead_steady
  nextWrite_steady getFile_steady putFile_steady putStdout_steady : frame.

Ltac steady :=
  repeat first
    [ progress eauto with frame
    | apply steady_bind
    | intros ?
    | match goal with
      | |- context [match ?x with _ => _ end] => destruct x
      end ].

Lemma os_ReadFile_steady path : steady (os_ReadFile path).
Proof. unfold os_ReadFile, os_Open. steady. Qed.
Lemma os_WriteFile_steady path data : steady (os_WriteFile path data).
Proof. unfold os_WriteFile, os_OpenFile_trunc, File_Write. steady. Qed.
#[export] Hint Resolve os_ReadFile_steady os_WriteFile_steady : frame.

(** In a quiet world the calls of a kind complete. *)
Lemma nextOpen_quiet w :
  quiet w -> exists w', nextOpen w = (Done, w') ∧ files w' = files w
    ∧ stdout w' = stdout w ∧ quiet w'.
Proof.
  intros Hq. pose proof (nextOpen_steady w Hq) as Hq'. revert Hq'.
  destruct Hq as (Ho & _). unfold nextOpen.
  destruct (next_calm _ Ho) as (rest & -> & _). eauto.
Qed.
Lemma nextRead_quiet w :
  quiet w -> exists w', nextRead w = (Done, w') ∧ files w' = files w
    ∧ stdout w' = stdout w ∧ quiet w'.
Proof.
  intros Hq. pose proof (nextRead_steady w Hq) as Hq'. revert Hq'.
  destruct Hq as (_ & Hr & _). unfold nextRead.
  destruct (next_calm _ Hr) as (rest & -> & _). eauto.
Qed.
Lemma nextWrite_quiet w :
  quiet w -> exists w', nextWrite w = (Done, w') ∧ files w' = files w
    ∧ stdout w' = stdout w ∧ quiet w'.
Proof.
  intros Hq. pose proof (nextWrite_steady w Hq) as Hq'. revert Hq'.
  destruct Hq as (_ & _ & Hw). unfold nextWrite.
  destruct (next_calm _ Hw) as (rest & -> & _). eauto.
Qed.

Lemma os_ReadFile_quiet path w data :
  quiet w -> files w !! path = Some data ->
  exists w', os_ReadFile path w = (Ok data, w') ∧ files w' = files w
    ∧ stdout w' = stdout w ∧ quiet w'.
Proof.
  intros Hq Hfile. unfold os_ReadFile, os_Open, bind.
  destruct (nextOpen_quiet w Hq) as (w1 & -> & Hf1 & Hs1 & Hq1).
  unfold getFile, ret. rewrite Hf1, Hfile.
  destruct (nextRead_quiet w1 Hq1) as (w2 & -> & Hf2 & Hs2 & Hq2).
  exists w2. simpl. repeat split; try apply Hq2; congruence.
Qed.

Lemma os_ReadFile_calm path w data :
  calm (openFaults w) -> calm (readFaults w) ->
  files w !! path = Some data ->
  exists w', os_ReadFile path w = (Ok data, w').
Proof.
  intros Hopen Hread Hfile.
  unfold os_ReadFile, os_Open, bind, nextOpen, nextRead, getFile, ret.
  destruct (next_calm _ Hopen) as (rest1 & -> & _). simpl. rewrite Hfile.
  simpl. destruct (next_calm _ Hread) as (rest2 & -> & _). by eexists.
Qed.

Lemma os_WriteFile_quiet path data w :
  quiet w ->
  exists w', os_WriteFile path data w = (None, w')
    ∧ files w' = <[path := data]> (files w)
    ∧ stdout w' = stdout w ∧ quiet w'.
Proof.
  intros Hq. unfold os_WriteFile, os_OpenFile_trunc, File_Write, bind.
  destruct (nextOpen_quiet w Hq) as (w1 & -> & Hf1 & Hs1 & Hq1).
  unfold putFile at 1, ret at 1.
  match goal with |- context [nextWrite ?w] =>
    destruct (nextWrite_quiet w) as (w2 & -> & Hf2 & Hs2 & Hq2); [apply Hq1|] end.
  unfold getFile, putFile, ret. simpl in *.
  eexists. split; [reflexivity|]. simpl.
  rewrite Hf2, lookup_insert_eq, Hf1. simpl.
  rewrite insert_insert_eq, Hs2, Hs1. repeat split; apply Hq2.
Qed.

(** ** The loop of [RestoreDB] *)

Lemma File_Read_advances f n w bytes f' err w' :
  File_Read f n w = (bytes, f', err, w') ->
  bytes <> [] -> (0 < n)%nat ->
  (length (unread f') < length (unread f))%nat.
Proof.
  unfold File_Read, bind, nextRead, ret.
  destruct (next (readFaults w)) as [[|k] rest]; simpl.
  - destruct (unread f) as [|b l] eqn:E; intros [= <- <- <- <-] Hne Hn; [done|].
    simpl. rewrite length_drop. simpl. lia.
  - intros [= <- <- <- <-]. done.
Qed.

Lemma copyLoop_body dbFile dbFileName backupFileName backupFile w :
  copyLoop dbFile dbFileName backupFileName backupFile w =
    let '(buffer, backupFile', err, w1) := File_Read backupFile 1024 w in
    if readFailed err
    then (Some (errors_New ("failed to read from " +:+ backupFileName)), w1)
    else
      match buffer with
      | [] =>
          let (_, w2) :=
            fmt_Println ["finished copying from "; backupFileName;
                         " to "; dbFileName] w1 in
          (None, w2)
      | _ :: _ =>
          let '(_, werr, w2) := File_Write dbFile buffer w1 in
          let (_, w3) :=
            match werr with
            | Some _ => fmt_Print ["failed to write to "; dbFileName] w2
            | None => (tt, w2)
            end in
          copyLoop dbFile dbFileName backupFileName backupFile' w3
      end.
Proof.
  funelim (copyLoop dbFile dbFileName backupFileName backupFile w).
  all: rewrite Hread; simpl;
    match goal with E : readFailed _ = _ |- _ => rewrite E end; reflexivity.
Qed.

Lemma File_Read_ok f n w buffer f' err w1 :
  File_Read f n w = (buffer, f', err, w1) -> readFailed err = false ->
  (0 < n)%nat ->
  buffer = take n (unread f) ∧ unread f' = drop n (unread f)
  ∧ (buffer = [] -> unread f = []).
Proof.
  unfold File_Read, bind, nextRead, ret.
  destruct (next (readFaults w)) as [[|k] rest].
  - destruct (unread f) as [|b l] eqn:E; intros [= <- <- <- <-] _ Hn.
    + rewrite E. by rewrite take_nil, drop_nil.
    + simpl. repeat split. destruct n; [lia | done].
  - by intros [= <- <- <- <-].
Qed.

Lemma File_Write_calm f b w :
  calm (writeFaults w) ->
  exists w', File_Write f b w = (length b, None, w')
    ∧ files w' = <[fname f := default [] (files w !! fname f) ++ b]> (files w)
    ∧ stdout w' = stdout w ∧ calm (writeFaults w').
Proof.
  intros Hc. unfold File_Write, bind, nextWrite.
  destruct (next_calm _ Hc) as (rest & -> & Hrest). by eexists.
Qed.

(** The loop when no write fails: it prints the closing line exactly
    when it ends with the [break], and then the file written to holds
    what it held with the unread bytes of the backup after it. *)
Lemma copyLoop_calm dbFile dbFileName backupFileName backupFile w r w' pre :
  calm (writeFaults w) ->
  files w !! fname dbFile = Some pre ->
  copyLoop dbFile dbFileName backupFileName backupFile w = (r, w') ->
  match r with
  | None =>
      files w' = <[fname dbFile := pre ++ unread backupFile]> (files w)
      ∧ stdout w' = stdout w +:+ finishedLine dbFileName backupFileName
  | Some _ => stdout w' = stdout w
  end.
Proof.
  remember (length (unread backupFile)) as n eqn:Hn.
  revert backupFile w pre Hn.
  induction n as [n IH] using lt_wf_ind. intros f w pre -> Hcalm Hpre.
  rewrite copyLoop_body.
  destruct (File_Read f 1024 w) as [[[buffer f'] err] w1] eqn:Hread.
  pose proof (File_Read_readonly f 1024 w) as Hfiles.
  pose proof (File_Read_writeless f 1024 w) as Hfaults.
  pose proof (File_Read_silent f 1024 w) as Hout.
  rewrite Hread in Hfiles, Hfaults, Hout. simpl in Hfiles, Hfaults, Hout.
  destruct (readFailed err) eqn:Herr; [by intros [= <- <-]|].
  destruct (File_Read_ok _ _ _ _ _ _ _ Hread Herr) as (Hbuf & Hrest & Hend); [lia|].
  destruct buffer as [|b bs].
  - intros [= <- <-]. simpl. rewrite Hend, app_nil_r, Hfiles, Hout by done.
    split; [|done]. symmetry. apply insert_id. done.
  - destruct (File_Write_calm dbFile (b :: bs) w1) as (w2 & -> & Hf2 & Hs2 & Hc2);
      [by rewrite Hfaults|].
    intros Hloop.
    assert (files w2 !! fname dbFile = Some (pre ++ b :: bs)) as Hpre2.
    { rewrite Hf2, lookup_insert_eq, Hfiles, Hpre. done. }
    assert (length (unread f') < length (unread f))%nat as Hlt.
    { eapply File_Read_advances; [exact Hread | done | lia]. }
    pose proof (IH _ Hlt f' w2 _ eq_refl Hc2 Hpre2 Hloop) as Hrec.
    destruct r as [e|].
    + congruence.
    + destruct Hrec as [-> ->]. rewrite Hf2, Hfiles, Hpre. simpl.
      rewrite insert_insert_eq, Hs2, Hout. split; [|done].
      rewrite <- app_assoc, Hbuf, Hrest, take_drop. done.
Qed.

(** ** The store *)

Section PackageProperties.
Context `{JsonCodec} `{MapOrder}.

Lemma loadDB_silent t : silent (loadDB t).
Proof. unfold loadDB. frame. Qed.
Lemma loadDB_readonly t : readonly (loadDB t).
Proof. unfold loadDB. frame. Qed.
Lemma loadDB_steady t : steady (loadDB t).
Proof. unfold loadDB. steady. Qed.

Lemma loadDB_inv t w t1 w1 :
  loadDB t w = (None, t1, w1) ->
  exists data toDoList,
    os_ReadFile (dbFileName t) w = (Ok data, w1)
    ∧ json_Unmarshal_list data = Ok toDoList
    ∧ t1 = mkToDo (foldl putItem (toDoMap t) toDoList) (dbFileName t).
Proof.
  unfold loadDB, bind.
  destruct (os_ReadFile (dbFileName t) w) as [[data|e] w0]; [|done].
  destruct (json_Unmarshal_list data) as [toDoList|e] eqn:E; [|done].
  intros [= <- <-]. eauto.
Qed.

Lemma loadDB_name t w : dbFileName (loadDB t w).1.2 = dbFileName t.
Proof.
  unfold loadDB, bind.
  destruct (os_ReadFile (dbFileName t) w) as [[data|e] w0]; [|done].
  by destruct (json_Unmarshal_list data).
Qed.

Lemma loadDB_keyed t w : keyed (toDoMap t) -> keyed (toDoMap (loadDB t w).1.2).
Proof.
  intros Hk. unfold loadDB, bind.
  destruct (os_ReadFile (dbFileName t) w) as [[data|e] w0]; [|done].
  destruct (json_Unmarshal_list data); [|done]. by apply keyed_foldl.
Qed.

Lemma loadDB_quiet t w data toDoList :
  quiet w -> files w !! dbFileName t = Some data ->
  json_Unmarshal_list data = Ok toDoList ->
  exists w', loadDB t w =
      (None, mkToDo (foldl putItem (toDoMap t) toDoList) (dbFileName t), w')
    ∧ files w' = files w ∧ stdout w' = stdout w ∧ quiet w'.
Proof.
  intros Hq Hfile Hjson. unfold loadDB, bind.
  destruct (os_ReadFile_quiet _ _ _ Hq Hfile) as (w' & -> & ?).
  rewrite Hjson. by exists w'.
Qed.

(** C3.  When the file is read and its content parses as a list of
    items, [loadDB] succeeds and puts every parsed item into the map of
    the store under its id: the map then holds, for an id, the last item
    of the file with that id, and, for an id that the file does not
    have, what the map held before.  So a later duplicate overwrites an
    earlier one, and entries that are absent from the file stay. *)
Theorem loadDB_merges t w w1 data toDoList :
  os_ReadFile (dbFileName t) w = (Ok data, w1) ->
  json_Unmarshal_list data = Ok toDoList ->
  exists t1,
    loadDB t w = (None, t1, w1)
    ∧ (forall id,
         toDoMap t1 !! id =
           match last (filter (λ item, Id item = id) toDoList) with
           | Some item => Some item
           | None => toDoMap t !! id
           end)
    ∧ (forall before item after,
         toDoList = before ++ item :: after ->
         (forall later, later ∈ after -> Id later ≠ Id item) ->
         toDoMap t1 !! Id item = Some item)
    ∧ (forall id,
         (forall item, item ∈ toDoList -> Id item ≠ id) ->
         toDoMap t1 !! id = toDoMap t !! id).
Proof.
  intros Hread Hjson. eexists. unfold loadDB, bind.
  rewrite Hread, Hjson. split; [reflexivity|]. simpl. split; [|split].
  - intros id. apply foldl_putItem_lookup.
  - intros before item after -> Hlast.
    rewrite foldl_app. simpl. rewrite foldl_putItem_fresh by done.
    apply lookup_insert_eq.
  - intros id Hfresh. by apply foldl_putItem_fresh.
Qed.

(** C6.  When the loaded collection has no item with the id,
    [DeleteItem] fails with an error whose message includes the id; the
    store is left as the load left it, and no file is changed (nothing
    is saved). *)
Theorem DeleteItem_absent t w t1 w1 id :
  loadDB t w = (None, t1, w1) ->
  toDoMap t1 !! id = None ->
  exists err,
    DeleteItem t id w = (Some err, t1, w1)
    ∧ Error err = "Couldn't delete item because the id " +:+ itoa id
                  +:+ " doesn't exist"
    ∧ contains (Error err) (itoa id) = true
    ∧ files w1 = files w
    ∧ stdout w1 = stdout w.
Proof.
  intros Hload Habsent. eexists. unfold DeleteItem, bind.
  rewrite Hload, Habsent. split; [reflexivity|]. split; [reflexivity|].
  split; [apply contains_app|].
  pose proof (loadDB_readonly t w) as Hf. pose proof (loadDB_silent t w) as Hs.
  rewrite Hload in Hf, Hs. done.
Qed.

(** *** Saving and reading back *)

Lemma os_ReadFile_inv path w data w1 :
  os_ReadFile path w = (Ok data, w1) ->
  files w !! path = Some data ∧ files w1 = files w.
Proof.
  intros Hread. pose proof (os_ReadFile_readonly path w) as Hf.
  rewrite Hread in Hf. split; [|done]. revert Hread.
  unfold os_ReadFile, os_Open, bind, ret, getFile.
  destruct (nextOpen w) as [[|k] w0] eqn:Hopen; [|done].
  pose proof (nextOpen_readonly w) as Hf0. rewrite Hopen in Hf0. simpl in Hf0.
  rewrite Hf0. destruct (files w !! path) as [c|]; [|done].
  destruct (nextRead w0) as [[|k] w2]; [|done]. by intros [= ->].
Qed.

Lemma saveDB_silent t : silent (saveDB t).
Proof. unfold saveDB. frame. Qed.
Lemma saveDB_steady t : steady (saveDB t).
Proof. unfold saveDB. steady. Qed.

Lemma saveDB_inv t w w1 :
  saveDB t w = (None, w1) ->
  exists data,
    json_MarshalIndent (mapRange (toDoMap t)) = Ok data
    ∧ os_WriteFile (dbFileName t) data w = (None, w1).
Proof.
  unfold saveDB, bind.
  destruct (json_MarshalIndent _) as [data|e]; [|done].
  destruct (os_WriteFile _ data w) as [[e|] w0] eqn:Hwrite; [done|].
  intros [= <-]. eauto.
Qed.

Lemma saveDB_quiet t w data :
  quiet w ->
  json_MarshalIndent (mapRange (toDoMap t)) = Ok data ->
  exists w', saveDB t w = (None, w')
    ∧ files w' = <[dbFileName t := data]> (files w)
    ∧ stdout w' = stdout w ∧ quiet w'.
Proof.
  intros Hq Hjson. unfold saveDB, bind. rewrite Hjson.
  destruct (os_WriteFile_quiet (dbFileName t) data w Hq) as (w' & -> & ?).
  by exists w'.
Qed.

Lemma saveDB_synced t w :
  quiet w -> roundTrips (mapRange (toDoMap t)) ->
  exists w', saveDB t w = (None, w') ∧ synced t w'
    ∧ stdout w' = stdout w ∧ quiet w'.
Proof.
  intros Hq (data & Hout & Hin).
  destruct (saveDB_quiet t w data Hq Hout) as (w' & Hsave & Hf & Hs & Hq').
  exists w'. split; [done|]. split; [|done].
  exists data. by rewrite Hf, lookup_insert_eq.
Qed.

Lemma loadDB_synced t w :
  quiet w -> keyed (toDoMap t) -> synced t w ->
  exists w', loadDB t w = (None, t, w')
    ∧ files w' = files w ∧ stdout w' = stdout w ∧ quiet w'.
Proof.
  intros Hq Hk (data & Hfile & Hjson).
  destruct (loadDB_quiet t w data _ Hq Hfile Hjson) as (w' & Hload & ?).
  exists w'. split; [|done]. rewrite Hload.
  rewrite foldl_putItem_mapRange_same by done. by destruct t.
Qed.

Lemma loadDB_again t w t1 w1 :
  quiet w -> loadDB t w = (None, t1, w1) ->
  exists w2, loadDB t1 w1 = (None, t1, w2)
    ∧ files w2 = files w1 ∧ stdout w2 = stdout w1 ∧ quiet w2.
Proof.
  intros Hq Hload. pose proof (loadDB_steady t w Hq) as Hq1.
  rewrite Hload in Hq1. simpl in Hq1.
  destruct (loadDB_inv _ _ _ _ Hload) as (data & l & Hread & Hjson & ->).
  apply os_ReadFile_inv in Hread as [Hfile Hf1]. rewrite <- Hf1 in Hfile.
  destruct (loadDB_quiet (mkToDo (foldl putItem (toDoMap t) l) (dbFileName t))
              w1 data l Hq1 Hfile Hjson) as (w2 & Hload2 & ?).
  exists w2. split; [|done]. rewrite Hload2. simpl.
  by rewrite foldl_putItem_twice.
Qed.

(** *** Reading, adding and updating in a quiet world *)

Lemma GetItem_synced t w id item :
  quiet w -> keyed (toDoMap t) -> synced t w ->
  toDoMap t !! id = Some item ->
  exists w', GetItem t id w = (item, None, t, w') ∧ files w' = files w
    ∧ stdout w' = stdout w ∧ quiet w'.
Proof.
  intros Hq Hk Hsync Hid.
  destruct (loadDB_synced t w Hq Hk Hsync) as (w' & Hload & ?).
  exists w'. unfold GetItem, bind. by rewrite Hload, Hid.
Qed.

Lemma GetItem_inv t w id item t1 w1 :
  GetItem t id w = (item, None, t1, w1) ->
  loadDB t w = (None, t1, w1) ∧ toDoMap t1 !! id = Some item.
Proof.
  unfold GetItem, bind.
  destruct (loadDB t w) as [[[e|] t0] w0]; [done|].
  destruct (toDoMap t0 !! id) as [found|] eqn:E; [|done].
  by intros [= <- <- <-].
Qed.

Lemma AddItem_inv t w item t1 w1 :
  AddItem t item w = (None, t1, w1) ->
  exists t0 w0,
    loadDB t w = (None, t0, w0)
    ∧ toDoMap t0 !! Id item = None
    ∧ t1 = mkToDo (<[Id item := item]> (toDoMap t0)) (dbFileName t0)
    ∧ saveDB t1 w0 = (None, w1).
Proof.
  unfold AddItem, bind.
  destruct (loadDB t w) as [[[e|] t0] w0]; [done|].
  destruct (toDoMap t0 !! Id item) eqn:E; [done|].
  destruct (saveDB _ w0) as [[e|] w2] eqn:Hsave; [done|].
  intros [= <- <-]. eauto 10.
Qed.

(** Storing [item] under its id, after a load that succeeded. *)
Lemma store_quiet t w t1 w1 item :
  quiet w -> keyed (toDoMap t) ->
  loadDB t w = (None, t1, w1) ->
  roundTrips (mapRange (<[Id item := item]> (toDoMap t1))) ->
  let t2 := mkToDo (<[Id item := item]> (toDoMap t1)) (dbFileName t1) in
  exists w2, saveDB t2 w1 = (None, w2) ∧ synced t2 w2 ∧ quiet w2
    ∧ keyed (toDoMap t2) ∧ stdout w2 = stdout w.
Proof.
  intros Hq Hk Hload Hrt t2.
  pose proof (loadDB_steady t w Hq) as Hq1.
  pose proof (loadDB_keyed t w Hk) as Hk1.
  pose proof (loadDB_silent t w) as Hs1.
  rewrite Hload in Hq1, Hk1, Hs1. simpl in Hq1, Hk1, Hs1.
  destruct (saveDB_synced t2 w1 Hq1 Hrt) as (w2 & Hsave & Hsync & Hs2 & Hq2).
  exists w2. do 3 (split; [done|]). split.
  - by apply (keyed_putItem _ item).
  - congruence.
Qed.

Lemma synced_files t w w' : files w' = files w -> synced t w -> synced t w'.
Proof. intros Hf (data & Hfile & Hjson). exists data. by rewrite Hf. Qed.

(** X14.  The stores that the package builds are keyed by the ids of their
    items: [New] makes such a store and every method keeps it so. *)
Lemma keyed_invariant t w :
  (forall dbFile t0, (New dbFile w).1 = Ok t0 -> keyed (toDoMap t0))
  ∧ (keyed (toDoMap t) ->
     (forall item, keyed (toDoMap (AddItem t item w).1.2))
     ∧ (forall item, keyed (toDoMap (UpdateItem t item w).1.2))
     ∧ (forall id, keyed (toDoMap (DeleteItem t id w).1.2))
     ∧ (forall id, keyed (toDoMap (GetItem t id w).1.2))
     ∧ keyed (toDoMap (GetAllItems t w).1.2)
     ∧ (forall id value,
          keyed (toDoMap (ChangeItemDoneStatus t id value w).1.2))).
Proof.
  assert (forall t w, keyed (toDoMap t) ->
            forall item, keyed (toDoMap (UpdateItem t item w).1.2)) as Hupd.
  { intros t' w' Hk item. pose proof (loadDB_keyed t' w' Hk) as Hk1.
    unfold UpdateItem, bind. destruct (loadDB t' w') as [[[e|] t1] w1]; [done|].
    destruct (toDoMap t1 !! Id item); [|done].
    destruct (saveDB _ w1) as [[e|] w2]; by apply (keyed_putItem _ item). }
  assert (forall t w, keyed (toDoMap t) ->
            forall id, keyed (toDoMap (GetItem t id w).1.2)) as Hget.
  { intros t' w' Hk id. pose proof (loadDB_keyed t' w' Hk) as Hk1.
    unfold GetItem, bind. destruct (loadDB t' w') as [[[e|] t1] w1]; [done|].
    by destruct (toDoMap t1 !! id). }
  split.
  - intros dbFile t0. unfold New, bind.
    destruct (os_Stat dbFile w) as [[e|] w1].
    + destruct (initDB dbFile w1) as [[e'|] w2]; [done|].
      intros [= <-]. apply keyed_empty.
    + intros [= <-]. apply keyed_empty.
  - intros Hk. pose proof (loadDB_keyed t w Hk) as Hk1.
    split; [|split; [|split; [|split; [|split]]]].
    + intros item. unfold AddItem, bind.
      destruct (loadDB t w) as [[[e|] t1] w1]; [done|].
      destruct (toDoMap t1 !! Id item); [done|].
      destruct (saveDB _ w1) as [[e|] w2]; by apply (keyed_putItem _ item).
    + by apply Hupd.
    + intros id. unfold DeleteItem, bind.
      destruct (loadDB t w) as [[[e|] t1] w1]; [done|].
      destruct (toDoMap t1 !! id); [|done].
      destruct (saveDB _ w1) as [[e|] w2]; by apply keyed_delete.
    + by apply Hget.
    + unfold GetAllItems, bind. by destruct (loadDB t w) as [[[e|] t1] w1].
    + intros id value. specialize (Hget t w Hk id).
      unfold ChangeItemDoneStatus, bind.
      destruct (GetItem t id w) as [[[item [e|]] t1] w1]; [done|].
      specialize (Hupd t1 w1 Hget (mkItem (Id item) (Title item) value)).
      by destruct (UpdateItem t1 _ w1) as [[[e|] t2] w2].
Qed.

(** C5, as the code has it.  In a quiet world, when the loaded
    collection has no item with the id of [item] and the codec gives
    back the list that is saved, [AddItem] succeeds and a [GetItem] of
    the id that follows returns [item].  The condition on the codec is
    needed: [encoding/json] does not give back a title that is not valid
    UTF-8. *)
Theorem AddItem_then_GetItem t w t1 w1 item :
  quiet w -> keyed (toDoMap t) ->
  loadDB t w = (None, t1, w1) ->
  toDoMap t1 !! Id item = None ->
  roundTrips (mapRange (<[Id item := item]> (toDoMap t1))) ->
  exists t2 w2 w3,
    AddItem t item w = (None, t2, w2)
    ∧ GetItem t2 (Id item) w2 = (item, None, t2, w3).
Proof.
  intros Hq Hk Hload Hfresh Hrt.
  destruct (store_quiet t w t1 w1 item Hq Hk Hload Hrt)
    as (w2 & Hsave & Hsync & Hq2 & Hk2 & _).
  destruct (GetItem_synced _ w2 (Id item) item Hq2 Hk2 Hsync) as (w3 & Hget & _).
  { apply lookup_insert_eq. }
  eexists _, w2, w3. split; [|exact Hget].
  unfold AddItem, bind. rewrite Hload, Hfresh. by rewrite Hsave.
Qed.

(** Replacing an item that is there, then reading it. *)
Lemma replace_then_get t w t1 w1 item old :
  quiet w -> keyed (toDoMap t) ->
  loadDB t w = (None, t1, w1) ->
  toDoMap t1 !! Id item = Some old ->
  roundTrips (mapRange (<[Id item := item]> (toDoMap t1))) ->
  exists t2 w2 w3,
    UpdateItem t item w = (None, t2, w2)
    ∧ GetItem t2 (Id item) w2 = (item, None, t2, w3).
Proof.
  intros Hq Hk Hload Hold Hrt.
  destruct (store_quiet t w t1 w1 item Hq Hk Hload Hrt)
    as (w2 & Hsave & Hsync & Hq2 & Hk2 & _).
  destruct (GetItem_synced _ w2 (Id item) item Hq2 Hk2 Hsync) as (w3 & Hget & _).
  { apply lookup_insert_eq. }
  eexists _, w2, w3. split; [|exact Hget].
  unfold UpdateItem, bind. rewrite Hload, Hold. by rewrite Hsave.
Qed.

(** C7, as the code has it.  In a quiet world, when the loaded
    collection has an item with the id of [item] and the codec gives
    back the list that is saved, [UpdateItem] succeeds and a [GetItem]
    of the id that follows returns [item], every field of it, whatever
    the stored item was.  The condition on the codec is needed, as for
    [AddItem]. *)
Theorem UpdateItem_then_GetItem t w t1 w1 item old :
  quiet w -> keyed (toDoMap t) ->
  loadDB t w = (None, t1, w1) ->
  toDoMap t1 !! Id item = Some old ->
  roundTrips (mapRange (<[Id item := item]> (toDoMap t1))) ->
  exists t2 w2 w3,
    UpdateItem t item w = (None, t2, w2)
    ∧ GetItem t2 (Id item) w2 = (item, None, t2, w3).
Proof. apply replace_then_get. Qed.

(** C8, as the code has it.  When [GetItem] finds the id, then, in a
    quiet world and with a codec that gives back the list that is
    saved, [ChangeItemDoneStatus] succeeds and a [GetItem] that follows
    returns the item with the same id and title and with the new
    status; without the condition on the codec the title can change.
    When [GetItem] fails, [ChangeItemDoneStatus] fails with the same
    error, as it is, and leaves the same store and world. *)
Theorem ChangeItemDoneStatus_spec t w id value :
  (forall item t1 w1,
     GetItem t id w = (item, None, t1, w1) ->
     quiet w -> keyed (toDoMap t) ->
     roundTrips (mapRange (<[id := mkItem id (Title item) value]> (toDoMap t1))) ->
     exists t2 w2 w3,
       ChangeItemDoneStatus t id value w = (None, t2, w2)
       ∧ GetItem t2 id w2 = (mkItem id (Title item) value, None, t2, w3))
  ∧ (forall item err t1 w1,
       GetItem t id w = (item, Some err, t1, w1) ->
       ChangeItemDoneStatus t id value w = (Some err, t1, w1)).
Proof.
  split.
  - intros item t1 w1 Hget Hq Hk Hrt.
    destruct (GetItem_inv _ _ _ _ _ _ Hget) as [Hload Hid].
    pose proof (loadDB_steady t w Hq) as Hq1.
    pose proof (loadDB_keyed t w Hk) as Hk1.
    rewrite Hload in Hq1, Hk1. simpl in Hq1, Hk1.
    pose proof (Hk1 _ _ Hid) as Hitem.
    destruct (loadDB_again t w t1 w1 Hq Hload) as (w1' & Hload' & _).
    set (updatedItem := mkItem id (Title item) value).
    destruct (replace_then_get t1 w1 t1 w1' updatedItem item)
      as (t2 & w2 & w3 & Hupd & Hget2); try done.
    exists t2, w2, w3. split; [|exact Hget2].
    unfold ChangeItemDoneStatus, bind. rewrite Hget, Hitem.
    fold updatedItem. by rewrite Hupd.
  - intros item err t1 w1 Hget.
    unfold ChangeItemDoneStatus, bind. by rewrite Hget.
Qed.

(** C4, as the code has it.  In a quiet world, after an [AddItem] of
    [item] that succeeded and with a codec that gives back the saved
    list, an [AddItem] of any item with the same id fails with the error
    of the fixed message "The item provided already exists in the
    database."; the map still holds [item] under the id, no file is
    changed, and a [GetItem] of the id returns [item]. *)
Theorem AddItem_twice t w item t1 w1 item' :
  quiet w -> keyed (toDoMap t) ->
  AddItem t item w = (None, t1, w1) ->
  roundTrips (mapRange (toDoMap t1)) ->
  Id item' = Id item ->
  exists w2 w3,
    AddItem t1 item' w1 =
      (Some (errors_New "The item provided already exists in the database."),
       t1, w2)
    ∧ toDoMap t1 !! Id item = Some item
    ∧ files w2 = files w1
    ∧ GetItem t1 (Id item) w2 = (item, None, t1, w3).
Proof.
  intros Hq Hk Hadd Hrt Hid.
  destruct (AddItem_inv _ _ _ _ _ Hadd) as (t0 & w0 & Hload & Hfresh & Ht1 & Hsave).
  pose proof (loadDB_steady t w Hq) as Hq0.
  pose proof (loadDB_keyed t w Hk) as Hk0.
  rewrite Hload in Hq0, Hk0. simpl in Hq0, Hk0.
  assert (keyed (toDoMap t1)) as Hk1.
  { subst t1. by apply (keyed_putItem _ item). }
  assert (toDoMap t1 !! Id item = Some item) as Hitem.
  { subst t1. apply lookup_insert_eq. }
  destruct (saveDB_synced t1 w0 Hq0 Hrt) as (w1' & Hsave' & Hsync & _ & Hq1).
  rewrite Hsave in Hsave'. injection Hsave' as <-.
  destruct (loadDB_synced t1 w1 Hq1 Hk1 Hsync) as (w2 & Hload2 & Hf2 & _ & Hq2).
  destruct (GetItem_synced t1 w2 (Id item) item Hq2 Hk1) as (w3 & Hget & _);
    [by apply (synced_files t1 w1) | done |].
  exists w2, w3. split; [|done].
  unfold AddItem, bind. by rewrite Hload2, Hid, Hitem.
Qed.

End PackageProperties.

(** ** Restoring from the backup *)

Lemma os_OpenFile_trunc_inv path w f w' :
  os_OpenFile_trunc path w = (Ok f, w') ->
  f = mkFile path [] ∧ files w' = <[path := []]> (files w)
  ∧ stdout w' = stdout w ∧ writeFaults w' = writeFaults w.
Proof.
  unfold os_OpenFile_trunc, bind, nextOpen.
  destruct (next (openFaults w)) as [[|k] rest]; [|done].
  by intros [= <- <-].
Qed.

Lemma os_Open_inv path w f w' :
  os_Open path w = (Ok f, w') ->
  exists data, f = mkFile path data ∧ files w !! path = Some data
    ∧ files w' = files w ∧ stdout w' = stdout w
    ∧ writeFaults w' = writeFaults w.
Proof.
  unfold os_Open, bind, nextOpen, getFile, ret.
  destruct (next (openFaults w)) as [[|k] rest]; [|done]. simpl.
  destruct (files w !! path) as [data|] eqn:E; [|done].
  intros [= <- <-]. by exists data.
Qed.

(** [RestoreDB] when no write fails: on success the file of the store
    holds the bytes of the backup and the closing line has been printed;
    on an error nothing has been printed. *)
Lemma RestoreDB_calm t w r w1 :
  calm (writeFaults w) ->
  RestoreDB t w = (r, w1) ->
  match r with
  | None =>
      exists backup,
        files w !! (dbFileName t +:+ ".bak") = Some backup
        ∧ files w1 = <[dbFileName t := backup]> (files w)
        ∧ stdout w1 = stdout w
            +:+ finishedLine (dbFileName t) (dbFileName t +:+ ".bak")
  | Some _ => stdout w1 = stdout w
  end.
Proof.
  intros Hcalm. unfold RestoreDB, bind.
  destruct (os_OpenFile_trunc (dbFileName t) w) as [[dbFile|e] wa] eqn:Hopen.
  2:{ pose proof (os_OpenFile_trunc_silent (dbFileName t) w) as Hs.
      rewrite Hopen in Hs. by intros [= <- <-]. }
  apply os_OpenFile_trunc_inv in Hopen as (-> & Hfa & Hsa & Hwa).
  destruct (os_Open (dbFileName t +:+ ".bak") wa) as [[backupFile|e] wb] eqn:Hbak.
  2:{ pose proof (os_Open_silent (dbFileName t +:+ ".bak") wa) as Hs.
      rewrite Hbak in Hs. intros [= <- <-]. simpl in Hs. congruence. }
  apply os_Open_inv in Hbak as (backup & -> & Hfile & Hfb & Hsb & Hwb).
  destruct (copyLoop _ _ _ _ wb) as [r' w'] eqn:Hloop.
  eapply (copyLoop_calm _ _ _ _ _ _ _ []) in Hloop.
  - destruct r' as [e|]; intros [= <- <-]; [congruence|].
    destruct Hloop as [Hf Hs]. simpl in Hf, Hs. exists backup.
    rewrite Hfa, lookup_insert_ne in Hfile by apply backup_name_fresh.
    split; [done|]. rewrite Hf, Hs, Hfb, Hfa, insert_insert_eq.
    split; [done | congruence].
  - congruence.
  - simpl. rewrite Hfb, Hfa. apply lookup_insert_eq.
Qed.

(** The only error that the loop returns is the one of a read. *)
Lemma copyLoop_errors dbFile dbFileName backupFileName backupFile w :
  (copyLoop dbFile dbFileName backupFileName backupFile w).1 = None
  ∨ (copyLoop dbFile dbFileName backupFileName backupFile w).1 =
      Some (errors_New ("failed to read from " +:+ backupFileName)).
Proof.
  remember (length (unread backupFile)) as n eqn:Hn.
  revert backupFile w Hn.
  induction n as [n IH] using lt_wf_ind. intros f w ->.
  rewrite copyLoop_body.
  destruct (File_Read f 1024 w) as [[[buffer f'] err] w1] eqn:Hread.
  destruct (readFailed err) eqn:Herr; [by right|].
  destruct buffer as [|b bs]; [by left|].
  destruct (File_Write dbFile (b :: bs) w1) as [[k werr] w2].
  assert (length (unread f') < length (unread f))%nat as Hlt.
  { eapply File_Read_advances; [exact Hread | done | lia]. }
  destruct werr; simpl; by apply (IH _ Hlt).
Qed.

(** The errors of [RestoreDB]: a file that does not open and a read that
    fails.  No error stands for a write that failed. *)
Lemma RestoreDB_errors t w :
  (RestoreDB t w).1 = None
  ∨ (RestoreDB t w).1 = Some (errors_New ("failed to open " +:+ dbFileName t))
  ∨ (RestoreDB t w).1 =
      Some (errors_New ("failed to open " +:+ dbFileName t +:+ ".bak"))
  ∨ (RestoreDB t w).1 =
      Some (errors_New ("failed to read from " +:+ dbFileName t +:+ ".bak")).
Proof.
  unfold RestoreDB, bind.
  destruct (os_OpenFile_trunc (dbFileName t) w) as [[dbFile|e] wa];
    [|by right; left].
  destruct (os_Open (dbFileName t +:+ ".bak") wa) as [[backupFile|e] wb];
    [|by right; right; left].
  pose proof (copyLoop_errors dbFile (dbFileName t) (dbFileName t +:+ ".bak")
                backupFile wb) as Hloop.
  destruct (copyLoop _ _ _ _ wb) as [[e|] w']; simpl in *.
  - destruct Hloop as [|[= ->]]; [done|]. by right; right; right.
  - by left.
Qed.

(** The failures that [RestoreDB] does return: the file of the store
    does not open, the backup does not open or is not there, the first
    read of the backup fails. *)
Lemma RestoreDB_reports_open_and_read_failures t w k rest :
  (next (openFaults w) = (Fails k, rest) ->
   (RestoreDB t w).1 = Some (errors_New ("failed to open " +:+ dbFileName t)))
  ∧ (calm (openFaults w) ->
     files w !! (dbFileName t +:+ ".bak") = None ->
     (RestoreDB t w).1 =
       Some (errors_New ("failed to open " +:+ dbFileName t +:+ ".bak")))
  ∧ (calm (openFaults w) ->
     is_Some (files w !! (dbFileName t +:+ ".bak")) ->
     next (readFaults w) = (Fails k, rest) ->
     (RestoreDB t w).1 =
       Some (errors_New ("failed to read from " +:+ dbFileName t +:+ ".bak"))).
Proof.
  split; [|split].
  - intros Hopen. unfold RestoreDB, os_OpenFile_trunc, bind, nextOpen.
    by rewrite Hopen.
  - intros Hcalm Hnone. unfold RestoreDB, os_OpenFile_trunc, os_Open, bind,
      nextOpen, putFile, getFile, ret. simpl.
    destruct (next_calm _ Hcalm) as (rest1 & -> & Hcalm1). simpl.
    destruct (next_calm _ Hcalm1) as (rest2 & -> & _). simpl.
    rewrite lookup_insert_ne by apply backup_name_fresh. by rewrite Hnone.
  - intros Hcalm [data Hdata] Hread.
    unfold RestoreDB, os_OpenFile_trunc, os_Open, bind,
      nextOpen, putFile, getFile, ret. simpl.
    destruct (next_calm _ Hcalm) as (rest1 & -> & Hcalm1). simpl.
    destruct (next_calm _ Hcalm1) as (rest2 & -> & _). simpl.
    rewrite lookup_insert_ne by apply backup_name_fresh. rewrite Hdata.
    rewrite copyLoop_body. unfold File_Read, bind, nextRead. simpl.
    by rewrite Hread.
Qed.

Section RestoreProperties.
Context `{JsonCodec}.

(** C1, as the code has it.  When [RestoreDB] returns no error in a run
    in which no write failed, the file of the store holds exactly the
    bytes of the backup file, which is unchanged.  A [loadDB] that
    follows succeeds when the backup parses as a list of items and the
    file can be read, and a [loadDB] that succeeds has put the items of
    the backup into the map that the store already held: entries of the
    map whose ids the backup does not have stay, and the map holds
    exactly the items of the backup when it was empty before. *)
Theorem RestoreDB_copies_backup t w w1 :
  calm (writeFaults w) ->
  RestoreDB t w = (None, w1) ->
  exists backup,
    files w !! (dbFileName t +:+ ".bak") = Some backup
    ∧ files w1 !! dbFileName t = Some backup
    ∧ files w1 !! (dbFileName t +:+ ".bak") = Some backup
    ∧ (forall toDoList,
         json_Unmarshal_list backup = Ok toDoList ->
         calm (openFaults w1) -> calm (readFaults w1) ->
         exists t2 w2, loadDB t w1 = (None, t2, w2))
    ∧ (forall t2 w2,
         loadDB t w1 = (None, t2, w2) ->
         exists toDoList,
           json_Unmarshal_list backup = Ok toDoList
           ∧ toDoMap t2 = foldl putItem (toDoMap t) toDoList
           ∧ (forall id,
                (forall item, item ∈ toDoList -> Id item ≠ id) ->
                toDoMap t2 !! id = toDoMap t !! id)
           ∧ (toDoMap t = ∅ -> toDoMap t2 = foldl putItem ∅ toDoList)).
Proof.
  intros Hcalm Hrun.
  destruct (RestoreDB_calm t w None w1 Hcalm Hrun) as (backup & Hbak & Hf & _).
  exists backup. split; [done|]. rewrite Hf. split; [apply lookup_insert_eq|].
  split; [by rewrite lookup_insert_ne by apply backup_name_fresh|]. split.
  - intros toDoList Hjson Hopen Hread.
    destruct (os_ReadFile_calm (dbFileName t) w1 backup Hopen Hread) as (w2 & Hfile).
    { rewrite Hf. apply lookup_insert_eq. }
    eexists _, w2. unfold loadDB, bind. by rewrite Hfile, Hjson.
  - intros t2 w2 Hload.
    destruct (loadDB_inv _ _ _ _ Hload) as (data & l & Hread & Hjson & ->).
    apply os_ReadFile_inv in Hread as [Hfile _].
    rewrite Hf, lookup_insert_eq in Hfile. injection Hfile as <-.
    exists l. split; [done|]. split; [done|]. simpl. split.
    + intros id Hfresh. by apply foldl_putItem_fresh.
    + by intros ->.
Qed.

(** C9, as the code has it.  No operation of the store other than
    [RestoreDB] writes to the console, in any run.  [RestoreDB], in a
    run in which no write fails, prints its closing line when it returns
    no error and prints nothing when it returns an error. *)
Theorem core_operations_console `{MapOrder} :
  (forall dbFile, silent (New dbFile))
  ∧ (forall t item, silent (AddItem t item))
  ∧ (forall t id, silent (GetItem t id))
  ∧ (forall t, silent (GetAllItems t))
  ∧ (forall t item, silent (UpdateItem t item))
  ∧ (forall t id, silent (DeleteItem t id))
  ∧ (forall t id value, silent (ChangeItemDoneStatus t id value))
  ∧ (forall t w,
       calm (writeFaults w) ->
       stdout (RestoreDB t w).2 =
         match (RestoreDB t w).1 with
         | None =>
             stdout w +:+ finishedLine (dbFileName t) (dbFileName t +:+ ".bak")
         | Some _ => stdout w
         end).
Proof.
  assert (forall t, silent (loadDB t)) as Hload by apply loadDB_silent.
  assert (forall t, silent (saveDB t)) as Hsave by apply saveDB_silent.
  assert (forall t id, silent (GetItem t id)) as Hget.
  { intros t id. unfold GetItem. frame. }
  assert (forall t item, silent (UpdateItem t item)) as Hupd.
  { intros t item. unfold UpdateItem. frame. }
  repeat split.
  - intros dbFile. unfold New, initDB. frame.
  - intros t item. unfold AddItem. frame.
  - done.
  - intros t. unfold GetAllItems. frame.
  - done.
  - intros t id. unfold DeleteItem. frame.
  - intros t id value. unfold ChangeItemDoneStatus. frame.
  - intros t w Hcalm.
    destruct (RestoreDB t w) as [r w1] eqn:Hrun.
    pose proof (RestoreDB_calm t w r w1 Hcalm Hrun) as Hr. simpl.
    destruct r as [e|]; [done|]. by destruct Hr as (backup & _ & _ & ->).
Qed.

End RestoreProperties.

(** ** The reader of JSON texts *)

Module ReaderFacts.
Import GoJson.

#[local] Arguments isChar : simpl never.
#[local] Arguments Byte.eqb : simpl never.
#[local] Arguments code : simpl never.
#[local] Arguments isDigit : simpl never.
#[local] Arguments isSpace : simpl never.
#[local] Arguments hexVal : simpl never.
#[local] Arguments hex4 : simpl never.
#[local] Arguments getu4 : simpl never.
#[local] Arguments simpleEscape : simpl never.
#[local] Arguments decodeRune : simpl never.
#[local] Arguments encodeRune : simpl never.
#[local] Arguments escapeByte : simpl never.
#[local] Arguments htmlSafe : simpl never.
#[local] Arguments isSurrogate : simpl never.
#[local] Arguments decodeSurrogates : simpl never.
#[local] Arguments N.eqb : simpl never.
#[local] Arguments N.ltb : simpl never.
#[local] Arguments N.leb : simpl never.

Lemma skipSpace_length s : (length (skipSpace s) <= length s)%nat.
Proof. induction s as [|b r IH]; simpl; [done|]. destruct (isSpace b); simpl; lia. Qed.

Lemma spanDigits_length s ds r :
  spanDigits s = (ds, r) -> (length r <= length s)%nat.
Proof.
  revert ds r. induction s as [|b s IH]; simpl; intros ds r.
  - by intros [= <- <-].
  - destruct (isDigit b); [|by intros [= <- <-]].
    destruct (spanDigits s) as [ds' r'] eqn:E. intros [= <- <-].
    specialize (IH _ _ eq_refl). lia.
Qed.

Lemma scanInt_length s i r : scanInt s = Some (i, r) -> (length r < length s)%nat.
Proof.
  destruct s as [|b s]; simpl; [done|].
  destruct (isChar "0" b); [by intros [= <- <-]; simpl; lia|].
  destruct (isDigit b); [|done].
  destruct (spanDigits s) as [ds r'] eqn:E. intros [= <- <-].
  apply spanDigits_length in E. simpl. lia.
Qed.

Lemma scanFrac_length s f r : scanFrac s = Some (f, r) -> (length r <= length s)%nat.
Proof.
  destruct s as [|b s]; simpl; [by intros [= <- <-]|].
  destruct (isChar "." b); [|by intros [= <- <-]].
  destruct (spanDigits s) as [[|d ds] r'] eqn:E; [done|]. intros [= <- <-].
  apply spanDigits_length in E. simpl. lia.
Qed.

Lemma scanExp_length s e r : scanExp s = Some (e, r) -> (length r <= length s)%nat.
Proof.
  destruct s as [|b s]; simpl; [by intros [= <- <-]|].
  destruct (isChar "e" b || isChar "E" b); [|by intros [= <- <-]].
  destruct s as [|c s'].
  - simpl. done.
  - destruct (isChar "+" c || isChar "-" c).
    + destruct (spanDigits s') as [[|d ds] r'] eqn:E; [done|]. intros [= <- <-].
      apply spanDigits_length in E. simpl. lia.
    + destruct (spanDigits (c :: s')) as [[|d ds] r'] eqn:E; [done|].
      intros [= <- <-]. apply spanDigits_length in E. simpl in *. lia.
Qed.

Lemma scanNumber_length s lit r :
  scanNumber s = Some (lit, r) -> (length r < length s)%nat.
Proof.
  unfold scanNumber.
  assert (forall s1, (length s1 <= length s)%nat ->
            match scanInt s1 with
            | Some (i, s2) =>
                match scanFrac s2 with
                | Some (f, s3) =>
                    match scanExp s3 with
                    | Some (e, s4) => (length s4 < length s)%nat
                    | None => True
                    end
                | None => True
                end
            | None => True
            end) as Hrest.
  { intros s1 Hs1. destruct (scanInt s1) as [[i s2]|] eqn:E1; [|done].
    destruct (scanFrac s2) as [[f s3]|] eqn:E2; [|done].
    destruct (scanExp s3) as [[e s4]|] eqn:E3; [|done].
    apply scanInt_length in E1. apply scanFrac_length in E2.
    apply scanExp_length in E3. lia. }
  destruct s as [|b s']; [done|].
  destruct (isChar "-" b).
  - specialize (Hrest s'). simpl in Hrest.
    destruct (scanInt s') as [[i s2]|]; [|done].
    destruct (scanFrac s2) as [[f s3]|]; [|done].
    destruct (scanExp s3) as [[e s4]|]; [|done].
    intros [= <- <-]. apply Hrest. lia.
  - specialize (Hrest (b :: s')). 
    destruct (scanInt (b :: s')) as [[i s2]|]; [|done].
    destruct (scanFrac s2) as [[f s3]|]; [|done].
    destruct (scanExp s3) as [[e s4]|]; [|done].
    intros [= <- <-]. by apply Hrest.
Qed.

Lemma hex4_length s n r : hex4 s = Some (n, r) -> (length r < length s)%nat.
Proof.
  unfold hex4. destruct s as [|a [|b [|c [|d s]]]]; simpl; try done.
  destruct (hexVal a), (hexVal b), (hexVal c), (hexVal d); try done.
  intros [= <- <-]. simpl. lia.
Qed.

Lemma decodeRune_size c r : (1 <= (decodeRune (c :: r)).2)%nat.
Proof.
  unfold decodeRune. repeat case_match; simpl; lia.
Qed.


Ltac pairs :=
  repeat match goal with
  | H : (_, _) = (_, _) |- _ => injection H as ? ?; subst
  | H : Some _ = Some _ |- _ => injection H as ?; subst
  end.

(** Facts on the lengths of what the scanners leave. *)
Ltac lengths :=
  repeat match goal with
  | H : hex4 _ = Some _ |- _ => apply hex4_length in H
  | H : decodeRune (?c :: ?r) = (_, _) |- _ =>
      let Hs := fresh "Hsize" in
      pose proof (decodeRune_size c r) as Hs; rewrite H in Hs; clear H
  end;
  rewrite ?length_drop in *; cbn [length fst snd] in *; try lia.

Lemma scanString_length n s bs rest :
  scanString n s = Some (bs, rest) -> (length rest < length s)%nat.
Proof.
  revert s bs rest. induction n as [|n IH]; intros s bs rest; [done|].
  simpl. destruct s as [|c r]; [done|].
  repeat (case_match; pairs); try (intros; discriminate); intros; pairs;
    repeat match goal with
    | H : scanString _ _ = Some _ |- _ => apply IH in H
    end; lengths.
Qed.

Lemma scanString_fuel n m s :
  (length s <= n)%nat -> (length s <= m)%nat -> scanString n s = scanString m s.
Proof.
  revert m s. induction n as [|n IH]; intros m s Hn Hm.
  - destruct s; [|simpl in Hn; lia]. by destruct m.
  - destruct m as [|m]; [destruct s; [done | simpl in Hm; lia]|].
    simpl. destruct s as [|c r]; [done|]. simpl in Hn, Hm.
    repeat (case_match; pairs); try done;
      repeat match goal with
      | H : scanString n ?x = _ |- _ => rewrite (IH m x) in H by lengths
      end; congruence.
Qed.

Lemma escapeString_fuel n m s :
  (length s <= n)%nat -> (length s <= m)%nat ->
  escapeString n s = escapeString m s.
Proof.
  revert m s. induction n as [|n IH]; intros m s Hn Hm.
  - destruct s; [|simpl in Hn; lia]. by destruct m.
  - destruct m as [|m]; [destruct s; [done | simpl in Hm; lia]|].
    simpl. destruct s as [|c r]; [done|]. simpl in Hn, Hm.
    repeat (case_match; pairs); try done;
      rewrite (IH m) by lengths; reflexivity.
Qed.


Lemma scanQuoted_length s str rest :
  scanQuoted s = Some (str, rest) -> (length rest < length s)%nat.
Proof.
  unfold scanQuoted.
  destruct (scanString (length s) s) as [[bs r]|] eqn:E; [|done].
  intros [= _ <-]. by apply scanString_length in E.
Qed.

Lemma stripPrefix_length p s r :
  stripPrefix p s = Some r -> (length r + length p = length s)%nat.
Proof.
  revert s. induction p as [|a p IH]; intros s; simpl.
  - intros [= <-]. lia.
  - destruct s as [|b s]; [done|]. destruct (Byte.eqb a b); [|done].
    intros Hs%IH. simpl. lia.
Qed.

Lemma length_bytes_of_string (s : string) :
  length (list_byte_of_string s) = String.length s.
Proof.
  unfold list_byte_of_string.
  induction s as [|a s IH]; simpl; [done | by rewrite IH].
Qed.

Lemma literal_length word v s v' r :
  literal word v s = Some (v', r) ->
  (length r + String.length word = length s)%nat.
Proof.
  unfold literal.
  destruct (stripPrefix _ s) as [rest|] eqn:E; [|done]. intros [= _ <-].
  apply stripPrefix_length in E. by rewrite length_bytes_of_string in E.
Qed.

#[local] Arguments scanQuoted : simpl never.
#[local] Arguments scanNumber : simpl never.
#[local] Arguments literal : simpl never.
#[local] Arguments skipSpace : simpl never.

(** What is left is shorter than what was given. *)
Ltac rests :=
  repeat match goal with
  | H : skipSpace ?x = ?y |- _ =>
      let Hs := fresh "Hskip" in
      pose proof (skipSpace_length x) as Hs; rewrite H in Hs; clear H
  | H : scanQuoted _ = Some _ |- _ => apply scanQuoted_length in H
  | H : scanNumber _ = Some _ |- _ => apply scanNumber_length in H
  | H : literal _ _ _ = Some _ |- _ => apply literal_length in H
  end;
  cbn [length String.length] in *.

Lemma parse_length n :
  (forall depth s v rest,
     parseValue n depth s = Some (v, rest) -> (length rest < length s)%nat)
  ∧ (forall depth s vs rest,
       parseElements n depth s = Some (vs, rest) -> (length rest < length s)%nat)
  ∧ (forall depth s ms rest,
       parseMembers n depth s = Some (ms, rest) -> (length rest < length s)%nat).
Proof.
  induction n as [|n (IHv & IHe & IHm)]; [by repeat split|].
  split; [|split]; intros depth s x rest; simpl;
    repeat (case_match; pairs); try (intros; discriminate); intros; pairs;
    repeat match goal with
    | H : parseValue _ _ _ = Some _ |- _ => apply IHv in H
    | H : parseElements _ _ _ = Some _ |- _ => apply IHe in H
    | H : parseMembers _ _ _ = Some _ |- _ => apply IHm in H
    end; rests; lia.
Qed.


(** The lengths of the rests, kept next to the equations they come from. *)
Ltac bounds :=
  repeat match goal with
  | H : parseValue ?n ?d ?x = Some (_, ?r) |- _ =>
      lazymatch goal with
      | _ : (length r < length x)%nat |- _ => fail
      | _ => pose proof (proj1 (parse_length n) _ _ _ _ H)
      end
  | H : skipSpace ?x = ?y |- _ =>
      lazymatch goal with
      | _ : (length y <= length x)%nat |- _ => fail
      | _ =>
          let Hs := fresh "Hskip" in
          pose proof (skipSpace_length x) as Hs; rewrite H in Hs
      end
  | H : scanQuoted ?x = Some (_, ?r) |- _ =>
      lazymatch goal with
      | _ : (length r < length x)%nat |- _ => fail
      | _ => pose proof (scanQuoted_length _ _ _ H)
      end
  end;
  cbn [length] in *.

(** Any fuel above twice the length of the text gives the same result:
    the reader never stops for want of fuel. *)
Lemma parse_fuel n :
  (forall m depth s,
     (2 * length s < n)%nat -> (2 * length s < m)%nat ->
     parseValue n depth s = parseValue m depth s)
  ∧ (forall m depth s,
       (2 * length s + 1 < n)%nat -> (2 * length s + 1 < m)%nat ->
       parseElements n depth s = parseElements m depth s)
  ∧ (forall m depth s,
       (2 * length s + 1 < n)%nat -> (2 * length s + 1 < m)%nat ->
       parseMembers n depth s = parseMembers m depth s).
Proof.
  induction n as [|n (IHv & IHe & IHm)]; [repeat split; intros; lia|].
  split; [|split]; intros m depth s Hn Hm;
    (destruct m as [|m]; [lia|]); simpl;
    repeat (case_match; pairs); try done; bounds;
    repeat match goal with
    | H : parseValue n ?d ?x = _ |- _ => rewrite (IHv m d x) in H by lia
    | H : parseElements n ?d ?x = _ |- _ => rewrite (IHe m d x) in H by lia
    | H : parseMembers n ?d ?x = _ |- _ => rewrite (IHm m d x) in H by lia
    end; congruence.
Qed.

(** The fuel that [parseJSON], [scanQuoted] and [quoted] give is enough:
    more fuel changes nothing. *)
Lemma fuel_is_enough (data : list byte) (n : nat) :
  ((2 * length data + 2 <= n)%nat ->
   parseValue n 0 data = parseValue (2 * length data + 2) 0 data)
  ∧ ((length data <= n)%nat ->
     scanString n data = scanString (length data) data)
  ∧ ((length data <= n)%nat ->
     escapeString n data = escapeString (length data) data).
Proof.
  split; [|split]; intros Hn.
  - apply (proj1 (parse_fuel n)); lia.
  - by apply scanString_fuel.
  - by apply escapeString_fuel.
Qed.

End ReaderFacts.

(** ** The codec on plain items *)

Module CodecFacts.
Import GoJson.

(** *** Strings: the reader undoes the escapes of the writer *)

Lemma ascii_scan_step c n rest :
  (code c <? 128)%N = true ->
  scanString (S n) ((if htmlSafe c then [c] else escapeByte c) ++ rest) =
    match scanString n rest with
    | Some (bs, r) => Some (c :: bs, r)
    | None => None
    end.
Proof.
  destruct c; intros Hc; try (vm_compute in Hc; discriminate Hc); reflexivity.
Qed.

Lemma escapeString_ascii_cons n c r :
  (code c <? 128)%N = true ->
  escapeString (S n) (c :: r) =
    (if htmlSafe c then [c] else escapeByte c) ++ escapeString n r.
Proof. intros Hc. simpl. by rewrite Hc. Qed.

Lemma scan_escaped s rest n m :
  asciiBytes s -> (length s <= n)%nat -> (length s < m)%nat ->
  scanString m (escapeString n s ++ quote :: rest) = Some (s, rest).
Proof.
  revert n m. induction s as [|c s IH]; intros n m Hs Hn Hm.
  - destruct m as [|m]; [simpl in Hm; lia|]. by destruct n.
  - apply Forall_cons in Hs as [Hc Hs]. simpl in Hn, Hm.
    destruct n as [|n]; [lia|]. destruct m as [|m]; [lia|].
    rewrite escapeString_ascii_cons by done. rewrite <- app_assoc.
    rewrite ascii_scan_step by done. rewrite IH; [done|done|lia|lia].
Qed.

Lemma length_bytes (s : string) : length (bytes s) = String.length s.
Proof.
  unfold bytes, list_byte_of_string.
  induction s as [|a s IH]; simpl; [done | by rewrite IH].
Qed.

Lemma escapeByte_nonempty c : (1 <= length (escapeByte c))%nat.
Proof. unfold escapeByte. repeat case_match; rewrite ?length_app; vm_compute; lia. Qed.

Lemma escapeString_length n s :
  asciiBytes s -> (length s <= n)%nat ->
  (length s <= length (escapeString n s))%nat.
Proof.
  revert n. induction s as [|c s IH]; intros n Hs Hn; [simpl; lia|].
  apply Forall_cons in Hs as [Hc Hs]. simpl in Hn.
  destruct n as [|n]; [lia|]. rewrite escapeString_ascii_cons by done.
  rewrite length_app. specialize (IH n Hs).
  assert (1 <= length (if htmlSafe c then [c] else escapeByte c))%nat.
  { destruct (htmlSafe c); [simpl; lia | apply escapeByte_nonempty]. }
  change (length (c :: s)) with (S (length s)). lia.
Qed.

Lemma scanQuoted_quoted (s : string) rest :
  asciiBytes (bytes s) ->
  exists r, quoted s ++ rest = quote :: r ∧ scanQuoted r = Some (s, rest).
Proof.
  intros Hs. unfold quoted. simpl. eexists. split; [done|].
  unfold scanQuoted. rewrite <- app_assoc. simpl.
  pose proof (escapeString_length (String.length s) (bytes s) Hs) as Hlen.
  rewrite length_bytes in Hlen.
  rewrite scan_escaped; [|done|by rewrite length_bytes|].
  - unfold bytes. by rewrite string_of_list_byte_of_string.
  - rewrite length_app, length_bytes. simpl. lia.
Qed.

(** *** Numbers: [itoa] writes what [parseInt] reads *)

Lemma bytes_String a s : bytes (String a s) = byte_of_ascii a :: bytes s.
Proof. reflexivity. Qed.

Lemma digitsToZ_fold ds : digitsToZ ds = foldl digitStep 0 ds.
Proof. reflexivity. Qed.

Lemma digits_acc d acc :
  foldl digitStep (Z.pos acc) (digitsOf d) = Z.pos (Pos.of_uint_acc d acc).
Proof.
  revert acc. unfold digitsOf.
  induction d as [|d IH|d IH|d IH|d IH|d IH|d IH|d IH|d IH|d IH|d IH];
    intros acc; [reflexivity|..];
    cbn [NilEmpty.string_of_uint Pos.of_uint_acc]; rewrite bytes_String;
    cbn [foldl]; rewrite <- IH; f_equal; unfold digitStep; vm_compute (Z.of_N _); lia.
Qed.

Lemma digits_value d : foldl digitStep 0 (digitsOf d) = Z.of_N (Pos.of_uint d).
Proof.
  unfold digitsOf.
  induction d as [|d IH|d IH|d IH|d IH|d IH|d IH|d IH|d IH|d IH|d IH];
    [reflexivity|..];
    cbn [NilEmpty.string_of_uint Pos.of_uint]; rewrite bytes_String;
    cbn [foldl Z.of_N].
  1: exact IH.
  all: rewrite <- digits_acc; reflexivity.
Qed.

Lemma digits_are_digits d : forallb isDigit (digitsOf d) = true.
Proof.
  unfold digitsOf.
  induction d as [|d IH|d IH|d IH|d IH|d IH|d IH|d IH|d IH|d IH|d IH];
    [reflexivity|..];
    cbn [NilEmpty.string_of_uint]; rewrite bytes_String; cbn [forallb];
    rewrite IH; reflexivity.
Qed.

Lemma spanDigits_app ds rest :
  forallb isDigit ds = true -> endsNumber rest = true ->
  spanDigits (ds ++ rest) = (ds, rest).
Proof.
  intros Hds Hrest. induction ds as [|d ds IH]; simpl.
  - destruct rest as [|c rest]; [done|]. simpl in *.
    destruct (isDigit c); [simpl in Hrest; discriminate Hrest | done].
  - simpl in Hds. apply andb_prop in Hds as [Hd Hds].
    by rewrite Hd, IH.
Qed.

Lemma scanFrac_none rest : endsNumber rest = true -> scanFrac rest = Some ([], rest).
Proof.
  destruct rest as [|c rest]; [done|]. simpl. intros H.
  destruct (isDigit c), (isChar "." c); simpl in H; done.
Qed.

Lemma scanExp_none rest : endsNumber rest = true -> scanExp rest = Some ([], rest).
Proof.
  destruct rest as [|c rest]; [done|]. simpl. intros H.
  destruct (isDigit c), (isChar "." c), (isChar "e" c), (isChar "E" c);
    simpl in H; done.
Qed.

Lemma to_uint_normal p : Decimal.unorm (Pos.to_uint p) = Pos.to_uint p.
Proof.
  rewrite <- (DecimalPos.Unsigned.to_of (Pos.to_uint p)).
  by rewrite DecimalPos.Unsigned.of_to.
Qed.

Lemma to_uint_not_D0 p d : Pos.to_uint p <> Decimal.D0 d.
Proof.
  intros E. pose proof (to_uint_normal p) as Hnorm.
  rewrite E, DecimalFacts.unorm_D0 in Hnorm.
  destruct (Decimal.nzhead d) eqn:Ed.
  1:{ unfold Decimal.unorm in Hnorm. rewrite Ed in Hnorm.
      injection Hnorm as <-. by apply (DecimalPos.Unsigned.to_uint_nonzero p). }
  all: rewrite DecimalFacts.unorm_nzhead in Hnorm by (rewrite Ed; discriminate);
    by apply (DecimalFacts.nzhead_nonzero d d).
Qed.

(** The digits of a positive number: a digit other than 0, then digits. *)
Lemma to_uint_digits p :
  exists c l,
    digitsOf (Pos.to_uint p) = c :: l
    ∧ isDigit c = true ∧ isChar "0" c = false ∧ isChar "-" c = false
    ∧ forallb isDigit l = true.
Proof.
  pose proof (to_uint_not_D0 p) as Hnz.
  pose proof (DecimalPos.Unsigned.to_uint_nonnil p) as Hnn.
  pose proof (digits_are_digits (Pos.to_uint p)) as Hdigits.
  unfold digitsOf in *.
  destruct (Pos.to_uint p) as [|d|d|d|d|d|d|d|d|d|d] eqn:E;
    [done | by destruct (Hnz d) | ..].
  all: cbn [NilEmpty.string_of_uint] in *; rewrite bytes_String in *;
    eexists _, _; split; [reflexivity|]; cbn [forallb] in Hdigits;
    apply andb_prop in Hdigits as [_ Hdigits]; by repeat split.
Qed.

Lemma itoa_pos p : bytes (itoa (Z.pos p)) = digitsOf (Pos.to_uint p).
Proof.
  unfold itoa, digitsOf. simpl. unfold NilZero.string_of_uint.
  pose proof (DecimalPos.Unsigned.to_uint_nonnil p).
  by destruct (Pos.to_uint p).
Qed.

Lemma itoa_neg p :
  bytes (itoa (Z.neg p)) = byte_of_ascii "-" :: digitsOf (Pos.to_uint p).
Proof.
  unfold itoa, digitsOf. simpl. rewrite bytes_String. f_equal.
  unfold NilZero.string_of_uint.
  pose proof (DecimalPos.Unsigned.to_uint_nonnil p).
  by destruct (Pos.to_uint p).
Qed.

Lemma digitsToZ_to_uint p : digitsToZ (digitsOf (Pos.to_uint p)) = Z.pos p.
Proof.
  rewrite digitsToZ_fold, digits_value, DecimalPos.Unsigned.of_to. done.
Qed.

Lemma parseInt_itoa z :
  int64_min <= z <= int64_max -> parseInt (bytes (itoa z)) = Some z.
Proof.
  intros Hz. destruct z as [|p|p].
  - reflexivity.
  - rewrite itoa_pos. unfold parseInt.
    destruct (to_uint_digits p) as (c & l & E & Hc & _ & Hminus & Hl).
    pose proof (digitsToZ_to_uint p) as Hval. rewrite E in *.
    rewrite Hminus. cbn [forallb]. rewrite Hc, Hl. simpl andb. cbv iota.
    rewrite Hval.
    destruct (Z.leb_spec int64_min (Z.pos p)); [|lia].
    destruct (Z.leb_spec (Z.pos p) int64_max); [done|lia].
  - rewrite itoa_neg. unfold parseInt.
    change (isChar "-" (byte_of_ascii "-")) with true. cbv iota.
    destruct (to_uint_digits p) as (c & l & E & Hc & _ & Hminus & Hl).
    pose proof (digitsToZ_to_uint p) as Hval. rewrite E in *.
    cbn [forallb]. rewrite Hc, Hl. simpl andb. cbv iota. rewrite Hval.
    change (- Z.pos p) with (Z.neg p).
    destruct (Z.leb_spec int64_min (Z.neg p)); [|lia].
    destruct (Z.leb_spec (Z.neg p) int64_max); [done|lia].
Qed.

Lemma scanNumber_itoa z rest :
  endsNumber rest = true ->
  scanNumber (bytes (itoa z) ++ rest) = Some (bytes (itoa z), rest).
Proof.
  intros Hrest.
  assert (forall p sign,
    (let (i, s2) := (digitsOf (Pos.to_uint p), rest) in
     match scanInt (digitsOf (Pos.to_uint p) ++ rest) with
     | None => None
     | Some (i, s2) =>
         match scanFrac s2 with
         | None => None
         | Some (f, s3) =>
             match scanExp s3 with
             | None => None
             | Some (e, s4) => Some (sign ++ i ++ f ++ e, s4)
             end
         end
     end) = Some (sign ++ digitsOf (Pos.to_uint p), rest)) as Hdigits.
  { intros p sign. destruct (to_uint_digits p) as (c & l & E & Hc & Hzero & _ & Hl).
    rewrite E. simpl. rewrite Hzero, Hc. rewrite spanDigits_app by done.
    rewrite scanFrac_none, scanExp_none by done. by rewrite !app_nil_r. }
  destruct z as [|p|p].
  - unfold scanNumber. change (bytes (itoa 0)) with [byte_of_ascii "0"].
    simpl. rewrite scanFrac_none, scanExp_none by done. done.
  - rewrite itoa_pos. unfold scanNumber.
    destruct (to_uint_digits p) as (c & l & E & Hc & Hzero & Hminus & Hl).
    specialize (Hdigits p []). rewrite E in *.
    rewrite <- app_comm_cons in *. cbv beta iota. rewrite Hminus.
    cbv beta iota. exact Hdigits.
  - rewrite itoa_neg. unfold scanNumber. rewrite <- app_comm_cons.
    change (isChar "-" (byte_of_ascii "-")) with true. cbv beta iota.
    specialize (Hdigits p [byte_of_ascii "-"]). exact Hdigits.
Qed.

(** *** Values *)

#[local] Arguments scanQuoted : simpl never.
#[local] Arguments scanNumber : simpl never.
#[local] Arguments escapeString : simpl never.
#[local] Arguments quoted : simpl never.
#[local] Arguments itoa : simpl never.

Lemma number_start c :
  (isChar "-" c || isDigit c) = true ->
  isSpace c = false ∧ isChar "n" c = false ∧ isChar "t" c = false
  ∧ isChar "f" c = false ∧ Byte.eqb c quote = false
  ∧ isChar "[" c = false ∧ isChar "{" c = false.
Proof. destruct c; intros Hc; try (vm_compute in Hc; discriminate Hc); by vm_compute. Qed.

Lemma itoa_start z :
  exists c l, bytes (itoa z) = c :: l ∧ (isChar "-" c || isDigit c) = true.
Proof.
  destruct z as [|p|p].
  - by eexists _, _.
  - rewrite itoa_pos.
    destruct (to_uint_digits p) as (c & l & E & Hc & _ & _ & _).
    exists c, l. by rewrite Hc, orb_true_r.
  - rewrite itoa_neg. by eexists _, _.
Qed.

Lemma parseValue_itoa n depth z rest :
  endsNumber rest = true ->
  parseValue (S n) depth (bytes (itoa z) ++ rest)
    = Some (Number (bytes (itoa z)), rest).
Proof.
  intros Hrest. pose proof (scanNumber_itoa z rest Hrest) as Hscan.
  destruct (itoa_start z) as (c & l & E & Hc). rewrite E in *.
  destruct (number_start c Hc) as (H1 & H2 & H3 & H4 & H5 & H6 & H7).
  rewrite <- app_comm_cons in *. simpl.
  rewrite H1, H2, H3, H4, H5, H6, H7, Hc, Hscan. done.
Qed.

Lemma parseValue_quoted n depth (s : string) rest :
  asciiBytes (bytes s) ->
  parseValue (S n) depth (quoted s ++ rest) = Some (Str s, rest).
Proof.
  intros Hs. destruct (scanQuoted_quoted s rest Hs) as (r & -> & Hscan).
  simpl. by rewrite Hscan.
Qed.

Lemma parseValue_bool n depth b rest :
  parseValue (S n) depth (encodeBool b ++ rest) = Some (Bool b, rest).
Proof. by destruct b. Qed.

#[local] Arguments parseValue : simpl never.
#[local] Arguments parseElements : simpl never.
#[local] Arguments parseMembers : simpl never.

Lemma parseValue_space n depth c r :
  isSpace c = true -> parseValue n depth (c :: r) = parseValue n depth r.
Proof.
  intros Hc. destruct n as [|n]; [done|].
  unfold parseValue; fold parseElements; fold parseMembers.
  cbn [skipSpace]. by rewrite Hc.
Qed.

Lemma parseValue_object n depth r r' :
  skipSpace r = quote :: r' -> (depth < maxNestingDepth)%N ->
  parseValue (S n) depth (byte_of_ascii "{" :: r) =
    match parseMembers n (depth + 1) r with
    | Some (ms, rest) => Some (Object ms, rest)
    | None => None
    end.
Proof.
  intros Hr Hdepth.
  unfold parseValue; fold parseElements; fold parseMembers.
  cbn [skipSpace]. change (isSpace (byte_of_ascii "{")) with false. cbv iota.
  rewrite Hr.
  destruct (N.leb_spec maxNestingDepth depth); [lia|]. reflexivity.
Qed.

Lemma parseMembers_step n depth s r key r1 r2 v r3 d r4 :
  skipSpace s = quote :: r ->
  scanQuoted r = Some (key, r1) ->
  skipSpace r1 = byte_of_ascii ":" :: r2 ->
  parseValue n depth r2 = Some (v, r3) ->
  skipSpace r3 = d :: r4 ->
  parseMembers (S n) depth s =
    if isChar "," d then
      match parseMembers n depth r4 with
      | Some (ms, rest) => Some ((key, v) :: ms, rest)
      | None => None
      end
    else if isChar "}" d then Some ([(key, v)], r4)
    else None.
Proof.
  intros Hs Hkey Hcolon Hv Hnext.
  unfold parseMembers; fold parseValue; fold parseMembers.
  rewrite Hs. change (Byte.eqb quote quote) with true. cbv iota.
  rewrite Hkey, Hcolon. change (isChar ":" (byte_of_ascii ":")) with true.
  cbv iota. rewrite Hv, Hnext. reflexivity.
Qed.

(** *** An item, then a list of items *)

Lemma quoted_id : quoted "id" = quote :: bytes "id" ++ [quote].
Proof. reflexivity. Qed.
Lemma quoted_title : quoted "title" = quote :: bytes "title" ++ [quote].
Proof. reflexivity. Qed.
Lemma quoted_done : quoted "done" = quote :: bytes "done" ++ [quote].
Proof. reflexivity. Qed.

Lemma scanQuoted_key (key : string) rest :
  asciiBytes (bytes key) ->
  scanQuoted (escapeString (String.length key) (bytes key) ++ quote :: rest)
  = Some (key, rest).
Proof.
  intros Hkey. destruct (scanQuoted_quoted key rest Hkey) as (r & Hr & Hscan).
  unfold quoted in Hr. rewrite <- !app_assoc in Hr. simpl in Hr.
  injection Hr as <-. exact Hscan.
Qed.

Lemma parseValue_item n depth item rest :
  (depth < maxNestingDepth)%N ->
  asciiBytes (bytes (Title item)) ->
  parseValue (S (S (S (S (S n))))) depth (encodeItem item ++ rest)
  = Some (Object (membersOf item), rest).
Proof.
  intros Hdepth Htitle. unfold encodeItem, encodeItemAt.
  rewrite quoted_id, quoted_title, quoted_done.
  rewrite <- !app_assoc. simpl.
  rewrite !parseValue_space by reflexivity.
  erewrite parseValue_object; [|reflexivity|done].
  erewrite parseMembers_step;
    [|reflexivity|reflexivity|reflexivity
     |rewrite parseValue_space by reflexivity; apply parseValue_itoa; reflexivity
     |reflexivity].
  simpl.
  erewrite parseMembers_step;
    [|reflexivity|reflexivity|reflexivity
     |rewrite parseValue_space by reflexivity; by apply parseValue_quoted
     |reflexivity].
  simpl.
  erewrite parseMembers_step;
    [|reflexivity|reflexivity|reflexivity
     |rewrite parseValue_space by reflexivity; apply parseValue_bool
     |reflexivity].
  reflexivity.
Qed.

Lemma parseElements_space n depth c r :
  isSpace c = true -> parseElements n depth (c :: r) = parseElements n depth r.
Proof.
  intros Hc. destruct n as [|n]; [done|].
  unfold parseElements; fold parseValue; fold parseElements.
  by rewrite parseValue_space.
Qed.

Lemma parseElements_step n depth s v r d r' :
  parseValue n depth s = Some (v, r) ->
  skipSpace r = d :: r' ->
  parseElements (S n) depth s =
    if isChar "," d then
      match parseElements n depth r' with
      | Some (vs, rest) => Some (v :: vs, rest)
      | None => None
      end
    else if isChar "]" d then Some ([v], r')
    else None.
Proof.
  intros Hv Hr.
  unfold parseElements; fold parseValue; fold parseElements.
  by rewrite Hv, Hr.
Qed.

Lemma parseElements_items items :
  items <> [] -> Forall plainItem items ->
  forall n depth rest,
    (depth < maxNestingDepth)%N ->
    parseElements (length items + 5 + n) depth
      (encodeItems items ++ lf ++ bytes "]" ++ rest)
    = Some (map (fun item => Object (membersOf item)) items, rest).
Proof.
  induction items as [|item items IH]; [done|].
  intros _ Hplain n depth rest Hdepth.
  apply Forall_cons in Hplain as [[_ Htitle] Hplain].
  destruct items as [|item' items].
  - change (encodeItems [item]) with (encodeItem item).
    change (length [item] + 5 + n)%nat with (S (S (S (S (S (S n)))))).
    erewrite parseElements_step;
      [|by apply parseValue_item|reflexivity].
    reflexivity.
  - change (encodeItems (item :: item' :: items))
      with (encodeItem item ++ bytes "," ++ lf ++ encodeItems (item' :: items)).
    rewrite <- !app_assoc.
    change (length (item :: item' :: items) + 5 + n)%nat
      with (S (length (item' :: items) + 5 + n)).
    replace (length (item' :: items) + 5 + n)%nat
      with (S (S (S (S (S (S (length items + n))))))) at 1 by (simpl; lia).
    erewrite parseElements_step;
      [|by apply parseValue_item|reflexivity].
    replace (S (S (S (S (S (S (length items + n)))))))
      with (length (item' :: items) + 5 + n)%nat by (simpl; lia).
    simpl isChar. cbv iota.
    change (lf ++ ?x) with (byteOf 10 :: x).
    rewrite parseElements_space by reflexivity.
    specialize (IH ltac:(done) Hplain n depth rest Hdepth).
    by rewrite IH.
Qed.

Lemma parseValue_array n depth r d r' :
  skipSpace r = d :: r' -> isChar "]" d = false ->
  (depth < maxNestingDepth)%N ->
  parseValue (S n) depth (byte_of_ascii "[" :: r) =
    match parseElements n (depth + 1) r with
    | Some (vs, rest) => Some (Array vs, rest)
    | None => None
    end.
Proof.
  intros Hr Hd Hdepth.
  unfold parseValue; fold parseElements; fold parseMembers.
  cbn [skipSpace]. change (isSpace (byte_of_ascii "[")) with false. cbv iota.
  rewrite Hr.
  destruct (N.leb_spec maxNestingDepth depth); [lia|]. cbv iota.
  by rewrite Hd.
Qed.

Lemma encodeItems_start items rest :
  items <> [] ->
  exists r, skipSpace (encodeItems items ++ rest) = byte_of_ascii "{" :: r.
Proof.
  destruct items as [|item [|item' items]]; [done| |]; intros _;
    cbn [encodeItems]; unfold encodeItem, encodeItemAt;
    rewrite <- !app_assoc; simpl; eauto.
Qed.

Lemma parseJSON_items items :
  items <> [] -> Forall plainItem items ->
  parseJSON (bytes "[" ++ lf ++ encodeItems items ++ lf ++ bytes "]")
  = Some (Array (map (fun item => Object (membersOf item)) items)).
Proof.
  intros Hitems Hplain. unfold parseJSON.
  set (data := bytes "[" ++ lf ++ encodeItems items ++ lf ++ bytes "]").
  rewrite (proj1 (ReaderFacts.parse_fuel (2 * length data + 2))
             (S (length items + 5 + (2 * length data + 2))) 0%N data)
    by lia.
  subst data.
  change (bytes "[" ++ lf ++ ?x) with (byte_of_ascii "[" :: byteOf 10 :: x).
  destruct (encodeItems_start items (lf ++ bytes "]") Hitems) as [r Hr].
  erewrite parseValue_array; [|simpl; apply Hr|reflexivity|reflexivity].
  rewrite parseElements_space by reflexivity.
  pose proof (parseElements_items items Hitems Hplain
                (2 * length (byte_of_ascii "[" :: byteOf 10 :: encodeItems items
                               ++ lf ++ bytes "]") + 2) (0 + 1)%N [] eq_refl)
    as Hparse.
  change (lf ++ bytes "]" ++ []) with (lf ++ bytes "]") in Hparse.
  by rewrite Hparse.
Qed.

(** *** Storing what was read *)

Lemma storeItem_members item saved :
  int64_min <= Id item <= int64_max ->
  storeItem (zeroItem, saved) (Object (membersOf item)) = (item, saved).
Proof.
  intros Hid. destruct item as [id title done].
  unfold storeItem, membersOf. cbn [foldl].
  unfold storeMember at 3. change (fieldOf "id") with (Some FieldId).
  cbv iota beta. cbn [Id]. rewrite (parseInt_itoa id Hid). reflexivity.
Qed.

Lemma storeList_items items acc :
  Forall plainItem items ->
  foldl storeElement (acc, None)
    (map (fun item => Object (membersOf item)) items)
  = (acc ++ items, None).
Proof.
  intros Hplain. revert acc.
  induction Hplain as [|item items [Hid _] _ IH]; intros acc.
  - by rewrite app_nil_r.
  - cbn [map foldl]. unfold storeElement at 2.
    rewrite (storeItem_members item None Hid).
    by rewrite IH, <- app_assoc.
Qed.

(** The codec of the model gives back every list of plain items that
    it has written. *)
Lemma plain_roundTrips items :
  Forall plainItem items -> roundTrips items.
Proof.
  intros Hplain. destruct items as [|item items].
  - exists (bytes "null"). by split.
  - eexists. split; [reflexivity|].
    unfold json_Unmarshal_list, codec, Unmarshal_list.
    rewrite parseJSON_items by done.
    unfold storeList. by rewrite storeList_items.
Qed.

End CodecFacts.

(** ** Parsing an item *)

Module ItemText.
Import GoJson.

Lemma sameField_refl f a : sameField f a a.
Proof. by destruct f. Qed.

Lemma storeMember_fits st m :
  fitsField m = true ->
  (storeMember st m).2 = st.2
  ∧ forall f, fieldOf m.1 ≠ Some f -> sameField f (storeMember st m).1 st.1.
Proof.
  destruct st as [item saved], m as [key v]. unfold fitsField, storeMember.
  simpl. destruct (fieldOf key) as [[]|]; destruct v; simpl; try done;
    try (intros _; split; [done|]; intros []; done).
  destruct (parseInt lit); [|done].
  intros _; split; [done|]; intros []; done.
Qed.

Lemma storeMember_misfit st m :
  fitsField m = false -> is_Some (storeMember st m).2.
Proof.
  destruct st as [item saved], m as [key v]. unfold fitsField, storeMember.
  simpl. destruct (fieldOf key) as [[]|]; destruct v; simpl; try done;
    try (intros _; destruct saved; by eexists).
  destruct (parseInt lit); [done|]. intros _; destruct saved; by eexists.
Qed.

(** An error that has been saved stays. *)
Lemma storeMember_saved st m : is_Some st.2 -> is_Some (storeMember st m).2.
Proof.
  destruct st as [item saved], m as [key v]. simpl. intros [e ->].
  unfold storeMember.
  destruct (fieldOf key) as [[]|]; destruct v; simpl; try by eexists.
  destruct (parseInt lit); by eexists.
Qed.

Lemma storeMembers_saved members st :
  is_Some st.2 -> is_Some (foldl storeMember st members).2.
Proof.
  revert st. induction members as [|m members IH]; [done|].
  intros st Hst. simpl. by apply IH, storeMember_saved.
Qed.

Lemma storeMembers_fit members st :
  forallb fitsField members = true ->
  (foldl storeMember st members).2 = st.2
  ∧ forall f, omits f members ->
      sameField f (foldl storeMember st members).1 st.1.
Proof.
  revert st. induction members as [|m members IH]; intros st Hfit; simpl.
  - split; [done|]. intros f _. apply sameField_refl.
  - simpl in Hfit. apply andb_prop in Hfit as [Hm Hrest].
    destruct (IH (storeMember st m) Hrest) as [Hsaved Hfields].
    destruct (storeMember_fits st m Hm) as [Hsaved1 Hfields1].
    split; [congruence|]. intros f Homit.
    assert (omits f members) as Hrec.
    { intros m' Hin. apply Homit. by right. }
    assert (fieldOf m.1 ≠ Some f) as Hhere.
    { apply Homit. by left. }
    specialize (Hfields f Hrec). specialize (Hfields1 f Hhere).
    destruct f; simpl in *; congruence.
Qed.

Lemma storeMembers_misfit members st :
  forallb fitsField members = false ->
  is_Some (foldl storeMember st members).2.
Proof.
  revert st. induction members as [|m members IH]; intros st Hfit; [done|].
  simpl in *. apply andb_false_iff in Hfit as [Hm|Hrest].
  - by apply storeMembers_saved, storeMember_misfit.
  - by apply IH.
Qed.

(** When [JsonToItem] returns an error: the text is not JSON, or it is
    JSON for something that is neither [null] nor an object, or it is an
    object with a member that does not fit the field it names. *)
Lemma JsonToItem_fails_iff (jsonString : string) :
  is_Some (JsonToItem jsonString).2 <->
  match parseJSON (list_byte_of_string jsonString) with
  | None => True
  | Some Null => False
  | Some (Object members) => forallb fitsField members = false
  | Some _ => True
  end.
Proof.
  unfold JsonToItem. simpl. unfold Unmarshal_item.
  destruct (parseJSON _) as [v|]; simpl; [|by split; eauto].
  destruct v; simpl; try (split; [done | by eauto]).
  destruct (forallb fitsField members) eqn:Hfit.
  - destruct (storeMembers_fit members (zeroItem, None) Hfit) as [Hsaved _].
    destruct (foldl storeMember (zeroItem, None) members) as [item saved].
    simpl in Hsaved. subst saved. simpl.
    split; [by intros [e [=]] | done].
  - pose proof (storeMembers_misfit members (zeroItem, None) Hfit) as [e He].
    destruct (foldl storeMember (zeroItem, None) members) as [item saved].
    simpl in He. subst saved. simpl. split; [done | by eauto].
Qed.

(** C10.  [JsonToItem] of the text of an empty object is the zero item
    and no error.  More generally, when the text is a JSON object of
    which every member that names a field has a value of the type of
    that field (or [null]), [JsonToItem] returns an item and no error,
    and every field that no member names has its zero value.  It returns
    an error on the text of an object only when some member does not fit
    the field it names. *)
Theorem JsonToItem_missing_fields (jsonString : string) :
  JsonToItem "{}" = (zeroItem, None)
  ∧ (forall members,
       parseJSON (list_byte_of_string jsonString) = Some (Object members) ->
       forallb fitsField members = true ->
       exists item,
         JsonToItem jsonString = (item, None)
         ∧ forall f, omits f members -> sameField f item zeroItem)
  ∧ (forall members err,
       parseJSON (list_byte_of_string jsonString) = Some (Object members) ->
       (JsonToItem jsonString).2 = Some err ->
       forallb fitsField members = false).
Proof.
  split; [by vm_compute|]. split.
  - intros members Hparse Hfit.
    destruct (storeMembers_fit members (zeroItem, None) Hfit) as [Hsaved Hfields].
    exists (foldl storeMember (zeroItem, None) members).1. split; [|done].
    unfold JsonToItem. simpl. unfold Unmarshal_item. rewrite Hparse. simpl.
    destruct (foldl storeMember (zeroItem, None) members) as [item saved].
    simpl in Hsaved. by subst saved.
  - intros members err Hparse Herr.
    destruct (forallb fitsField members) eqn:Hfit; [|done].
    destruct (storeMembers_fit members (zeroItem, None) Hfit) as [Hsaved _].
    revert Herr. unfold JsonToItem. simpl. unfold Unmarshal_item.
    rewrite Hparse. simpl.
    destruct (foldl storeMember (zeroItem, None) members) as [item saved].
    simpl in Hsaved. by subst saved.
Qed.

End ItemText.

(** ** The life of a store *)

Section Lifecycle.
Context `{JsonCodec} `{MapOrder}.

Lemma append_assoc (a b c : string) : (a +:+ b) +:+ c = a +:+ b +:+ c.
Proof.
  induction a as [|x a IH]; [done|].
  change (String x ((a +:+ b) +:+ c) = String x (a +:+ b +:+ c)).
  by rewrite IH.
Qed.

Lemma append_empty_r (a : string) : a +:+ "" = a.
Proof.
  induction a as [|x a IH]; [done|].
  change (String x (a +:+ "") = String x a). by rewrite IH.
Qed.

Lemma PrintAllItems_output t itemList w :
  stdout (PrintAllItems t itemList w).2 =
    stdout w +:+ String.concat "" (printedLine <$> itemList)
  ∧ files (PrintAllItems t itemList w).2 = files w.
Proof.
  split.
  - revert w. induction itemList as [|item l IH]; intros w.
    + simpl. by rewrite append_empty_r.
    + change (PrintAllItems t (item :: l) w)
        with (PrintAllItems t l (PrintItem t item w).2).
      rewrite IH. simpl stdout. rewrite append_assoc. f_equal.
      destruct l; simpl; [by rewrite append_empty_r | done].
  - revert w. induction itemList as [|item l IH]; intros w; [done|].
    change (PrintAllItems t (item :: l) w)
      with (PrintAllItems t l (PrintItem t item w).2).
    by rewrite IH.
Qed.

(** X13.  [PrintAllItems] prints the line of every item of the list, in the
    order of the list, and nothing else; it changes no file, and
    printing a list in two parts is printing the list. *)
Theorem PrintAllItems_prints_each t itemList w :
  stdout (PrintAllItems t itemList w).2 =
    stdout w +:+ String.concat "" (printedLine <$> itemList)
  ∧ files (PrintAllItems t itemList w).2 = files w
  ∧ forall before after,
      itemList = before ++ after ->
      PrintAllItems t itemList w =
        PrintAllItems t after (PrintAllItems t before w).2.
Proof.
  destruct (PrintAllItems_output t itemList w) as [Hs Hf].
  do 2 (split; [done|]).
  intros before after ->. clear Hs Hf. revert w.
  induction before as [|item l IH]; intros w; [done|].
  change (PrintAllItems t ((item :: l) ++ after) w)
    with (PrintAllItems t (l ++ after) (PrintItem t item w).2).
  by rewrite IH.
Qed.

Lemma initDB_quiet dbFileName w :
  quiet w ->
  exists w', initDB dbFileName w = (None, w')
    ∧ files w' = <[dbFileName := list_byte_of_string "[]"]> (files w)
    ∧ stdout w' = stdout w ∧ quiet w'.
Proof.
  intros Hq. unfold initDB, os_Create, os_OpenFile_trunc, File_Write, bind.
  destruct (nextOpen_quiet w Hq) as (w1 & -> & Hf1 & Hs1 & Hq1).
  unfold putFile at 1, ret at 1.
  match goal with |- context [nextWrite ?w] =>
    destruct (nextWrite_quiet w) as (w2 & -> & Hf2 & Hs2 & Hq2); [apply Hq1|] end.
  unfold getFile, putFile, ret. simpl in *.
  eexists. split; [reflexivity|]. simpl.
  rewrite Hf2, lookup_insert_eq, Hf1. simpl.
  rewrite insert_insert_eq, Hs2, Hs1. repeat split; apply Hq2.
Qed.

Lemma New_quiet dbFile w :
  quiet w ->
  exists w',
    New dbFile w = (Ok (mkToDo ∅ dbFile), w')
    ∧ files w' = match files w !! dbFile with
                 | Some _ => files w
                 | None => <[dbFile := list_byte_of_string "[]"]> (files w)
                 end
    ∧ stdout w' = stdout w ∧ quiet w'.
Proof.
  intros Hq. unfold New, os_Stat, bind.
  destruct (nextOpen_quiet w Hq) as (w1 & -> & Hf1 & Hs1 & Hq1).
  unfold getFile, ret. rewrite Hf1.
  destruct (files w !! dbFile) as [old|] eqn:E.
  - by exists w1.
  - destruct (initDB_quiet dbFile w1 Hq1) as (w2 & -> & Hf2 & Hs2 & Hq2).
    exists w2. rewrite Hf2, Hf1, Hs2, Hs1. done.
Qed.

(** X1.  [New] in a world where the system calls complete: it returns a store
    with an empty map that is bound to the file; a file that is missing
    is created with the text of the empty array, a file that is there is
    left as it is, whatever it holds. *)
Theorem New_creates_or_keeps dbFile w :
  quiet w ->
  exists w',
    New dbFile w = (Ok (mkToDo ∅ dbFile), w')
    ∧ files w' = match files w !! dbFile with
                 | Some _ => files w
                 | None => <[dbFile := list_byte_of_string "[]"]> (files w)
                 end
    ∧ stdout w' = stdout w.
Proof.
  intros Hq. destruct (New_quiet dbFile w Hq) as (w' & ? & ? & ? & _).
  by exists w'.
Qed.

(** X2.  [New] takes every error of [os.Stat] for a missing file.  When the
    call fails on a file that is there and the creation that follows
    succeeds, the file is emptied and holds the empty array. *)
Theorem New_after_failed_Stat dbFile w k rest :
  openFaults w = Fails k :: rest -> calm rest -> calm (writeFaults w) ->
  exists w',
    New dbFile w = (Ok (mkToDo ∅ dbFile), w')
    ∧ files w' = <[dbFile := list_byte_of_string "[]"]> (files w).
Proof.
  intros Hopen Hrest Hwrite.
  unfold New, os_Stat, initDB, os_Create, os_OpenFile_trunc, File_Write, bind,
    nextOpen, nextWrite, getFile, putFile, ret.
  rewrite Hopen. simpl.
  destruct (next_calm _ Hrest) as (rest1 & -> & _). simpl.
  destruct (next_calm _ Hwrite) as (rest2 & -> & _). simpl.
  eexists. split; [reflexivity|]. simpl.
  by rewrite lookup_insert_eq, insert_insert_eq.
Qed.

(** ** Operations that fail *)

Lemma loadDB_failed t w e t1 w1 :
  loadDB t w = (Some e, t1, w1) ->
  t1 = t ∧ files w1 = files w ∧ stdout w1 = stdout w.
Proof.
  intros Hload.
  pose proof (loadDB_readonly t w) as Hf. pose proof (loadDB_silent t w) as Hs.
  rewrite Hload in Hf, Hs. split; [|done]. revert Hload. unfold loadDB, bind.
  destruct (os_ReadFile (dbFileName t) w) as [[data|e0] w0]; [|by intros [= _ <- _]].
  destruct (json_Unmarshal_list data); [done | by intros [= _ <- _]].
Qed.

(** X3.  When [loadDB] fails, because the file is missing, cannot be read or
    does not parse, every operation fails with the error "Failed to load
    the database." in place of the error of the load; the store and the
    files are as they were and nothing is printed. *)
Theorem failed_load_fails_every_operation t w e t1 w1 :
  loadDB t w = (Some e, t1, w1) ->
  t1 = t ∧ files w1 = files w ∧ stdout w1 = stdout w
  ∧ (forall item,
       AddItem t item w = (Some (errors_New "Failed to load the database."), t, w1))
  ∧ (forall id,
       DeleteItem t id w = (Some (errors_New "Failed to load the database."), t, w1))
  ∧ (forall item,
       UpdateItem t item w = (Some (errors_New "Failed to load the database."), t, w1))
  ∧ (forall id,
       GetItem t id w =
         (zeroItem, Some (errors_New "Failed to load the database."), t, w1))
  ∧ GetAllItems t w = ([], Some (errors_New "Failed to load the database."), t, w1)
  ∧ (forall id value,
       ChangeItemDoneStatus t id value w =
         (Some (errors_New "Failed to load the database."), t, w1)).
Proof.
  intros Hload. destruct (loadDB_failed _ _ _ _ _ Hload) as (-> & Hf & Hs).
  do 3 (split; [done|]).
  unfold ChangeItemDoneStatus, AddItem, DeleteItem, UpdateItem, GetItem,
    GetAllItems, bind.
  rewrite Hload. done.
Qed.

(** A store whose file is missing cannot load. *)
Lemma loadDB_missing t w :
  files w !! dbFileName t = None ->
  exists e, (loadDB t w).1 = (Some e, t).
Proof.
  intros Hnone. unfold loadDB, os_ReadFile, os_Open, bind, nextOpen, getFile, ret.
  destruct (next (openFaults w)) as [[|k] rest]; simpl; [|by eexists].
  rewrite Hnone. by eexists.
Qed.

(** X4.  When the loaded collection has no item with the id, [GetItem]
    returns the zero item and an error whose message has the id. *)
Theorem GetItem_absent t w t1 w1 id :
  loadDB t w = (None, t1, w1) ->
  toDoMap t1 !! id = None ->
  exists err,
    GetItem t id w = (zeroItem, Some err, t1, w1)
    ∧ Error err = "Couldn't get item because the id " +:+ itoa id
                  +:+ " doesn't exist"
    ∧ contains (Error err) (itoa id) = true
    ∧ files w1 = files w.
Proof.
  intros Hload Habsent. eexists. unfold GetItem, bind.
  rewrite Hload, Habsent. split; [reflexivity|]. split; [reflexivity|].
  split; [apply contains_app|].
  pose proof (loadDB_readonly t w) as Hf. by rewrite Hload in Hf.
Qed.

(** X5.  When the loaded collection has no item with the id of the item,
    [UpdateItem] stores nothing: it fails with an error whose message
    has the id, the map is as the load left it and no file is changed. *)
Theorem UpdateItem_absent t w t1 w1 item :
  loadDB t w = (None, t1, w1) ->
  toDoMap t1 !! Id item = None ->
  exists err,
    UpdateItem t item w = (Some err, t1, w1)
    ∧ Error err = "Couldn't update item because the id " +:+ itoa (Id item)
                  +:+ " doesn't exist"
    ∧ contains (Error err) (itoa (Id item)) = true
    ∧ files w1 = files w.
Proof.
  intros Hload Habsent. eexists. unfold UpdateItem, bind.
  rewrite Hload, Habsent. split; [reflexivity|]. split; [reflexivity|].
  split; [apply contains_app|].
  pose proof (loadDB_readonly t w) as Hf. by rewrite Hload in Hf.
Qed.

(** X6.  [GetItem] and [GetAllItems] change no file and make no write, in
    every world and whatever they return. *)
Theorem reads_change_no_file t :
  (forall id, readonly (GetItem t id) ∧ writeless (GetItem t id))
  ∧ readonly (GetAllItems t) ∧ writeless (GetAllItems t).
Proof.
  assert (writeless (loadDB t)) as Hw by (unfold loadDB; frame).
  pose proof (loadDB_readonly t) as Hr.
  repeat split.
  - unfold GetItem. frame.
  - unfold GetItem. frame.
  - unfold GetAllItems. frame.
  - unfold GetAllItems. frame.
Qed.

(** ** Reading after a change *)

(** [GetItem] on a store whose file holds the items of its map. *)
Lemma GetItem_of_synced t w id :
  quiet w -> keyed (toDoMap t) -> synced t w ->
  exists w',
    GetItem t id w =
      (match toDoMap t !! id with
       | Some item => (item, None)
       | None =>
           (zeroItem,
            Some (errors_New ("Couldn't get item because the id " +:+ itoa id
                              +:+ " doesn't exist")))
       end, t, w')
    ∧ files w' = files w ∧ quiet w'.
Proof.
  intros Hq Hk Hsync.
  destruct (loadDB_synced t w Hq Hk Hsync) as (w' & Hload & Hf & _ & Hq').
  exists w'. unfold GetItem, bind. rewrite Hload.
  by destruct (toDoMap t !! id).
Qed.

(** Saving a map after a load that succeeded. *)
Lemma saved_after_load t w t1 w1 (m : DbMap) :
  quiet w -> loadDB t w = (None, t1, w1) ->
  roundTrips (mapRange m) ->
  exists w2,
    saveDB (mkToDo m (dbFileName t1)) w1 = (None, w2)
    ∧ synced (mkToDo m (dbFileName t1)) w2 ∧ quiet w2.
Proof.
  intros Hq Hload Hrt.
  pose proof (loadDB_steady t w Hq) as Hq1. rewrite Hload in Hq1.
  destruct (saveDB_synced (mkToDo m (dbFileName t1)) w1 Hq1 Hrt)
    as (w2 & Hsave & Hsync & _ & Hq2).
  by exists w2.
Qed.

(** X7.  [GetAllItems] after a load that succeeded returns the items of the
    loaded map, each one once, in some order. *)
Theorem GetAllItems_lists_map t w t1 w1 :
  loadDB t w = (None, t1, w1) ->
  exists l,
    GetAllItems t w = (l, None, t1, w1)
    ∧ l ≡ₚ (map_to_list (toDoMap t1)).*2
    ∧ length l = size (toDoMap t1)
    ∧ (forall item, item ∈ l <-> exists id, toDoMap t1 !! id = Some item)
    ∧ (keyed (toDoMap t) -> NoDup (Id <$> l))
    ∧ files w1 = files w.
Proof.
  intros Hload. exists (mapRange (toDoMap t1)).
  unfold GetAllItems, bind. rewrite Hload. split; [done|].
  split; [apply mapRange_perm|]. split.
  { rewrite (mapRange_perm (toDoMap t1)), length_fmap. apply length_map_to_list. }
  split; [apply elem_of_mapRange|]. split.
  - intros Hk. apply NoDup_mapRange.
    pose proof (loadDB_keyed t w Hk) as Hk1. by rewrite Hload in Hk1.
  - pose proof (loadDB_readonly t w) as Hf. by rewrite Hload in Hf.
Qed.

(** X8.  After an [AddItem] that succeeds, [GetAllItems] returns the new item
    and the items that were there, in some order. *)
Theorem AddItem_then_GetAllItems t w t1 w1 item :
  quiet w -> keyed (toDoMap t) ->
  loadDB t w = (None, t1, w1) ->
  toDoMap t1 !! Id item = None ->
  roundTrips (mapRange (<[Id item := item]> (toDoMap t1))) ->
  exists t2 w2 l w3,
    AddItem t item w = (None, t2, w2)
    ∧ GetAllItems t2 w2 = (l, None, t2, w3)
    ∧ l ≡ₚ item :: (map_to_list (toDoMap t1)).*2
    ∧ length l = S (size (toDoMap t1)).
Proof.
  intros Hq Hk Hload Hfresh Hrt.
  destruct (store_quiet t w t1 w1 item Hq Hk Hload Hrt)
    as (w2 & Hsave & Hsync & Hq2 & Hk2 & _).
  destruct (loadDB_synced _ w2 Hq2 Hk2 Hsync) as (w3 & Hload2 & _).
  eexists _, w2, _, w3. split.
  { unfold AddItem, bind. rewrite Hload, Hfresh. by rewrite Hsave. }
  split.
  { unfold GetAllItems, bind. by rewrite Hload2. }
  simpl.
  assert (mapRange (<[Id item:=item]> (toDoMap t1))
            ≡ₚ item :: (map_to_list (toDoMap t1)).*2) as Hperm.
  { rewrite mapRange_perm, map_to_list_insert by done. done. }
  split; [done|]. rewrite Hperm. simpl.
  by rewrite length_fmap, length_map_to_list.
Qed.

(** X9.  After a [DeleteItem] that succeeds, the id is gone: [GetItem]
    returns the zero item and the error of a missing id; the other items
    are read as before. *)
Theorem DeleteItem_then_GetItem t w t1 w1 id old :
  quiet w -> keyed (toDoMap t) ->
  loadDB t w = (None, t1, w1) ->
  toDoMap t1 !! id = Some old ->
  roundTrips (mapRange (delete id (toDoMap t1))) ->
  exists t2 w2,
    DeleteItem t id w = (None, t2, w2)
    ∧ toDoMap t2 = delete id (toDoMap t1)
    ∧ (exists w3,
         GetItem t2 id w2 =
           (zeroItem,
            Some (errors_New ("Couldn't get item because the id " +:+ itoa id
                              +:+ " doesn't exist")), t2, w3))
    ∧ (forall j other,
         j ≠ id -> toDoMap t1 !! j = Some other ->
         exists w3, GetItem t2 j w2 = (other, None, t2, w3)).
Proof.
  intros Hq Hk Hload Hold Hrt.
  pose proof (loadDB_keyed t w Hk) as Hk1. rewrite Hload in Hk1. simpl in Hk1.
  destruct (saved_after_load t w t1 w1 _ Hq Hload Hrt) as (w2 & Hsave & Hsync & Hq2).
  assert (keyed (delete id (toDoMap t1))) as Hk2 by by apply keyed_delete.
  eexists _, w2. split.
  { unfold DeleteItem, bind. rewrite Hload, Hold. by rewrite Hsave. }
  split; [done|]. split.
  - destruct (GetItem_of_synced (mkToDo _ _) w2 id Hq2 Hk2 Hsync) as (w3 & Hget & _).
    exists w3. rewrite Hget. simpl. by rewrite lookup_delete_eq.
  - intros j other Hj Hother.
    destruct (GetItem_of_synced (mkToDo _ _) w2 j Hq2 Hk2 Hsync) as (w3 & Hget & _).
    exists w3. rewrite Hget. simpl.
    by rewrite lookup_delete_ne, Hother by done.
Qed.

(** X10.  An [UpdateItem] that succeeds changes the item of its id only: the
    items of the other ids are read as before. *)
Theorem UpdateItem_keeps_others t w t1 w1 item old :
  quiet w -> keyed (toDoMap t) ->
  loadDB t w = (None, t1, w1) ->
  toDoMap t1 !! Id item = Some old ->
  roundTrips (mapRange (<[Id item := item]> (toDoMap t1))) ->
  exists t2 w2,
    UpdateItem t item w = (None, t2, w2)
    ∧ size (toDoMap t2) = size (toDoMap t1)
    ∧ (forall j other,
         j ≠ Id item -> toDoMap t1 !! j = Some other ->
         exists w3, GetItem t2 j w2 = (other, None, t2, w3)).
Proof.
  intros Hq Hk Hload Hold Hrt.
  destruct (store_quiet t w t1 w1 item Hq Hk Hload Hrt)
    as (w2 & Hsave & Hsync & Hq2 & Hk2 & _).
  eexists _, w2. split.
  { unfold UpdateItem, bind. rewrite Hload, Hold. by rewrite Hsave. }
  split.
  { simpl. apply map_size_insert_Some. by rewrite Hold. }
  intros j other Hj Hother.
  destruct (GetItem_of_synced _ w2 j Hq2 Hk2 Hsync) as (w3 & Hget & _).
  exists w3. rewrite Hget. simpl.
  by rewrite lookup_insert_ne, Hother by done.
Qed.

(** X11.  A [GetItem] that found the item finds it again: a second load of the
    same file changes nothing. *)
Theorem GetItem_repeatable t w id item t1 w1 :
  quiet w ->
  GetItem t id w = (item, None, t1, w1) ->
  exists w2, GetItem t1 id w1 = (item, None, t1, w2) ∧ files w2 = files w.
Proof.
  intros Hq Hget. destruct (GetItem_inv _ _ _ _ _ _ Hget) as [Hload Hid].
  destruct (loadDB_again t w t1 w1 Hq Hload) as (w2 & Hload2 & Hf2 & _).
  exists w2. unfold GetItem, bind. rewrite Hload2, Hid. split; [done|].
  pose proof (loadDB_readonly t w) as Hf. rewrite Hload in Hf.
  simpl in Hf. congruence.
Qed.

(** ** A save that fails *)

Lemma os_WriteFile_failed_open path data w k rest :
  openFaults w = Fails k :: rest ->
  exists w', os_WriteFile path data w = (Some (PathError "open" path EIO), w')
    ∧ files w' = files w.
Proof.
  intros Hopen. unfold os_WriteFile, os_OpenFile_trunc, bind, nextOpen.
  rewrite Hopen. by eexists.
Qed.

Lemma os_WriteFile_failed_write path data w k rest :
  calm (openFaults w) -> writeFaults w = Fails k :: rest ->
  exists w', os_WriteFile path data w = (Some (PathError "write" path EIO), w')
    ∧ files w' = <[path := take k data]> (files w).
Proof.
  intros Hopen Hwrite.
  unfold os_WriteFile, os_OpenFile_trunc, File_Write, bind, nextOpen, nextWrite,
    getFile, putFile, ret.
  destruct (next_calm _ Hopen) as (rest1 & -> & _). simpl.
  rewrite Hwrite. simpl. eexists. split; [reflexivity|]. simpl.
  by rewrite lookup_insert_eq, insert_insert_eq.
Qed.

(** X12.  An [AddItem] whose save fails returns "Failed to save to the
    database." and leaves the item in the map of the store.  When the
    file could not be opened it is as it was; when the write failed
    after [k] bytes the file holds the first [k] bytes of the new text
    and what it held before is lost. *)
Theorem AddItem_failed_save t w t1 w1 item data :
  loadDB t w = (None, t1, w1) ->
  toDoMap t1 !! Id item = None ->
  json_MarshalIndent (mapRange (<[Id item := item]> (toDoMap t1))) = Ok data ->
  (forall k rest,
     openFaults w1 = Fails k :: rest ->
     exists w2,
       AddItem t item w =
         (Some (errors_New "Failed to save to the database."),
          mkToDo (<[Id item := item]> (toDoMap t1)) (dbFileName t), w2)
       ∧ files w2 = files w)
  ∧ (forall k rest,
       calm (openFaults w1) -> writeFaults w = Fails k :: rest ->
       exists w2,
         AddItem t item w =
           (Some (errors_New "Failed to save to the database."),
            mkToDo (<[Id item := item]> (toDoMap t1)) (dbFileName t), w2)
         ∧ files w2 = <[dbFileName t := take k data]> (files w)).
Proof.
  intros Hload Hfresh Hjson.
  pose proof (loadDB_readonly t w) as Hf. pose proof (loadDB_name t w) as Hn.
  assert (writeless (loadDB t)) as Hw by (unfold loadDB; frame).
  specialize (Hw w). rewrite Hload in Hf, Hn, Hw. simpl in Hf, Hn, Hw.
  split.
  - intros k rest Hopen.
    destruct (os_WriteFile_failed_open (dbFileName t) data w1 k rest Hopen)
      as (w2 & Hwrite & Hf2).
    exists w2. split; [|congruence].
    unfold AddItem, bind. rewrite Hload, Hfresh.
    unfold saveDB, bind. simpl. rewrite Hjson, Hn, Hwrite. done.
  - intros k rest Hopen Hfault. rewrite <- Hw in Hfault.
    destruct (os_WriteFile_failed_write (dbFileName t) data w1 k rest Hopen Hfault)
      as (w2 & Hwrite & Hf2).
    exists w2. split; [|congruence].
    unfold AddItem, bind. rewrite Hload, Hfresh.
    unfold saveDB, bind. simpl. rewrite Hjson, Hn, Hwrite. done.
Qed.

End Lifecycle.

(** ** Restoring, case by case *)

Section Restoring.
Context `{JsonCodec} `{MapOrder}.

(** In a world where the system calls complete the loop copies to the
    end and leaves such a world. *)
Lemma copyLoop_quiet dbFile dbFileName backupFileName backupFile w :
  quiet w ->
  (copyLoop dbFile dbFileName backupFileName backupFile w).1 = None
  ∧ quiet (copyLoop dbFile dbFileName backupFileName backupFile w).2.
Proof.
  remember (length (unread backupFile)) as n eqn:Hn.
  revert backupFile w Hn.
  induction n as [n IH] using lt_wf_ind. intros f w -> Hq.
  rewrite copyLoop_body.
  destruct (File_Read f 1024 w) as [[[buffer f'] err] w1] eqn:Hread.
  assert (readFailed err = false ∧ quiet w1) as [Herr Hq1].
  { revert Hread. unfold File_Read, bind.
    destruct (nextRead_quiet w Hq) as (w0 & -> & _ & _ & Hq0).
    destruct (unread f); by intros [= <- <- <- <-]. }
  rewrite Herr.
  destruct buffer as [|b bs].
  - simpl. split; [done|]. apply Hq1.
  - assert (length (unread f') < length (unread f))%nat as Hlt.
    { eapply File_Read_advances; [exact Hread | done | lia]. }
    destruct (File_Write dbFile (b :: bs) w1) as [[k werr] w2] eqn:Hwrite.
    assert (werr = None ∧ quiet w2) as [-> Hq2].
    { revert Hwrite. unfold File_Write, bind.
      destruct (nextWrite_quiet w1 Hq1) as (w0 & -> & _ & _ & Hq0).
      unfold getFile, putFile, ret. intros [= <- <- <-]. split; [done|].
      apply Hq0. }
    by apply (IH _ Hlt).
Qed.

Lemma RestoreDB_quiet t w backup :
  quiet w ->
  files w !! (dbFileName t +:+ ".bak") = Some backup ->
  exists w1,
    RestoreDB t w = (None, w1)
    ∧ files w1 = <[dbFileName t := backup]> (files w)
    ∧ quiet w1.
Proof.
  intros Hq Hbak.
  assert (exists w1, RestoreDB t w = (None, w1) ∧ quiet w1) as (w1 & Hrun & Hq1).
  { unfold RestoreDB, os_OpenFile_trunc, os_Open, bind.
    destruct (nextOpen_quiet w Hq) as (wa & -> & Hfa & _ & Hqa).
    unfold putFile at 1, ret at 1.
    match goal with |- context [nextOpen ?w0] =>
      destruct (nextOpen_quiet w0) as (wb & -> & Hfb & _ & Hqb); [apply Hqa|] end.
    unfold getFile, ret. simpl in Hfb. rewrite Hfb.
    rewrite lookup_insert_ne by apply backup_name_fresh. rewrite Hfa, Hbak.
    match goal with |- context [copyLoop ?a ?b ?c ?d ?e] =>
      destruct (copyLoop_quiet a b c d e Hqb) as [Hr Hq'];
      destruct (copyLoop a b c d e) as [[e0|] w'] end; simpl in *; [done|].
    by exists w'. }
  exists w1. split; [done|]. split; [|done].
  destruct (RestoreDB_calm t w None w1 (proj2 (proj2 Hq)) Hrun)
    as (backup' & Hbak' & Hf & _).
  congruence.
Qed.

(** X15.  In a world where the system calls complete and the backup is there,
    [RestoreDB] returns no error; the file of the store then holds the
    bytes of the backup, whether or not it was there before and whatever
    it held, and no other file is changed.  Restoring once more changes
    nothing. *)
Theorem RestoreDB_succeeds t w backup :
  quiet w ->
  files w !! (dbFileName t +:+ ".bak") = Some backup ->
  exists w1,
    RestoreDB t w = (None, w1)
    ∧ files w1 = <[dbFileName t := backup]> (files w)
    ∧ exists w2, RestoreDB t w1 = (None, w2) ∧ files w2 = files w1.
Proof.
  intros Hq Hbak.
  destruct (RestoreDB_quiet t w backup Hq Hbak) as (w1 & Hrun & Hf & Hq1).
  exists w1. do 2 (split; [done|]).
  destruct (RestoreDB_quiet t w1 backup Hq1) as (w2 & Hrun2 & Hf2 & _).
  { rewrite Hf. by rewrite lookup_insert_ne by apply backup_name_fresh. }
  exists w2. split; [done|]. by rewrite Hf2, Hf, insert_insert_eq.
Qed.

Lemma RestoreDB_missing_backup t w :
  calm (openFaults w) ->
  files w !! (dbFileName t +:+ ".bak") = None ->
  exists w1,
    RestoreDB t w =
      (Some (errors_New ("failed to open " +:+ dbFileName t +:+ ".bak")), w1)
    ∧ files w1 = <[dbFileName t := []]> (files w)
    ∧ stdout w1 = stdout w
    ∧ (quiet w -> quiet w1).
Proof.
  intros Hcalm Hnone.
  unfold RestoreDB, os_OpenFile_trunc, os_Open, bind,
    nextOpen, putFile, getFile, ret. simpl.
  destruct (next_calm _ Hcalm) as (rest1 & -> & Hcalm1). simpl.
  destruct (next_calm _ Hcalm1) as (rest2 & -> & Hcalm2). simpl.
  rewrite lookup_insert_ne by apply backup_name_fresh. rewrite Hnone.
  eexists. do 3 (split; [reflexivity|]).
  intros (_ & Hr & Hw). by repeat split.
Qed.

(** X16.  When the file of the store cannot be opened, [RestoreDB] fails and
    changes no file.  When the backup is missing, [RestoreDB] fails with
    an error that names the backup, and the file of the store has been
    emptied by then. *)
Theorem RestoreDB_open_failures t w :
  (forall k rest,
     openFaults w = Fails k :: rest ->
     exists w1,
       RestoreDB t w =
         (Some (errors_New ("failed to open " +:+ dbFileName t)), w1)
       ∧ files w1 = files w ∧ stdout w1 = stdout w)
  ∧ (calm (openFaults w) ->
     files w !! (dbFileName t +:+ ".bak") = None ->
     exists w1,
       RestoreDB t w =
         (Some (errors_New ("failed to open " +:+ dbFileName t +:+ ".bak")), w1)
       ∧ files w1 = <[dbFileName t := []]> (files w)
       ∧ stdout w1 = stdout w).
Proof.
  split.
  - intros k rest Hopen. unfold RestoreDB, os_OpenFile_trunc, bind, nextOpen.
    rewrite Hopen. by eexists.
  - intros Hcalm Hnone.
    destruct (RestoreDB_missing_backup t w Hcalm Hnone) as (w1 & ? & ? & ? & _).
    by exists w1.
Qed.

(** The loop when no write fails and a read does: the file written to
    holds what it held and then the chunks that were copied before the
    read failed. *)
Lemma copyLoop_partial dbFile dbFileName backupFileName backupFile w e w' pre :
  calm (writeFaults w) ->
  files w !! fname dbFile = Some pre ->
  copyLoop dbFile dbFileName backupFileName backupFile w = (Some e, w') ->
  exists j : nat,
    files w' =
      <[fname dbFile := pre ++ take (1024 * j) (unread backupFile)]> (files w).
Proof.
  remember (length (unread backupFile)) as n eqn:Hn.
  revert backupFile w pre Hn.
  induction n as [n IH] using lt_wf_ind. intros f w pre -> Hcalm Hpre.
  rewrite copyLoop_body.
  destruct (File_Read f 1024 w) as [[[buffer f'] err] w1] eqn:Hread.
  pose proof (File_Read_readonly f 1024 w) as Hfiles.
  pose proof (File_Read_writeless f 1024 w) as Hfaults.
  rewrite Hread in Hfiles, Hfaults. simpl in Hfiles, Hfaults.
  destruct (readFailed err) eqn:Herr.
  { intros [= <- <-]. exists 0%nat. rewrite Nat.mul_0_r, take_0, app_nil_r, Hfiles.
    symmetry. by apply insert_id. }
  destruct (File_Read_ok _ _ _ _ _ _ _ Hread Herr) as (Hbuf & Hrest & Hend); [lia|].
  destruct buffer as [|b bs]; [done|].
  destruct (File_Write_calm dbFile (b :: bs) w1) as (w2 & -> & Hf2 & Hs2 & Hc2);
    [by rewrite Hfaults|].
  intros Hloop.
  assert (files w2 !! fname dbFile = Some (pre ++ b :: bs)) as Hpre2.
  { rewrite Hf2, lookup_insert_eq, Hfiles, Hpre. done. }
  assert (length (unread f') < length (unread f))%nat as Hlt.
  { eapply File_Read_advances; [exact Hread | done | lia]. }
  destruct (IH _ Hlt f' w2 _ eq_refl Hc2 Hpre2 Hloop) as [j Hj].
  exists (S j). rewrite Hj, Hf2, Hfiles, Hpre. simpl default.
  rewrite insert_insert_eq. f_equal.
  rewrite <- app_assoc. f_equal. rewrite Hbuf, Hrest.
  replace (1024 * S j)%nat with (1024 + 1024 * j)%nat by lia.
  by rewrite take_take_drop.
Qed.

(** X17.  When the files open, no write fails and [RestoreDB] still returns an
    error, a read of the backup has failed: the error says so, nothing
    is printed, and the file of the store is left with the chunks of
    1024 bytes that were copied before, a prefix of the backup. *)
Theorem RestoreDB_failed_read t w e w1 backup :
  calm (openFaults w) -> calm (writeFaults w) ->
  files w !! (dbFileName t +:+ ".bak") = Some backup ->
  RestoreDB t w = (Some e, w1) ->
  e = errors_New ("failed to read from " +:+ dbFileName t +:+ ".bak")
  ∧ stdout w1 = stdout w
  ∧ exists j : nat,
      files w1 = <[dbFileName t := take (1024 * j) backup]> (files w).
Proof.
  intros Hopen Hwrite Hbak Hrun.
  pose proof (RestoreDB_calm t w (Some e) w1 Hwrite Hrun) as Hout.
  revert Hrun.
  unfold RestoreDB, os_OpenFile_trunc, os_Open, bind, nextOpen, putFile,
    getFile, ret. simpl.
  destruct (next_calm _ Hopen) as (rest1 & -> & Hcalm1). simpl.
  destruct (next_calm _ Hcalm1) as (rest2 & -> & _). simpl.
  rewrite lookup_insert_ne by apply backup_name_fresh. rewrite Hbak.
  match goal with |- context [copyLoop ?a ?b ?c ?d ?w0] =>
    pose proof (copyLoop_errors a b c d w0) as Herr;
    pose proof (copyLoop_partial a b c d w0) as Hpart;
    destruct (copyLoop a b c d w0) as [[e0|] w'] end; [|done].
  intros [= <- <-]. simpl in Herr. destruct Herr as [|[= ->]]; [done|].
  split; [done|]. split; [done|].
  destruct (Hpart (errors_New ("failed to read from " +:+ dbFileName t +:+ ".bak"))
              w' [] Hwrite) as [j Hj];
    [apply lookup_insert_eq | reflexivity |].
  exists j. rewrite Hj. simpl. by rewrite insert_insert_eq.
Qed.

(** The values of the map that [loadDB] builds from a list without two
    items of the same id, on an empty map. *)
Lemma foldl_putItem_values (l : list ToDoItem) :
  NoDup (Id <$> l) -> (map_to_list (foldl putItem ∅ l)).*2 ≡ₚ l.
Proof.
  induction l as [|x l IH] using rev_ind; intros Hnd.
  - simpl. by rewrite map_to_list_empty.
  - rewrite fmap_app in Hnd. apply NoDup_app in Hnd as (Hl & Hx & _).
    rewrite foldl_snoc. unfold putItem at 1.
    rewrite map_to_list_insert.
    + rewrite fmap_cons, IH by done. simpl. apply Permutation_cons_append.
    + rewrite foldl_putItem_fresh; [apply lookup_empty|].
      intros y Hy E. apply (Hx (Id y)).
      * apply list_elem_of_fmap. eauto.
      * rewrite E. simpl. left.
Qed.

(** X18.  Restoring, then listing with a store that holds nothing yet: the
    items of the backup, in some order. *)
Theorem RestoreDB_then_GetAllItems t w backup toDoList :
  quiet w -> toDoMap t = ∅ ->
  files w !! (dbFileName t +:+ ".bak") = Some backup ->
  json_Unmarshal_list backup = Ok toDoList ->
  NoDup (Id <$> toDoList) ->
  exists w1 l t2 w2,
    RestoreDB t w = (None, w1)
    ∧ GetAllItems t w1 = (l, None, t2, w2)
    ∧ l ≡ₚ toDoList.
Proof.
  intros Hq Hempty Hbak Hjson Hnd.
  destruct (RestoreDB_quiet t w backup Hq Hbak) as (w1 & Hrun & Hf & Hq1).
  destruct (loadDB_quiet t w1 backup toDoList Hq1) as (w2 & Hload & _);
    [by rewrite Hf, lookup_insert_eq | done |].
  eexists w1, _, _, w2. split; [done|]. split.
  { unfold GetAllItems, bind. by rewrite Hload. }
  simpl. rewrite mapRange_perm, Hempty. by apply foldl_putItem_values.
Qed.

End Restoring.

(** ** The store on the codec of the model *)

Section OnDisk.
Context `{MapOrder}.

Lemma mapRange_empty : mapRange (∅ : DbMap) = [].
Proof.
  apply Permutation_nil_r. rewrite (mapRange_perm ∅).
  by rewrite map_to_list_empty.
Qed.

(** X19.  A file without a byte is not a database: [New] takes it as it is
    and every load of it fails.  [RestoreDB] leaves such a file when the
    backup is missing, so that the store is of no use until a backup is
    restored. *)
Theorem RestoreDB_without_backup_breaks_the_store t w :
  quiet w ->
  files w !! (dbFileName t +:+ ".bak") = None ->
  exists e w1 t2 w2 w3,
    RestoreDB t w = (Some e, w1)
    ∧ files w1 !! dbFileName t = Some []
    ∧ New (dbFileName t) w1 = (Ok t2, w2)
    ∧ files w2 !! dbFileName t = Some []
    ∧ GetAllItems t2 w2 =
        ([], Some (errors_New "Failed to load the database."), t2, w3).
Proof.
  intros Hq Hnone.
  destruct (RestoreDB_missing_backup t w (proj1 Hq) Hnone)
    as (w1 & Hrun & Hf1 & _ & Hq1).
  specialize (Hq1 Hq).
  assert (files w1 !! dbFileName t = Some []) as Hfile
    by (rewrite Hf1; apply lookup_insert_eq).
  destruct (New_quiet (dbFileName t) w1 Hq1) as (w2 & Hnew & Hf2 & _ & Hq2).
  rewrite Hfile in Hf2.
  destruct (os_ReadFile_quiet (dbFileName t) w2 [] Hq2) as (w3 & Hread & _);
    [by rewrite Hf2|].
  eexists _, w1, _, w2, w3. split; [exact Hrun|]. split; [done|].
  split; [exact Hnew|]. split; [by rewrite Hf2|].
  unfold GetAllItems, loadDB, bind. simpl. by rewrite Hread.
Qed.

(** X20.  [saveDB] writes a map without items as [null], not as an empty
    array: after a [DeleteItem] of the only item the file holds the four
    bytes of [null], which [loadDB] reads as no item. *)
Theorem DeleteItem_last_item_writes_null t w t1 w1 id item :
  quiet w ->
  loadDB t w = (None, t1, w1) ->
  toDoMap t1 = {[ id := item ]} ->
  exists t2 w2 w3,
    DeleteItem t id w = (None, t2, w2)
    ∧ files w2 !! dbFileName t = Some (list_byte_of_string "null")
    ∧ GetAllItems t2 w2 = ([], None, t2, w3).
Proof.
  intros Hq Hload Hone.
  pose proof (loadDB_steady t w Hq) as Hq1.
  pose proof (loadDB_name t w) as Hn.
  rewrite Hload in Hq1, Hn. simpl in Hq1, Hn.
  assert (delete id (toDoMap t1) = ∅) as Hgone
    by (rewrite Hone; apply delete_singleton_eq).
  destruct (saveDB_quiet (mkToDo (delete id (toDoMap t1)) (dbFileName t1)) w1
              (list_byte_of_string "null") Hq1) as (w2 & Hsave & Hf2 & _ & Hq2).
  { simpl. by rewrite Hgone, mapRange_empty. }
  simpl in Hf2.
  destruct (loadDB_quiet (mkToDo (delete id (toDoMap t1)) (dbFileName t1)) w2
              (list_byte_of_string "null") [] Hq2) as (w3 & Hload2 & _).
  { simpl. rewrite Hf2. apply lookup_insert_eq. }
  { reflexivity. }
  eexists _, w2, w3. split.
  { unfold DeleteItem, bind. rewrite Hload, Hone, lookup_singleton_eq.
    by rewrite <- Hone, Hsave. }
  split; [by rewrite Hf2, <- Hn, lookup_insert_eq|].
  unfold GetAllItems, bind. rewrite Hload2. simpl.
  by rewrite Hgone, mapRange_empty.
Qed.

(** X21.  What [AddItem] has saved is what a store that starts on the file
    finds: for items whose ids fit an [int] of 64 bits and whose titles
    are ASCII, a [GetItem] from a new store bound to the file returns,
    for every id, the item that the map of the first store holds. *)
Theorem AddItem_persists t w t1 w1 item :
  quiet w -> keyed (toDoMap t) ->
  loadDB t w = (None, t1, w1) ->
  toDoMap t1 !! Id item = None ->
  plainItem item ->
  (forall id x, toDoMap t1 !! id = Some x -> plainItem x) ->
  exists t2 w2,
    AddItem t item w = (None, t2, w2)
    ∧ toDoMap t2 = <[Id item := item]> (toDoMap t1)
    ∧ forall id x,
        toDoMap t2 !! id = Some x ->
        exists t3 w3,
          GetItem (mkToDo ∅ (dbFileName t)) id w2 = (x, None, t3, w3)
          ∧ toDoMap t3 = toDoMap t2.
Proof.
  intros Hq Hk Hload Hfresh Hitem Hplain.
  pose proof (loadDB_name t w) as Hn. rewrite Hload in Hn. simpl in Hn.
  destruct (store_quiet t w t1 w1 item Hq Hk Hload)
    as (w2 & Hsave & (data & Hfile & Hjson) & Hq2 & Hk2 & _).
  { apply CodecFacts.plain_roundTrips, Forall_forall. intros x Hx.
    apply elem_of_mapRange in Hx as (id & Hx). revert Hx.
    rewrite lookup_insert. case_decide; [by intros [= <-] | apply Hplain]. }
  simpl in Hfile, Hk2. rewrite Hn in Hfile.
  eexists _, w2. split.
  { unfold AddItem, bind. rewrite Hload, Hfresh. by rewrite Hsave. }
  split; [done|]. simpl. intros id x Hx.
  destruct (loadDB_quiet (mkToDo ∅ (dbFileName t)) w2 data _ Hq2 Hfile Hjson)
    as (w3 & Hload3 & _).
  eexists _, w3. unfold GetItem, bind. rewrite Hload3. simpl.
  rewrite foldl_putItem_mapRange, map_union_empty by done.
  by rewrite Hx.
Qed.

End OnDisk.

(** ** Printing an item and reading it back *)

Module PrintedItem.
Import GoJson.

#[local] Arguments scanQuoted : simpl never.
#[local] Arguments scanNumber : simpl never.
#[local] Arguments escapeString : simpl never.
#[local] Arguments quoted : simpl never.
#[local] Arguments itoa : simpl never.
#[local] Arguments parseValue : simpl never.
#[local] Arguments parseElements : simpl never.
#[local] Arguments parseMembers : simpl never.

Lemma parseValue_printed n item rest :
  asciiBytes (bytes (Title item)) ->
  parseValue (S (S (S (S (S n))))) 0 (encodeItemAt [] item ++ rest)
  = Some (Object (membersOf item), rest).
Proof.
  intros Htitle. unfold encodeItemAt.
  rewrite CodecFacts.quoted_id, CodecFacts.quoted_title, CodecFacts.quoted_done.
  rewrite <- !app_assoc. simpl.
  erewrite CodecFacts.parseValue_object; [|reflexivity|done].
  erewrite CodecFacts.parseMembers_step;
    [|reflexivity|reflexivity|reflexivity
     |rewrite CodecFacts.parseValue_space by reflexivity;
      apply CodecFacts.parseValue_itoa; reflexivity
     |reflexivity].
  simpl.
  erewrite CodecFacts.parseMembers_step;
    [|reflexivity|reflexivity|reflexivity
     |rewrite CodecFacts.parseValue_space by reflexivity;
      by apply CodecFacts.parseValue_quoted
     |reflexivity].
  simpl.
  erewrite CodecFacts.parseMembers_step;
    [|reflexivity|reflexivity|reflexivity
     |rewrite CodecFacts.parseValue_space by reflexivity;
      apply CodecFacts.parseValue_bool
     |reflexivity].
  reflexivity.
Qed.

Lemma Unmarshal_item_printed item :
  plainItem item -> Unmarshal_item (encodeItemAt [] item) = Ok item.
Proof.
  intros [Hid Htitle]. unfold Unmarshal_item, parseJSON.
  set (data := encodeItemAt [] item).
  rewrite (proj1 (ReaderFacts.parse_fuel (2 * length data + 2))
             (S (S (S (S (S (2 * length data + 2)))))) 0%N data) by lia.
  subst data.
  rewrite <- (app_nil_r (encodeItemAt [] item)) at 2.
  rewrite parseValue_printed by done. cbn [skipSpace].
  by rewrite CodecFacts.storeItem_members.
Qed.

(** X22.  The text that [PrintItem] prints for an item is a text that
    [JsonToItem] reads, and it reads the item back, when the id fits an
    [int] of 64 bits and the title is ASCII. *)
Theorem JsonToItem_reads_PrintItem t item w :
  plainItem item ->
  exists text,
    stdout (PrintItem t item w).2 = stdout w +:+ text +:+ newline
    ∧ files (PrintItem t item w).2 = files w
    ∧ JsonToItem text = (item, None).
Proof.
  intros Hplain. exists (string_of_list_byte (encodeItemAt [] item)).
  split; [reflexivity|]. split; [reflexivity|].
  unfold JsonToItem, json_Unmarshal_item, codec.
  rewrite list_byte_of_string_of_list_byte.
  by rewrite Unmarshal_item_printed.
Qed.

End PrintedItem.

(** ** The command line *)

Lemma foldl_visitFlag init names :
  foldl visitFlag init names =
    match last names with
    | Some name => visitFlag INVALID_APP_OPT name
    | None => init
    end.
Proof.
  induction names as [|name names IH] using rev_ind; [done|].
  by rewrite foldl_snoc, last_snoc.
Qed.

Lemma visitFlag_known name :
  visitFlag INVALID_APP_OPT name ≠ NOT_IMPLEMENTED
  ∧ (visitFlag INVALID_APP_OPT name ≠ INVALID_APP_OPT <->
     name ∈ ["list"; "restore"; "query"; "add"; "update"; "delete"; "status"]%string).
Proof.
  unfold visitFlag.
  repeat match goal with
  | |- context [String.eqb name ?s] =>
      destruct (String.eqb_spec name s) as [->|?];
        [split; [done|]; split; [intros _|done];
         repeat (apply elem_of_cons; ((left; reflexivity) || right))|]
  end.
  split; [done|]. split; [done|]. intros Hin.
  repeat (apply elem_of_cons in Hin as [->|Hin]; [done|]).
  by apply elem_of_nil in Hin.
Qed.

(** X23.  Given arguments on the line, [processCmdLineFlags] decides by the last
    flag that [Visit] goes through, whatever the flags before it: the
    option is the one of that flag, and there is an error exactly when
    that flag is none of the seven flags of an operation or when no flag
    was set.  No file is changed. *)
Theorem processCmdLineFlags_last_flag osArgs cmd w :
  length osArgs ≠ 1%nat ->
  (processCmdLineFlags osArgs cmd w).1.1 =
    match last (visited cmd) with
    | Some name => visitFlag INVALID_APP_OPT name
    | None => INVALID_APP_OPT
    end
  ∧ ((processCmdLineFlags osArgs cmd w).1.2 = None <->
     exists name,
       last (visited cmd) = Some name
       ∧ name ∈ ["list"; "restore"; "query"; "add"; "update"; "delete";
                 "status"]%string)
  ∧ files (processCmdLineFlags osArgs cmd w).2 = files w.
Proof.
  intros Hargs. unfold processCmdLineFlags.
  destruct (Nat.eqb_spec (length osArgs) 1) as [|_]; [done|].
  rewrite foldl_visitFlag.
  destruct (last (visited cmd)) as [name|].
  - destruct (visitFlag_known name) as [Hni Hinv].
    destruct (decide (visitFlag INVALID_APP_OPT name = INVALID_APP_OPT)) as [E|NE].
    + rewrite E. simpl. split; [done|]. split; [|done]. split; [done|].
      intros (name' & [= <-] & Hin). by apply Hinv in Hin.
    + rewrite bool_decide_eq_false_2, bool_decide_eq_false_2 by done. simpl.
      split; [done|]. split; [|done]. split; [|done]. intros _.
      exists name. split; [done|]. by apply Hinv.
  - simpl. split; [done|]. split; [|done]. split; [done|].
    by intros (name & ? & _).
Qed.

Lemma processCmdLineFlags_readonly osArgs cmd :
  readonly (processCmdLineFlags osArgs cmd).
Proof.
  intros w. unfold processCmdLineFlags.
  destruct (length osArgs =? 1)%nat; [done|].
  by destruct (_ || _).
Qed.

Lemma processCmdLineFlags_accepts osArgs cmd w name :
  length osArgs ≠ 1%nat ->
  last (visited cmd) = Some name ->
  name ∈ ["list"; "restore"; "query"; "add"; "update"; "delete"; "status"]%string ->
  processCmdLineFlags osArgs cmd w = (visitFlag INVALID_APP_OPT name, None, w).
Proof.
  intros Hargs Hlast Hin. unfold processCmdLineFlags.
  destruct (Nat.eqb_spec (length osArgs) 1) as [|_]; [done|].
  rewrite foldl_visitFlag, Hlast.
  destruct (visitFlag_known name) as [Hni Hinv]. apply Hinv in Hin.
  by rewrite bool_decide_eq_false_2, bool_decide_eq_false_2 by done.
Qed.

Lemma putStdout_quiet s w : quiet w -> quiet (putStdout s w).2.
Proof. apply putStdout_steady. Qed.

Section CmdProperties.
Context `{JsonCodec} `{MapOrder}.

Lemma Run_returns osArgs cmd flags w opts w0 todo w1 :
  processCmdLineFlags osArgs cmd w = (opts, None, w0) ->
  New (dbFileNameFlag flags) w0 = (Ok todo, w1) ->
  (Run osArgs cmd flags w).1 = None.
Proof.
  intros Hflags Hnew. unfold Run, bind. rewrite Hflags, Hnew.
  unfold fmt_Println, putStdout, ret.
  destruct opts; simpl; repeat (case_match; simpl); done.
Qed.

Lemma Run_status osArgs cmd flags w :
  ((Run osArgs cmd flags w).1 = None ∨ (Run osArgs cmd flags w).1 = Some 1)
  ∧ ((Run osArgs cmd flags w).1 = Some 1 <->
     (processCmdLineFlags osArgs cmd w).1.2 ≠ None
     ∨ exists e,
         (New (dbFileNameFlag flags) (processCmdLineFlags osArgs cmd w).2).1
         = Err e)
  ∧ ((processCmdLineFlags osArgs cmd w).1.2 ≠ None ->
     files (Run osArgs cmd flags w).2 = files w).
Proof.
  pose proof (processCmdLineFlags_readonly osArgs cmd w) as Hfiles.
  destruct (processCmdLineFlags osArgs cmd w) as [[opts [e|]] w0] eqn:Hflags;
    simpl in *.
  { unfold Run, bind. rewrite Hflags. simpl.
    split; [by right|]. split; [split; [by left | done]|]. done. }
  destruct (New (dbFileNameFlag flags) w0) as [[todo|e] w1] eqn:Hnew; simpl.
  - rewrite (Run_returns _ _ _ _ _ _ _ _ Hflags Hnew).
    split; [by left|]. split; [|done]. split; [done|].
    by intros [|[e [=]]].
  - unfold Run, bind. rewrite Hflags, Hnew. simpl.
    split; [by right|]. split; [|done]. split; [|done]. intros _. right. eauto.
Qed.

(** X24.  [Run] ends the process, with status 1, exactly when the flags are
    refused or [New] fails.  When the flags are refused no file is
    changed.  When the flags are accepted, [New] succeeds and the
    operation of the store that the flag asks for fails, [Run] prints
    the line of the error of the operation after what the operation had
    left on the console, changes no file and returns: this for
    [RestoreDB], [GetAllItems], [GetItem], [AddItem], [UpdateItem],
    [DeleteItem] and [ChangeItemDoneStatus], each run in the world that
    follows the opening line of its case. *)
Theorem Run_exit_status osArgs cmd flags w :
  ((Run osArgs cmd flags w).1 = None ∨ (Run osArgs cmd flags w).1 = Some 1)
  ∧ ((Run osArgs cmd flags w).1 = Some 1 <->
     (processCmdLineFlags osArgs cmd w).1.2 ≠ None
     ∨ exists e,
         (New (dbFileNameFlag flags) (processCmdLineFlags osArgs cmd w).2).1
         = Err e)
  ∧ ((processCmdLineFlags osArgs cmd w).1.2 ≠ None ->
     files (Run osArgs cmd flags w).2 = files w)
  ∧ (forall opts w0 todo w1,
       processCmdLineFlags osArgs cmd w = (opts, None, w0) ->
       New (dbFileNameFlag flags) w0 = (Ok todo, w1) ->
       (forall err w2,
          opts = RESTORE_DB_ITEM ->
          RestoreDB todo (fmt_Println ["Running RESTORE_DB_ITEM..."] w1).2
          = (Some err, w2) ->
          reported (Run osArgs cmd flags w) w2 err)
       ∧ (forall todoList err todo' w2,
            opts = LIST_DB_ITEM ->
            GetAllItems todo (fmt_Println ["Running QUERY_DB_ITEM..."] w1).2
            = (todoList, Some err, todo', w2) ->
            reported (Run osArgs cmd flags w) w2 err)
       ∧ (forall item err todo' w2,
            opts = QUERY_DB_ITEM ->
            GetItem todo (queryFlag flags)
              (fmt_Println ["Running QUERY_DB_ITEM..."] w1).2
            = (item, Some err, todo', w2) ->
            reported (Run osArgs cmd flags w) w2 err)
       ∧ (forall item err todo' w2,
            opts = ADD_DB_ITEM ->
            JsonToItem (addFlag flags) = (item, None) ->
            AddItem todo item (fmt_Println ["Running ADD_DB_ITEM..."] w1).2
            = (Some err, todo', w2) ->
            reported (Run osArgs cmd flags w) w2 err)
       ∧ (forall item err todo' w2,
            opts = UPDATE_DB_ITEM ->
            JsonToItem (updateFlag flags) = (item, None) ->
            UpdateItem todo item (fmt_Println ["Running UPDATE_DB_ITEM..."] w1).2
            = (Some err, todo', w2) ->
            reported (Run osArgs cmd flags w) w2 err)
       ∧ (forall err todo' w2,
            opts = DELETE_DB_ITEM ->
            DeleteItem todo (deleteFlag flags)
              (fmt_Println ["Running DELETE_DB_ITEM..."] w1).2
            = (Some err, todo', w2) ->
            reported (Run osArgs cmd flags w) w2 err)
       ∧ (forall err todo' w2,
            opts = CHANGE_ITEM_STATUS ->
            ChangeItemDoneStatus todo (queryFlag flags) (itemStatusFlag flags)
              ((if queryFlag flags =? 0 then fmt_Println [zeroIdWarning]
                else ret tt)
                 (fmt_Println ["Running CHANGE_ITEM_STATUS..."] w1).2).2
            = (Some err, todo', w2) ->
            reported (Run osArgs cmd flags w) w2 err)).
Proof.
  destruct (Run_status osArgs cmd flags w) as (Hcodes & Hexit & Hfiles).
  split; [exact Hcodes|]. split; [exact Hexit|]. split; [exact Hfiles|].
  intros opts w0 todo w1 Hflags Hnew.
  repeat split; intros; subst opts; unfold Run, bind;
    rewrite Hflags, Hnew; cbv iota;
    match goal with
    | |- context [fmt_Println ?l w1] =>
        change (fmt_Println l w1) with (tt, (fmt_Println l w1).2)
    end; cbv iota;
    try (destruct (queryFlag flags =? 0);
         [match goal with
          | |- context [fmt_Println [zeroIdWarning] ?w'] =>
              change (fmt_Println [zeroIdWarning] w')
                with (tt, (fmt_Println [zeroIdWarning] w').2) in *
          end | change (ret tt ?w') with (tt, w') in *];
         cbn [snd] in *; cbv iota);
    repeat match goal with
    | E : _ = _ |- _ => rewrite E; clear E
    end; reflexivity.
Qed.

Lemma forEach_PrintItem t itemList w :
  forEach itemList (PrintItem t) w = PrintAllItems t itemList w.
Proof.
  revert w. induction itemList as [|item l IH]; intros w; [done|].
  simpl. unfold bind. destruct (PrintItem t item w). apply IH.
Qed.

(** X25.  The run of the flag [list] in a world where the system calls
    complete, on a file that lists items of different ids: [Run] prints
    its opening line, which names the query, then the line of every item
    of the file, in some order, then the number of the items and [Ok];
    it returns and changes no file. *)
Theorem Run_list_output osArgs cmd flags w data toDoList :
  quiet w ->
  length osArgs ≠ 1%nat ->
  last (visited cmd) = Some "list"%string ->
  files w !! dbFileNameFlag flags = Some data ->
  json_Unmarshal_list data = Ok toDoList ->
  NoDup (Id <$> toDoList) ->
  exists l w',
    Run osArgs cmd flags w = (None, w')
    ∧ l ≡ₚ toDoList
    ∧ stdout w' =
        stdout w +:+ "Running QUERY_DB_ITEM..." +:+ newline
        +:+ String.concat "" (printedLine <$> l)
        +:+ "THERE ARE " +:+ itoa (Z.of_nat (length toDoList))
        +:+ " ITEMS IN THE DB" +:+ newline +:+ "Ok" +:+ newline
    ∧ files w' = files w.
Proof.
  intros Hq Hargs Hlast Hfile Hjson Hnd.
  unfold Run, bind.
  rewrite (processCmdLineFlags_accepts osArgs cmd w "list") by
    (try done; repeat (apply elem_of_cons; ((left; reflexivity) || right))).
  change (visitFlag INVALID_APP_OPT "list") with LIST_DB_ITEM. cbv iota.
  destruct (New_quiet (dbFileNameFlag flags) w Hq) as (w1 & -> & Hf1 & Hs1 & Hq1).
  rewrite Hfile in Hf1. cbv iota.
  set (w2 := (fmt_Println ["Running QUERY_DB_ITEM..."] w1).2).
  assert (quiet w2) as Hq2 by by apply putStdout_quiet.
  change (fmt_Println ["Running QUERY_DB_ITEM..."] w1) with (tt, w2).
  cbv iota.
  destruct (loadDB_quiet (mkToDo ∅ (dbFileNameFlag flags)) w2 data toDoList Hq2)
    as (w3 & Hload & Hf3 & Hs3 & Hq3); [by rewrite <- Hfile, <- Hf1 | done |].
  unfold GetAllItems, bind. rewrite Hload. simpl.
  rewrite forEach_PrintItem.
  match goal with |- context [PrintAllItems ?t ?l w3] =>
    destruct (PrintAllItems_output t l w3) as (Hs4 & Hf4);
    destruct (PrintAllItems t l w3) as [[] w4] end.
  simpl in Hs4, Hf4.
  eexists (mapRange (foldl putItem ∅ toDoList)), _.
  split; [reflexivity|]. split.
  { rewrite mapRange_perm. by apply foldl_putItem_values. }
  simpl. split; [|by rewrite Hf4, Hf3].
  rewrite Hs4, Hs3. subst w2. simpl. rewrite Hs1.
  assert (length (mapRange (foldl putItem ∅ toDoList)) = length toDoList) as ->.
  { apply Permutation_length. rewrite mapRange_perm.
    by apply foldl_putItem_values. }
  rewrite !append_assoc. reflexivity.
Qed.

End CmdProperties.

Section CmdOnDisk.
Context `{MapOrder}.

(** X26.  Adding an item from the command line, then asking for it: in a
    world where the system calls complete, with a database that is
    missing or holds plain items of other ids, the run of the flag
    [add] with a text that [JsonToItem] reads as a plain item prints
    [Ok], and the run of the flag [query] with the id of the item that
    follows on the same file prints the line of the item and [Ok]. *)
Theorem Run_add_then_query osArgs1 cmd1 flags1 osArgs2 cmd2 flags2 w
    item toDoList :
  quiet w ->
  length osArgs1 ≠ 1%nat -> last (visited cmd1) = Some "add"%string ->
  length osArgs2 ≠ 1%nat -> last (visited cmd2) = Some "query"%string ->
  dbFileNameFlag flags2 = dbFileNameFlag flags1 ->
  queryFlag flags2 = Id item ->
  JsonToItem (addFlag flags1) = (item, None) ->
  plainItem item ->
  match files w !! dbFileNameFlag flags1 with
  | Some data => json_Unmarshal_list data = Ok toDoList
  | None => toDoList = []
  end ->
  Forall plainItem toDoList ->
  (forall x, x ∈ toDoList -> Id x ≠ Id item) ->
  exists w1 w2,
    Run osArgs1 cmd1 flags1 w = (None, w1)
    ∧ stdout w1 =
        stdout w +:+ "Running ADD_DB_ITEM..." +:+ newline +:+ "Ok" +:+ newline
    ∧ Run osArgs2 cmd2 flags2 w1 = (None, w2)
    ∧ stdout w2 =
        stdout w1 +:+ "Running QUERY_DB_ITEM..." +:+ newline
        +:+ printedLine item +:+ "Ok" +:+ newline.
Proof.
  intros Hq Hargs1 Hlast1 Hargs2 Hlast2 Hdb Hid Htext Hitem Hfile Hplain Hfresh.
  set (db := dbFileNameFlag flags1) in *.
  (* the first run *)
  destruct (New_quiet db w Hq) as (wa & Hnew & Hfa & Hsa & Hqa).
  set (wb := (fmt_Println ["Running ADD_DB_ITEM..."] wa).2).
  assert (quiet wb) as Hqb by by apply putStdout_quiet.
  assert (exists data, files wb !! db = Some data
                       ∧ json_Unmarshal_list data = Ok toDoList)
    as (data & Hdata & Hjson).
  { subst wb. simpl. rewrite Hfa. destruct (files w !! db) as [data|] eqn:E.
    - by exists data.
    - subst toDoList. eexists. split; [apply lookup_insert_eq | reflexivity]. }
  destruct (loadDB_quiet (mkToDo ∅ db) wb data toDoList Hqb Hdata Hjson)
    as (wc & Hload & Hfc & Hsc & Hqc).
  simpl in Hload.
  set (m1 := foldl putItem (∅ : DbMap) toDoList) in *.
  assert (m1 !! Id item = None) as Hnone.
  { subst m1. rewrite foldl_putItem_fresh by done. apply lookup_empty. }
  assert (forall id x, m1 !! id = Some x -> plainItem x) as Hplain1.
  { intros id x Hx. subst m1. rewrite foldl_putItem_lookup, lookup_empty in Hx.
    destruct (last (filter _ toDoList)) as [y|] eqn:E; [|done].
    injection Hx as ->.
    apply last_Some_elem_of, list_elem_of_filter in E as [_ Hin].
    by apply (proj1 (Forall_forall _ _) Hplain). }
  destruct (store_quiet (mkToDo ∅ db) wb _ wc item Hqb keyed_empty Hload)
    as (wd & Hsave & (data2 & Hfile2 & Hjson2) & Hqd & Hkd & Hsd).
  { apply CodecFacts.plain_roundTrips, Forall_forall. intros x Hx.
    apply elem_of_mapRange in Hx as (id & Hx). revert Hx. simpl.
    rewrite lookup_insert. case_decide; [by intros [= <-] | apply Hplain1]. }
  simpl in Hfile2, Hkd, Hsave.
  set (we := (fmt_Println ["Ok"] wd).2).
  assert (quiet we) as Hqe by by apply putStdout_quiet.
  assert (Run osArgs1 cmd1 flags1 w = (None, we)) as Hrun1.
  { unfold Run, bind.
    rewrite (processCmdLineFlags_accepts osArgs1 cmd1 w "add") by
      (try done; repeat (apply elem_of_cons; ((left; reflexivity) || right))).
    change (visitFlag INVALID_APP_OPT "add") with ADD_DB_ITEM. cbv iota.
    fold db. rewrite Hnew. cbv iota.
    change (fmt_Println ["Running ADD_DB_ITEM..."] wa) with (tt, wb). cbv iota.
    rewrite Htext. unfold AddItem, bind. rewrite Hload. simpl.
    rewrite Hnone, Hsave. reflexivity. }
  assert (stdout we = stdout w +:+ "Running ADD_DB_ITEM..." +:+ newline
                       +:+ "Ok" +:+ newline) as Hse.
  { subst we wb. simpl. rewrite Hsd. simpl. rewrite Hsa.
    rewrite !append_assoc. reflexivity. }
  assert (files we !! db = Some data2) as Hfile3 by (by subst we).
  clearbody we. exists we.
  (* the second run *)
  destruct (New_quiet db we Hqe) as (wf & Hnew2 & Hff & Hsf & Hqf).
  rewrite Hfile3 in Hff.
  set (wg := (fmt_Println ["Running QUERY_DB_ITEM..."] wf).2).
  assert (quiet wg) as Hqg by by apply putStdout_quiet.
  destruct (loadDB_quiet (mkToDo ∅ db) wg data2 _ Hqg
              ltac:(by subst wg; simpl; rewrite Hff) Hjson2)
    as (wh & Hload2 & Hfh & Hsh & Hqh).
  simpl in Hload2.
  rewrite foldl_putItem_mapRange, map_union_empty in Hload2 by done.
  eexists. split; [exact Hrun1|]. split; [exact Hse|]. split.
  { unfold Run, bind.
    rewrite (processCmdLineFlags_accepts osArgs2 cmd2 we "query") by
      (try done; repeat (apply elem_of_cons; ((left; reflexivity) || right))).
    change (visitFlag INVALID_APP_OPT "query") with QUERY_DB_ITEM. cbv iota.
    rewrite Hdb. fold db. rewrite Hnew2. cbv iota.
    change (fmt_Println ["Running QUERY_DB_ITEM..."] wf) with (tt, wg). cbv iota.
    unfold GetItem, bind. rewrite Hload2, Hid. simpl.
    rewrite lookup_insert_eq. simpl. reflexivity. }
  unfold printedLine. simpl. rewrite Hsh. subst wg. simpl. rewrite Hsf.
  rewrite !append_assoc. reflexivity.
Qed.

End CmdOnDisk.

(** ** Memory and file after a save that failed *)

Section Apart.
Context `{JsonCodec} `{MapOrder}.

Lemma os_WriteFile_refused path data w k rest :
  openFaults w = Fails k :: rest ->
  exists w', os_WriteFile path data w = (Some (PathError "open" path EIO), w')
    ∧ files w' = files w ∧ openFaults w' = rest
    ∧ readFaults w' = readFaults w.
Proof.
  intros Hopen. unfold os_WriteFile, os_OpenFile_trunc, bind, nextOpen.
  rewrite Hopen. by eexists.
Qed.

Lemma loadDB_calm t w data toDoList :
  calm (openFaults w) -> calm (readFaults w) ->
  files w !! dbFileName t = Some data ->
  json_Unmarshal_list data = Ok toDoList ->
  exists w',
    loadDB t w =
      (None, mkToDo (foldl putItem (toDoMap t) toDoList) (dbFileName t), w').
Proof.
  intros Hopen Hread Hfile Hjson.
  destruct (os_ReadFile_calm _ _ _ Hopen Hread Hfile) as (w' & Hrun).
  exists w'. unfold loadDB, bind. by rewrite Hrun, Hjson.
Qed.

Lemma foldl_putItem_stable (m : DbMap) (l : list ToDoItem) :
  (forall id x, last (filter (λ y, Id y = id) l) = Some x -> m !! id = Some x) ->
  foldl putItem m l = m.
Proof.
  intros Hlast. apply map_eq. intros id. rewrite foldl_putItem_lookup.
  destruct (last _) as [x|] eqn:E; [|done]. symmetry. by apply Hlast.
Qed.

(** X27.  A save that cannot open the file leaves the map of the store and the
    file apart, and the next load does not bring them together in the
    same way for an addition and for a deletion.  After such an
    [AddItem] the store goes on returning the item, which the file does
    not have: a store that starts on the file does not find it.  After
    such a [DeleteItem] of an item that the file has, the next [GetItem]
    of the store returns the item again. *)
Theorem failed_save_leaves_memory_and_file_apart t w data toDoList w1 k rest :
  os_ReadFile (dbFileName t) w = (Ok data, w1) ->
  json_Unmarshal_list data = Ok toDoList ->
  openFaults w1 = Fails k :: rest -> calm rest -> calm (readFaults w1) ->
  (forall item,
     toDoMap t !! Id item = None ->
     (forall x, x ∈ toDoList -> Id x ≠ Id item) ->
     (exists text,
        json_MarshalIndent
          (mapRange (<[Id item := item]> (foldl putItem (toDoMap t) toDoList)))
        = Ok text) ->
     exists t2 w2 w3 w4 t4,
       AddItem t item w =
         (Some (errors_New "Failed to save to the database."), t2, w2)
       ∧ files w2 = files w
       ∧ GetItem t2 (Id item) w2 = (item, None, t2, w3)
       ∧ GetItem (mkToDo ∅ (dbFileName t)) (Id item) w2 =
           (zeroItem,
            Some (errors_New ("Couldn't get item because the id "
                              +:+ itoa (Id item) +:+ " doesn't exist")),
            t4, w4))
  ∧ (forall id old,
       last (filter (λ x, Id x = id) toDoList) = Some old ->
       (exists text,
          json_MarshalIndent
            (mapRange (delete id (foldl putItem (toDoMap t) toDoList)))
          = Ok text) ->
       exists t2 w2 t3 w3,
         DeleteItem t id w =
           (Some (errors_New "Failed to save to the database."), t2, w2)
         ∧ toDoMap t2 !! id = None
         ∧ files w2 = files w
         ∧ GetItem t2 id w2 = (old, None, t3, w3)).
Proof.
  intros Hread Hjson Hopen Hrest Hreads.
  destruct (os_ReadFile_inv _ _ _ _ Hread) as [Hfile Hf1].
  assert (loadDB t w =
            (None, mkToDo (foldl putItem (toDoMap t) toDoList) (dbFileName t), w1))
    as Hload by (unfold loadDB, bind; by rewrite Hread, Hjson).
  split.
  - intros item Hmem Hfresh [text Htext].
    assert (foldl putItem (toDoMap t) toDoList !! Id item = None) as Hnone
      by by rewrite foldl_putItem_fresh.
    destruct (os_WriteFile_refused (dbFileName t) text w1 k rest Hopen)
      as (w2 & Hwrite & Hf2 & Ho2 & Hr2).
    assert (files w2 !! dbFileName t = Some data) as Hfile2 by congruence.
    destruct (loadDB_calm
                (mkToDo (<[Id item := item]> (foldl putItem (toDoMap t) toDoList))
                   (dbFileName t)) w2 data toDoList) as (w3 & Hload3);
      [congruence | congruence | done | done |].
    destruct (loadDB_calm (mkToDo ∅ (dbFileName t)) w2 data toDoList)
      as (w4 & Hload4); [congruence | congruence | done | done |].
    eexists _, w2, w3, w4, _. split.
    { unfold AddItem, bind. rewrite Hload. simpl. rewrite Hnone.
      unfold saveDB, bind. simpl. rewrite Htext, Hwrite. reflexivity. }
    split; [congruence|]. split.
    + unfold GetItem, bind. rewrite Hload3. simpl.
      rewrite foldl_putItem_stable; [by rewrite lookup_insert_eq|].
      intros id x Hx. rewrite lookup_insert_ne.
      * by rewrite foldl_putItem_lookup, Hx.
      * intros <-. apply last_Some_elem_of, list_elem_of_filter in Hx as [E Hin].
        by apply (Hfresh x).
    + unfold GetItem, bind. rewrite Hload4. simpl.
      rewrite foldl_putItem_fresh, lookup_empty by done. reflexivity.
  - intros id old Hold [text Htext].
    assert (foldl putItem (toDoMap t) toDoList !! id = Some old) as Hsome
      by by rewrite foldl_putItem_lookup, Hold.
    destruct (os_WriteFile_refused (dbFileName t) text w1 k rest Hopen)
      as (w2 & Hwrite & Hf2 & Ho2 & Hr2).
    assert (files w2 !! dbFileName t = Some data) as Hfile2 by congruence.
    destruct (loadDB_calm
                (mkToDo (delete id (foldl putItem (toDoMap t) toDoList))
                   (dbFileName t)) w2 data toDoList) as (w3 & Hload3);
      [congruence | congruence | done | done |].
    eexists _, w2, _, w3. split.
    { unfold DeleteItem, bind. rewrite Hload. simpl. rewrite Hsome.
      unfold saveDB, bind. simpl. rewrite Htext, Hwrite. reflexivity. }
    split; [apply lookup_delete_eq|]. split; [congruence|].
    unfold GetItem, bind. rewrite Hload3. simpl.
    by rewrite foldl_putItem_lookup, Hold.
Qed.

End Apart.

(** ** A store on a new file *)

Section FreshStore.
Context `{MapOrder}.

(** X28.  A store that [New] has created on a file that was missing is empty:
    [GetAllItems] returns no item and no error, and [GetItem] of any id
    returns the zero item and the error of a missing id. *)
Theorem new_store_is_empty dbFile w :
  quiet w -> files w !! dbFile = None ->
  exists t w1 w2,
    New dbFile w = (Ok t, w1)
    ∧ GetAllItems t w1 = ([], None, t, w2)
    ∧ forall id, exists w3,
        GetItem t id w1 =
          (zeroItem,
           Some (errors_New ("Couldn't get item because the id " +:+ itoa id
                             +:+ " doesn't exist")), t, w3).
Proof.
  intros Hq Hnone.
  destruct (New_quiet dbFile w Hq) as (w1 & Hnew & Hf1 & _ & Hq1).
  rewrite Hnone in Hf1.
  destruct (loadDB_quiet (mkToDo ∅ dbFile) w1 (list_byte_of_string "[]") [] Hq1)
    as (w2 & Hload & _); [by rewrite Hf1, lookup_insert_eq | reflexivity |].
  simpl in Hload.
  exists (mkToDo ∅ dbFile), w1, w2. split; [exact Hnew|]. split.
  - unfold GetAllItems, bind. rewrite Hload. simpl. by rewrite mapRange_empty.
  - intros id. exists w2. unfold GetItem, bind. rewrite Hload. simpl.
    by rewrite lookup_empty.
Qed.

End FreshStore.

(** ** Restoring from the command line *)

Section CmdRestore.
Context `{JsonCodec} `{MapOrder}.

(** X29.  The run of the flag [restore] in a world where the system calls
    complete and the backup is there: [Run] prints its opening line,
    [RestoreDB] prints that the copy is finished, [Run] prints that the
    database is restored and returns; the file of the database holds the
    bytes of the backup. *)
Theorem Run_restore_output osArgs cmd flags w backup :
  quiet w ->
  length osArgs ≠ 1%nat ->
  last (visited cmd) = Some "restore"%string ->
  files w !! (dbFileNameFlag flags +:+ ".bak") = Some backup ->
  exists w',
    Run osArgs cmd flags w = (None, w')
    ∧ files w' = <[dbFileNameFlag flags := backup]> (files w)
    ∧ stdout w' =
        stdout w +:+ "Running RESTORE_DB_ITEM..." +:+ newline
        +:+ finishedLine (dbFileNameFlag flags) (dbFileNameFlag flags +:+ ".bak")
        +:+ "Database restored from backup file" +:+ newline.
Proof.
  intros Hq Hargs Hlast Hbak.
  set (db := dbFileNameFlag flags) in *.
  destruct (New_quiet db w Hq) as (w1 & Hnew & Hf1 & Hs1 & Hq1).
  set (w2 := (fmt_Println ["Running RESTORE_DB_ITEM..."] w1).2).
  assert (quiet w2) as Hq2 by by apply putStdout_quiet.
  assert (files w2 !! (db +:+ ".bak") = Some backup) as Hbak2.
  { subst w2. simpl. rewrite Hf1. destruct (files w !! db); [done|].
    by rewrite lookup_insert_ne by apply backup_name_fresh. }
  destruct (RestoreDB_quiet (mkToDo ∅ db) w2 backup Hq2 Hbak2)
    as (w3 & Hrun & Hf3 & _).
  destruct (RestoreDB_calm (mkToDo ∅ db) w2 None w3 (proj2 (proj2 Hq2)) Hrun)
    as (_ & _ & _ & Hs3).
  simpl in Hf3, Hs3.
  eexists. split.
  { unfold Run, bind.
    rewrite (processCmdLineFlags_accepts osArgs cmd w "restore") by
      (try done; repeat (apply elem_of_cons; ((left; reflexivity) || right))).
    change (visitFlag INVALID_APP_OPT "restore") with RESTORE_DB_ITEM. cbv iota.
    fold db. rewrite Hnew. cbv iota.
    change (fmt_Println ["Running RESTORE_DB_ITEM..."] w1) with (tt, w2).
    cbv iota. rewrite Hrun. reflexivity. }
  split.
  - simpl. rewrite Hf3. subst w2. simpl. rewrite Hf1.
    destruct (files w !! db); [done | by rewrite insert_insert_eq].
  - simpl. rewrite Hs3. subst w2. simpl. rewrite Hs1.
    rewrite !append_assoc. reflexivity.
Qed.

End CmdRestore.

Section Checks.
Import Scenario Mangled.

Lemma roundTripsb_sound toDoList :
  roundTripsb toDoList = true -> roundTrips toDoList.
Proof.
  unfold roundTripsb, roundTrips. simpl.
  destruct (GoJson.MarshalIndent toDoList) as [data|e]; [|done].
  destruct (GoJson.Unmarshal_list data) as [back|e] eqn:E; [|done].
  intros Hb%bool_decide_eq_true. exists data. by subst back.
Qed.

Lemma quiet_no_faults fs out : quiet (mkWorld fs out [] [] []).
Proof. repeat split; constructor. Qed.

(** C2: the run that shows the defect.  The backup is there and is not
    empty, the first write to the file of the store fails, and
    [RestoreDB] returns no error: it has printed that the write failed
    and that the copy is finished, and the file of the store is empty. *)
Theorem RestoreDB_swallows_write_failure :
  files diskFull !! backupPath = Some backup
  ∧ backup ≠ []
  ∧ writeFaults diskFull = [Fails 0]
  ∧ (RestoreDB fresh diskFull).1 = None
  ∧ files (RestoreDB fresh diskFull).2 !! path = Some []
  ∧ stdout (RestoreDB fresh diskFull).2 =
      "failed to write to todo.json" +:+ finishedLine path backupPath.
Proof. repeat split; by vm_compute. Qed.

(** C1: the run that the claim does not cover.  A store that has added
    an item restores a backup that does not have it; the restore
    succeeds and the file has the bytes of the backup, yet the [loadDB]
    that follows leaves the item in the map, next to the one item of the
    backup. *)
Lemma RestoreDB_then_loadDB_keeps_stale :
  afterNew.1 = Ok fresh
  ∧ afterAdd.1.1 = None
  ∧ afterRestore.1 = None
  ∧ files afterRestore.2 !! path = Some backup
  ∧ GoJson.Unmarshal_list backup = Ok [learn]
  ∧ afterLoad.1.1 = None
  ∧ toDoMap afterLoad.1.2 !! 5 = Some stale
  ∧ toDoMap afterLoad.1.2 ≠ foldl putItem ∅ [learn].
Proof.
  repeat split; by vm_compute.
Qed.

(** C4: the error of the second [AddItem] does not carry the id.  The
    message of the error does not have the digits of the id in it. *)
Lemma AddItem_duplicate_error_omits_id :
  afterFirst.1.1 = None
  ∧ Id rival = Id original
  ∧ afterSecond.1.1 =
      Some (errors_New "The item provided already exists in the database.")
  ∧ (forall err, afterSecond.1.1 = Some err ->
       contains (Error err) (itoa (Id rival)) = false).
Proof.
  split; [by vm_compute|]. split; [reflexivity|]. split; [by vm_compute|].
  intros err. vm_compute. by intros [= <-].
Qed.

(** C5: the run that the claim does not cover.  The title of the item
    is one byte that is not valid UTF-8.  The id is not in the store,
    no call fails and [AddItem] succeeds; the [GetItem] that follows
    succeeds and returns another item, whose title is U+FFFD: the codec
    does not give back the list that was saved. *)
Lemma AddItem_then_GetItem_mangles_title :
  afterNew.1 = Ok fresh
  ∧ (loadDB fresh afterNew.2).1.1 = None
  ∧ toDoMap (loadDB fresh afterNew.2).1.2 !! Id bad = None
  ∧ afterBad.1.1 = None
  ∧ readBad.1.1 = (replaced, None)
  ∧ replaced ≠ bad
  ∧ ¬ roundTrips [bad].
Proof.
  do 5 (split; [by vm_compute|]). split; [done|].
  intros (data & Hout & Hin). vm_compute in Hout. injection Hout as <-.
  vm_compute in Hin. discriminate Hin.
Qed.

(** C7: the run that the claim does not cover.  The store holds an item
    of the id; [UpdateItem] with an item whose title is not valid UTF-8
    succeeds, and the [GetItem] that follows returns an item with
    another title. *)
Lemma UpdateItem_then_GetItem_mangles_title :
  afterGood.1.1 = None
  ∧ toDoMap afterGood.1.2 !! Id bad = Some good
  ∧ afterUpdate.1.1 = None
  ∧ readUpdated.1.1 = (replaced, None)
  ∧ replaced ≠ bad.
Proof. do 4 (split; [by vm_compute|]). done. Qed.

(** C8: the run that the claim does not cover.  The store holds, in its
    map only, an item whose title is not valid UTF-8: it has added the
    item and then restored a backup that does not have it.  [GetItem]
    returns the item as it was added; [ChangeItemDoneStatus] succeeds,
    and the [GetItem] that follows returns the new status and another
    title. *)
Lemma ChangeItemDoneStatus_mangles_title :
  afterBad.1.1 = None
  ∧ restored.1 = None
  ∧ readBefore.1.1 = (bad, None)
  ∧ afterChange.1.1 = None
  ∧ readAfter.1.1 = (mkItem 7 (Title replaced) true, None)
  ∧ Title replaced ≠ Title bad.
Proof. do 5 (split; [by vm_compute|]). done. Qed.

(** C9: [RestoreDB] writes to the console in a run that succeeds. *)
Lemma RestoreDB_prints :
  (RestoreDB fresh world0).1 = None
  ∧ stdout world0 = ""
  ∧ stdout (RestoreDB fresh world0).2 = finishedLine path backupPath
  ∧ ¬ silent (RestoreDB fresh).
Proof.
  split; [by vm_compute|]. split; [reflexivity|]. split; [by vm_compute|].
  intros Hsilent. specialize (Hsilent world0). vm_compute in Hsilent. done.
Qed.

End Checks.

(** ** The theorems at work on the disk of the scenario *)

Section Witnesses.
Import Scenario.

Ltac no_faults := vm_compute; repeat split; constructor.
Ltac round_trip := apply roundTripsb_sound; vm_compute; reflexivity.

Lemma loadDB_merges_witness :
  exists t1,
    loadDB holdingStale duplicates = (None, t1, (os_ReadFile path duplicates).2)
    ∧ toDoMap t1 !! 1 = Some relearn
    ∧ toDoMap t1 !! 5 = Some stale.
Proof.
  destruct (loadDB_merges holdingStale duplicates
              (os_ReadFile path duplicates).2
              (textOf [learn; relearn]) [learn; relearn])
    as (t1 & Hload & _ & Hlast & Hkeep).
  - vm_compute; reflexivity.
  - vm_compute; reflexivity.
  - exists t1. split; [exact Hload|]. split.
    + apply (Hlast [learn] relearn []); [reflexivity|].
      intros later Hin. inversion Hin.
    + apply (Hkeep 5). intros item Hin.
      apply elem_of_cons in Hin as [->|Hin]; [by vm_compute|].
      apply elem_of_cons in Hin as [->|Hin]; [by vm_compute|].
      inversion Hin.
Defined.

Lemma DeleteItem_absent_witness :
  exists err,
    (DeleteItem fresh 7 afterNew.2).1.1 = Some err
    ∧ contains (Error err) "7" = true
    ∧ files (DeleteItem fresh 7 afterNew.2).2 = files afterNew.2.
Proof.
  destruct (DeleteItem_absent fresh afterNew.2
              (loadDB fresh afterNew.2).1.2 (loadDB fresh afterNew.2).2 7)
    as (err & Hrun & _ & Hid & Hfiles & _).
  - vm_compute; reflexivity.
  - vm_compute; reflexivity.
  - exists err. rewrite Hrun. simpl. split; [reflexivity|].
    split; [exact Hid | exact Hfiles].
Defined.

Lemma AddItem_then_GetItem_witness :
  exists t2 w2 w3,
    AddItem fresh learn afterNew.2 = (None, t2, w2)
    ∧ GetItem t2 1 w2 = (learn, None, t2, w3).
Proof.
  apply (AddItem_then_GetItem fresh afterNew.2
           (loadDB fresh afterNew.2).1.2 (loadDB fresh afterNew.2).2 learn).
  - no_faults.
  - apply keyed_empty.
  - vm_compute; reflexivity.
  - vm_compute; reflexivity.
  - round_trip.
Defined.

Lemma keyed_afterFirst : keyed (toDoMap afterFirst.1.2).
Proof.
  change (toDoMap afterFirst.1.2) with (putItem (∅ : DbMap) original).
  apply keyed_putItem, keyed_empty.
Defined.

Lemma UpdateItem_then_GetItem_witness :
  exists t2 w2 w3,
    UpdateItem afterFirst.1.2 rival afterFirst.2 = (None, t2, w2)
    ∧ GetItem t2 12345 w2 = (rival, None, t2, w3).
Proof.
  apply (UpdateItem_then_GetItem afterFirst.1.2 afterFirst.2
           (loadDB afterFirst.1.2 afterFirst.2).1.2
           (loadDB afterFirst.1.2 afterFirst.2).2 rival original).
  - no_faults.
  - apply keyed_afterFirst.
  - vm_compute; reflexivity.
  - vm_compute; reflexivity.
  - round_trip.
Defined.

Lemma ChangeItemDoneStatus_spec_witness :
  exists t2 w2 w3,
    ChangeItemDoneStatus afterFirst.1.2 12345 true afterFirst.2 = (None, t2, w2)
    ∧ GetItem t2 12345 w2 = (mkItem 12345 "First" true, None, t2, w3).
Proof.
  destruct (ChangeItemDoneStatus_spec afterFirst.1.2 afterFirst.2 12345 true)
    as [Hpresent _].
  apply (Hpresent original
           (loadDB afterFirst.1.2 afterFirst.2).1.2
           (loadDB afterFirst.1.2 afterFirst.2).2).
  - vm_compute; reflexivity.
  - no_faults.
  - apply keyed_afterFirst.
  - round_trip.
Defined.

Lemma AddItem_twice_witness :
  exists w2 w3,
    AddItem afterFirst.1.2 rival afterFirst.2 =
      (Some (errors_New "The item provided already exists in the database."),
       afterFirst.1.2, w2)
    ∧ toDoMap afterFirst.1.2 !! 12345 = Some original
    ∧ files w2 = files afterFirst.2
    ∧ GetItem afterFirst.1.2 12345 w2 = (original, None, afterFirst.1.2, w3).
Proof.
  apply (AddItem_twice fresh afterNew.2 original afterFirst.1.2 afterFirst.2 rival).
  - no_faults.
  - apply keyed_empty.
  - vm_compute; reflexivity.
  - round_trip.
  - reflexivity.
Defined.

Lemma RestoreDB_copies_backup_witness :
  exists data,
    files world0 !! backupPath = Some data
    ∧ files (RestoreDB fresh world0).2 !! path = Some data.
Proof.
  destruct (RestoreDB_copies_backup fresh world0 (RestoreDB fresh world0).2)
    as (data & Hbackup & Hcopy & _).
  - constructor.
  - vm_compute; reflexivity.
  - exists data. split; [exact Hbackup | exact Hcopy].
Defined.

Lemma core_operations_console_witness :
  calm (writeFaults world0)
  ∧ stdout (AddItem fresh learn world0).2 = stdout world0
  ∧ stdout (RestoreDB fresh world0).2 =
      stdout world0 +:+ finishedLine path backupPath.
Proof.
  destruct (core_operations_console (H := GoJson.codec) (H0 := keyOrder))
    as (_ & Hadd & _ & _ & _ & _ & _ & Hrestore).
  split; [constructor|]. split; [apply Hadd|].
  apply (Hrestore fresh world0). constructor.
Defined.

Lemma JsonToItem_missing_fields_witness :
  exists item,
    JsonToItem doneOnly = (item, None) ∧ Id item = 0 ∧ Title item = "".
Proof.
  destruct (ItemText.JsonToItem_missing_fields doneOnly) as (_ & Hfits & _).
  destruct (Hfits [("done", GoJson.Bool true)]) as (item & Hitem & Hzero).
  - vm_compute; reflexivity.
  - vm_compute; reflexivity.
  - exists item. split; [exact Hitem|].
    split; [apply (Hzero GoJson.FieldId) | apply (Hzero GoJson.FieldTitle)].
    all: intros m Hin; apply elem_of_cons in Hin as [->|Hin];
      [by vm_compute | inversion Hin].
Defined.

End Witnesses.

(** ** The theorems at work on the disks of the cases *)

Section Runs.
Import Scenario Cases.

Ltac no_faults := vm_compute; repeat split; constructor.
Ltac round_trip := apply roundTripsb_sound; vm_compute; reflexivity.
Ltac ascii := repeat constructor.

Lemma plain_learn : plainItem learn.
Proof. split; [by vm_compute | ascii]. Defined.

Lemma plain_original : plainItem original.
Proof. split; [by vm_compute | ascii]. Defined.

Lemma New_creates_or_keeps_witness :
  exists w', New path world0 = (Ok fresh, w')
    ∧ files w' !! path = Some (list_byte_of_string "[]").
Proof.
  destruct (New_creates_or_keeps path world0) as (w' & Hnew & Hfiles & _).
  - no_faults.
  - exists w'. split; [exact Hnew|]. rewrite Hfiles. vm_compute. reflexivity.
Defined.

Lemma New_after_failed_Stat_witness :
  files statFails !! path = Some (textOf [learn])
  ∧ exists w', New path statFails = (Ok fresh, w')
      ∧ files w' !! path = Some (list_byte_of_string "[]").
Proof.
  split; [reflexivity|].
  destruct (New_after_failed_Stat path statFails 0%nat []) as (w' & Hnew & Hfiles).
  - reflexivity.
  - constructor.
  - constructor.
  - exists w'. split; [exact Hnew|]. rewrite Hfiles. apply lookup_insert_eq.
Defined.

Lemma failed_load_fails_every_operation_witness :
  GetItem fresh 1 world0 =
    (zeroItem, Some (errors_New "Failed to load the database."), fresh,
     (loadDB fresh world0).2).
Proof.
  destruct (failed_load_fails_every_operation fresh world0
              (PathError "open" path ENOENT) fresh (loadDB fresh world0).2)
    as (_ & _ & _ & _ & _ & _ & Hget & _).
  - vm_compute; reflexivity.
  - apply Hget.
Defined.

Lemma GetItem_absent_witness :
  exists err,
    (GetItem fresh 7 afterNew.2).1.1 = (zeroItem, Some err)
    ∧ contains (Error err) "7" = true.
Proof.
  destruct (GetItem_absent fresh afterNew.2
              (loadDB fresh afterNew.2).1.2 (loadDB fresh afterNew.2).2 7)
    as (err & Hrun & _ & Hid & _).
  - vm_compute; reflexivity.
  - vm_compute; reflexivity.
  - exists err. rewrite Hrun. split; [reflexivity | exact Hid].
Defined.

Lemma UpdateItem_absent_witness :
  exists err,
    (UpdateItem fresh learn afterNew.2).1.1 = Some err
    ∧ contains (Error err) "1" = true
    ∧ files (UpdateItem fresh learn afterNew.2).2 = files afterNew.2.
Proof.
  destruct (UpdateItem_absent fresh afterNew.2
              (loadDB fresh afterNew.2).1.2 (loadDB fresh afterNew.2).2 learn)
    as (err & Hrun & _ & Hid & Hfiles).
  - vm_compute; reflexivity.
  - vm_compute; reflexivity.
  - exists err. rewrite Hrun. simpl. split; [reflexivity|].
    split; [exact Hid | exact Hfiles].
Defined.

Lemma GetAllItems_lists_map_witness :
  exists l, (GetAllItems fresh twoItems).1.1 = (l, None) ∧ length l = 2%nat.
Proof.
  destruct (GetAllItems_lists_map fresh twoItems
              (loadDB fresh twoItems).1.2 (loadDB fresh twoItems).2)
    as (l & Hrun & _ & Hlen & _).
  - vm_compute; reflexivity.
  - exists l. rewrite Hrun. split; [reflexivity|]. rewrite Hlen.
    vm_compute. reflexivity.
Defined.

Lemma AddItem_then_GetAllItems_witness :
  exists t2 w2 l w3,
    AddItem fresh original twoItems = (None, t2, w2)
    ∧ GetAllItems t2 w2 = (l, None, t2, w3)
    ∧ length l = 3%nat.
Proof.
  destruct (AddItem_then_GetAllItems fresh twoItems
              (loadDB fresh twoItems).1.2 (loadDB fresh twoItems).2 original)
    as (t2 & w2 & l & w3 & Hadd & Hall & _ & Hlen).
  - no_faults.
  - apply keyed_empty.
  - vm_compute; reflexivity.
  - vm_compute; reflexivity.
  - round_trip.
  - exists t2, w2, l, w3. split; [exact Hadd|]. split; [exact Hall|].
    rewrite Hlen. vm_compute. reflexivity.
Defined.

Lemma DeleteItem_then_GetItem_witness :
  exists t2 w2 w3 w4,
    DeleteItem fresh 1 twoItems = (None, t2, w2)
    ∧ (GetItem t2 1 w2).1.1.1 = zeroItem
    ∧ GetItem t2 1 w2 =
        (zeroItem,
         Some (errors_New "Couldn't get item because the id 1 doesn't exist"),
         t2, w3)
    ∧ GetItem t2 5 w2 = (stale, None, t2, w4).
Proof.
  destruct (DeleteItem_then_GetItem fresh twoItems
              (loadDB fresh twoItems).1.2 (loadDB fresh twoItems).2 1 learn)
    as (t2 & w2 & Hdel & _ & (w3 & Hgone) & Hkept).
  - no_faults.
  - apply keyed_empty.
  - vm_compute; reflexivity.
  - vm_compute; reflexivity.
  - round_trip.
  - destruct (Hkept 5 stale) as (w4 & Hget); [done | by vm_compute |].
    exists t2, w2, w3, w4. split; [exact Hdel|].
    split; [by rewrite Hgone|]. split; [exact Hgone | exact Hget].
Defined.

Lemma UpdateItem_keeps_others_witness :
  exists t2 w2 w3,
    UpdateItem fresh relearn twoItems = (None, t2, w2)
    ∧ GetItem t2 5 w2 = (stale, None, t2, w3).
Proof.
  destruct (UpdateItem_keeps_others fresh twoItems
              (loadDB fresh twoItems).1.2 (loadDB fresh twoItems).2 relearn learn)
    as (t2 & w2 & Hupd & _ & Hkept).
  - no_faults.
  - apply keyed_empty.
  - vm_compute; reflexivity.
  - vm_compute; reflexivity.
  - round_trip.
  - destruct (Hkept 5 stale) as (w3 & Hget); [done | by vm_compute |].
    exists t2, w2, w3. split; [exact Hupd | exact Hget].
Defined.

Lemma GetItem_repeatable_witness :
  exists w2,
    GetItem (GetItem fresh 5 twoItems).1.2 5 (GetItem fresh 5 twoItems).2 =
      (stale, None, (GetItem fresh 5 twoItems).1.2, w2).
Proof.
  destruct (GetItem_repeatable fresh twoItems 5 stale
              (GetItem fresh 5 twoItems).1.2 (GetItem fresh 5 twoItems).2)
    as (w2 & Hget & _).
  - no_faults.
  - vm_compute; reflexivity.
  - exists w2. exact Hget.
Defined.

Lemma AddItem_failed_save_witness :
  exists t2 w2,
    AddItem fresh learn shortWrite =
      (Some (errors_New "Failed to save to the database."), t2, w2)
    ∧ toDoMap t2 !! 1 = Some learn
    ∧ files w2 !! path = Some (take 3 (textOf [learn])).
Proof.
  destruct (AddItem_failed_save fresh shortWrite
              (loadDB fresh shortWrite).1.2 (loadDB fresh shortWrite).2
              learn (textOf [learn])) as [_ Hwrite].
  - vm_compute; reflexivity.
  - vm_compute; reflexivity.
  - vm_compute; reflexivity.
  - destruct (Hwrite 3%nat []) as (w2 & Hadd & Hfiles).
    + vm_compute; constructor.
    + reflexivity.
    + eexists _, w2. split; [exact Hadd|]. split; [by vm_compute|].
      rewrite Hfiles. apply lookup_insert_eq.
Defined.

Lemma RestoreDB_succeeds_witness :
  exists w1 w2,
    RestoreDB fresh world0 = (None, w1)
    ∧ files w1 !! path = Some backup
    ∧ RestoreDB fresh w1 = (None, w2)
    ∧ files w2 = files w1.
Proof.
  destruct (RestoreDB_succeeds fresh world0 backup)
    as (w1 & Hrun & Hfiles & w2 & Hagain & Hsame).
  - no_faults.
  - vm_compute; reflexivity.
  - exists w1, w2. split; [exact Hrun|]. split.
    + rewrite Hfiles. apply lookup_insert_eq.
    + split; [exact Hagain | exact Hsame].
Defined.

Lemma RestoreDB_open_failures_witness :
  exists w1,
    RestoreDB fresh noBackup =
      (Some (errors_New "failed to open todo.json.bak"), w1)
    ∧ files noBackup !! path = Some (textOf [learn])
    ∧ files w1 !! path = Some [].
Proof.
  destruct (RestoreDB_open_failures fresh noBackup) as [_ Hmissing].
  destruct Hmissing as (w1 & Hrun & Hfiles & _).
  - constructor.
  - vm_compute; reflexivity.
  - exists w1. split; [exact Hrun|]. split; [reflexivity|].
    rewrite Hfiles. apply lookup_insert_eq.
Defined.

Lemma RestoreDB_failed_read_witness :
  exists e w1,
    RestoreDB fresh unreadable = (Some e, w1)
    ∧ e = errors_New "failed to read from todo.json.bak"
    ∧ stdout w1 = "".
Proof.
  destruct (RestoreDB_failed_read fresh unreadable
              (errors_New "failed to read from todo.json.bak")
              (RestoreDB fresh unreadable).2 backup)
    as (He & Hout & _).
  - constructor.
  - constructor.
  - vm_compute; reflexivity.
  - vm_compute; reflexivity.
  - eexists _, _. split; [vm_compute; reflexivity|]. split; [exact He | exact Hout].
Defined.

Lemma RestoreDB_then_GetAllItems_witness :
  exists w1 l t2 w2,
    RestoreDB fresh world0 = (None, w1)
    ∧ GetAllItems fresh w1 = (l, None, t2, w2)
    ∧ l ≡ₚ [learn].
Proof.
  apply (RestoreDB_then_GetAllItems fresh world0 backup [learn]).
  - no_faults.
  - reflexivity.
  - vm_compute; reflexivity.
  - vm_compute; reflexivity.
  - apply NoDup_singleton.
Defined.

Lemma RestoreDB_without_backup_breaks_the_store_witness :
  files noBackup !! path = Some (textOf [learn])
  ∧ exists e w1 t2 w2 w3,
      RestoreDB fresh noBackup = (Some e, w1)
      ∧ files w1 !! path = Some []
      ∧ New path w1 = (Ok t2, w2)
      ∧ files w2 !! path = Some []
      ∧ GetAllItems t2 w2 =
          ([], Some (errors_New "Failed to load the database."), t2, w3).
Proof.
  split; [reflexivity|].
  apply (RestoreDB_without_backup_breaks_the_store fresh noBackup).
  - no_faults.
  - vm_compute; reflexivity.
Defined.

Lemma DeleteItem_last_item_writes_null_witness :
  exists t2 w2 w3,
    DeleteItem afterFirst.1.2 12345 afterFirst.2 = (None, t2, w2)
    ∧ files w2 !! path = Some (list_byte_of_string "null")
    ∧ GetAllItems t2 w2 = ([], None, t2, w3).
Proof.
  apply (DeleteItem_last_item_writes_null afterFirst.1.2 afterFirst.2
           (loadDB afterFirst.1.2 afterFirst.2).1.2
           (loadDB afterFirst.1.2 afterFirst.2).2 12345 original).
  - no_faults.
  - vm_compute; reflexivity.
  - vm_compute; reflexivity.
Defined.

Lemma AddItem_persists_witness :
  exists t2 w2 t3 w3,
    AddItem fresh original twoItems = (None, t2, w2)
    ∧ GetItem fresh 12345 w2 = (original, None, t3, w3).
Proof.
  destruct (AddItem_persists fresh twoItems
              (loadDB fresh twoItems).1.2 (loadDB fresh twoItems).2 original)
    as (t2 & w2 & Hadd & Hmap & Hget).
  - no_faults.
  - apply keyed_empty.
  - vm_compute; reflexivity.
  - vm_compute; reflexivity.
  - apply plain_original.
  - intros id x. change (toDoMap (loadDB fresh twoItems).1.2)
      with (<[1 := learn]> (<[5 := stale]> (∅ : DbMap))).
    rewrite lookup_insert. case_decide; [intros [= <-]; apply plain_learn|].
    rewrite lookup_insert. case_decide; [intros [= <-]|by rewrite lookup_empty].
    split; [by vm_compute | ascii].
  - destruct (Hget 12345 original) as (t3 & w3 & Hread & _).
    + rewrite Hmap. apply lookup_insert_eq.
    + exists t2, w2, t3, w3. split; [exact Hadd | exact Hread].
Defined.

Lemma JsonToItem_reads_PrintItem_witness :
  exists text,
    stdout (PrintItem fresh learn world0).2 = text +:+ newline
    ∧ JsonToItem text = (learn, None).
Proof.
  destruct (PrintedItem.JsonToItem_reads_PrintItem fresh learn world0)
    as (text & Hout & _ & Hback).
  - apply plain_learn.
  - exists text. split; [exact Hout | exact Hback].
Defined.

Lemma processCmdLineFlags_last_flag_witness :
  (processCmdLineFlags addLine addWithDb world0).1.1 = INVALID_APP_OPT
  ∧ (processCmdLineFlags addLine addOnly world0).1.1 = ADD_DB_ITEM.
Proof.
  destruct (processCmdLineFlags_last_flag addLine addWithDb world0) as (Hopt & _).
  { by vm_compute. }
  destruct (processCmdLineFlags_last_flag addLine addOnly world0) as (Hadd & _).
  { by vm_compute. }
  split; [exact Hopt | exact Hadd].
Defined.

Lemma Run_list_output_witness :
  exists l w',
    Run addLine listOnly listFlags twoItems = (None, w')
    ∧ l ≡ₚ [learn; stale]
    ∧ files w' = files twoItems.
Proof.
  destruct (Run_list_output addLine listOnly listFlags twoItems
              (textOf [learn; stale]) [learn; stale])
    as (l & w' & Hrun & Hperm & _ & Hfiles).
  - no_faults.
  - by vm_compute.
  - reflexivity.
  - vm_compute; reflexivity.
  - vm_compute; reflexivity.
  - apply (bool_decide_unpack _). by vm_compute.
  - exists l, w'. split; [exact Hrun|]. split; [exact Hperm | exact Hfiles].
Defined.

Lemma Run_add_then_query_witness :
  exists w1 w2,
    Run addLine addOnly addFlags world0 = (None, w1)
    ∧ Run addLine queryOnly queryFlags w1 = (None, w2)
    ∧ stdout w2 =
        stdout w1 +:+ "Running QUERY_DB_ITEM..." +:+ newline
        +:+ originalText +:+ newline +:+ "Ok" +:+ newline.
Proof.
  destruct (Run_add_then_query addLine addOnly addFlags addLine queryOnly
              queryFlags world0 original [])
    as (w1 & w2 & Hadd & _ & Hquery & Hout).
  - no_faults.
  - by vm_compute.
  - reflexivity.
  - by vm_compute.
  - reflexivity.
  - reflexivity.
  - reflexivity.
  - vm_compute; reflexivity.
  - apply plain_original.
  - vm_compute; reflexivity.
  - constructor.
  - intros x Hx. inversion Hx.
  - exists w1, w2. split; [exact Hadd|]. split; [exact Hquery|].
    rewrite Hout. unfold printedLine. simpl.
    rewrite !append_assoc. reflexivity.
Defined.

Lemma failed_save_leaves_memory_and_file_apart_witness :
  exists t2 w2 t3 w3,
    DeleteItem fresh 1 opensOnce =
      (Some (errors_New "Failed to save to the database."), t2, w2)
    ∧ toDoMap t2 !! 1 = None
    ∧ GetItem t2 1 w2 = (learn, None, t3, w3).
Proof.
  destruct (failed_save_leaves_memory_and_file_apart fresh opensOnce
              (textOf [learn; stale]) [learn; stale]
              (os_ReadFile path opensOnce).2 0%nat []) as [_ Hdelete].
  - vm_compute; reflexivity.
  - vm_compute; reflexivity.
  - reflexivity.
  - constructor.
  - constructor.
  - destruct (Hdelete 1 learn) as (t2 & w2 & t3 & w3 & Hdel & Hgone & _ & Hback).
    + vm_compute; reflexivity.
    + eexists. vm_compute; reflexivity.
    + exists t2, w2, t3, w3. split; [exact Hdel|].
      split; [exact Hgone | exact Hback].
Defined.

Lemma new_store_is_empty_witness :
  exists t w1 w2,
    New path world0 = (Ok t, w1) ∧ GetAllItems t w1 = ([], None, t, w2).
Proof.
  destruct (new_store_is_empty path world0) as (t & w1 & w2 & Hnew & Hall & _).
  - no_faults.
  - vm_compute; reflexivity.
  - exists t, w1, w2. split; [exact Hnew | exact Hall].
Defined.

Lemma Run_restore_output_witness :
  exists w',
    Run ["todo"; "-r"] restoreOnly restoreFlags world0 = (None, w')
    ∧ files w' !! path = Some backup.
Proof.
  destruct (Run_restore_output ["todo"; "-r"] restoreOnly restoreFlags world0 backup)
    as (w' & Hrun & Hfiles & _).
  - no_faults.
  - by vm_compute.
  - reflexivity.
  - vm_compute; reflexivity.
  - exists w'. split; [exact Hrun|]. rewrite Hfiles. apply lookup_insert_eq.
Defined.

Lemma Run_exit_status_witness :
  (Run ["todo"; "-d"; "9"] deleteOnly deleteFlags twoItems).1 = None
  ∧ stdout (Run ["todo"; "-d"; "9"] deleteOnly deleteFlags twoItems).2 =
      "Running DELETE_DB_ITEM..." +:+ newline
      +:+ "Error:  Couldn't delete item because the id 9 doesn't exist"
      +:+ newline.
Proof.
  destruct (Run_exit_status ["todo"; "-d"; "9"] deleteOnly deleteFlags twoItems)
    as (_ & _ & _ & Hprints).
  destruct (Hprints DELETE_DB_ITEM twoItems fresh (New path twoItems).2)
    as (_ & _ & _ & _ & _ & Hdelete & _).
  - vm_compute; reflexivity.
  - vm_compute; reflexivity.
  - set (run := DeleteItem fresh 9
                  (fmt_Println ["Running DELETE_DB_ITEM..."]
                     (New path twoItems).2).2).
    destruct (Hdelete
                (errors_New "Couldn't delete item because the id 9 doesn't exist")
                run.1.2 run.2 eq_refl) as (Hreturns & Hout & _).
    + vm_compute; reflexivity.
    + split; [exact Hreturns|]. rewrite Hout. vm_compute. reflexivity.
Defined.

End Runs.
